(** * cenima: the content-resolution pipeline of the TopCinema scraper

    A shallow embedding of [cenima/scraper.py] and [cenima/processor.py]:
    the text normaliser ([parse_episode_number], [extract_season_number],
    [extract_season_part]), the packer reversal ([_unpack]), the pagination
    crawler ([_parse_season]), the content-id cascade ([_extract_content_id]),
    the server poller ([get_servers]) and the public operations built on them.
    Of the processor it also has the download page of vidtube.pro
    ([_handle_vidtube_pro]), and of [cenima/api.py] the title cleaner
    ([clean_show_title]).

    Python strings are lists of Unicode code points.  The network is a
    function of the request history; documents are given by the answers to
    the BeautifulSoup queries the code makes on them. *)

From Stdlib Require Import ZArith NArith List String Ascii QArith Lia Permutation Sorted Bool.
From Stdlib Require Import Floats.SpecFloat.
From stdpp Require Import gmap.
Import ListNotations.

Set Default Proof Using "Type".

(** ** Python strings *)

Module Py.

Abbreviation str := (list N).

(** UTF-8 decoding of a source literal into code points. *)
Fixpoint utf8_go (k : nat) (acc : N) (bs : list N) : str :=
  match bs with
  | [] => []
  | b :: bs' =>
      match k with
      | O =>
          if (b <? 128)%N then b :: utf8_go 0 0%N bs'
          else if (b <? 224)%N then utf8_go 1 (b - 192)%N bs'
          else if (b <? 240)%N then utf8_go 2 (b - 224)%N bs'
          else utf8_go 3 (b - 240)%N bs'
      | S k' =>
          let acc' := (acc * 64 + (b - 128))%N in
          match k' with
          | O => acc' :: utf8_go 0 0%N bs'
          | S _ => utf8_go k' acc' bs'
          end
      end
  end.

Definition u (s : string) : str :=
  utf8_go 0 0%N (map N_of_ascii (list_ascii_of_string s)).

(** What this development takes from the Python runtime and its libraries
    without modelling it: the Unicode tables behind [str.lower], [\d],
    [int], [str.isdigit], [\w] and [\s] on code points outside ASCII, the
    percent-decoding of [urllib.parse.unquote], the interpreter's limit on
    the number of digits [int] converts, and the expansion of a replacement
    template of [re.sub] that holds a backslash ([None]: the template is
    refused with [re.error]; otherwise the replacement for a matched text),
    and [quote(s, safe)], [urlsplit] ([None]: [ValueError]) and [urlunsplit]
    of [urllib.parse]. On ASCII every string operation below is defined in
    full. *)
Class PyEnv : Type := {
  uni_lower : str -> str;
  uni_decimal : N -> option N;
  uni_isdigit : N -> bool;
  uni_word : N -> bool;
  uni_space : N -> bool;
  unquote_pct : str -> str;
  int_max_str_digits : nat;
  re_template : str -> option (str -> str);
  quote : str -> str -> str;
  urlsplit : str -> option (str * str * str * str * str);
  urlunsplit : str * str * str * str * str -> str;
}.

(** An environment in which no code point outside ASCII is a letter, a digit
    or a space, [int] has no digit limit, and a URL is left whole and
    unquoted (as [quote] leaves a URL that has nothing to quote): enough to
    run the code on plain ASCII inputs. *)
Definition ascii_env : PyEnv := {|
  uni_lower := fun s => s;
  uni_decimal := fun _ => None;
  uni_isdigit := fun _ => false;
  uni_word := fun _ => false;
  uni_space := fun _ => false;
  unquote_pct := fun s => s;
  int_max_str_digits := 0;
  re_template := fun _ => None;
  quote := fun s _ => s;
  urlsplit := fun s => Some ([], [], s, [], []);
  urlunsplit := fun '(scheme, netloc, path, query, fragment) =>
    scheme ++ netloc ++ path ++ query ++ fragment;
|}.

Definition is_ascii_cp (c : N) : bool := (c <? 128)%N.
Definition is_ascii (s : str) : bool := forallb is_ascii_cp s.

Definition between (lo hi c : N) : bool := (lo <=? c)%N && (c <=? hi)%N.

Definition ascii_lower_cp (c : N) : N :=
  if between 65 90 c then (c + 32)%N else c.
Definition ascii_upper_cp (c : N) : N :=
  if between 97 122 c then (c - 32)%N else c.

(** [s.lower()] *)
Definition lower `{PyEnv} (s : str) : str :=
  if is_ascii s then map ascii_lower_cp s else uni_lower s.

(** The decimal value of a code point of category Nd ([\d], [int]). *)
Definition decimal_value `{PyEnv} (c : N) : option N :=
  if between 48 57 c then Some (c - 48)%N
  else if is_ascii_cp c then None
  else uni_decimal c.

Definition is_decimal `{PyEnv} (c : N) : bool :=
  match decimal_value c with Some _ => true | None => false end.

(** [c.isdigit()] on one code point; [s.isdigit()] on a string. *)
Definition isdigit_cp `{PyEnv} (c : N) : bool :=
  if is_ascii_cp c then between 48 57 c else uni_isdigit c.
Definition isdigit `{PyEnv} (s : str) : bool :=
  match s with [] => false | _ => forallb isdigit_cp s end.

(** [\w]: letters, digits and the underscore. *)
Definition is_word `{PyEnv} (c : N) : bool :=
  if is_ascii_cp c
  then between 48 57 c || between 65 90 c || between 97 122 c || (c =? 95)%N
  else uni_word c.

(** [\s] and [str.isspace]: in ASCII, tab to carriage return, the four
    separators 0x1c..0x1f and the space. *)
Definition is_space `{PyEnv} (c : N) : bool :=
  if is_ascii_cp c
  then between 9 13 c || between 28 31 c || (c =? 32)%N
  else uni_space c.

(** [s.startswith(p)], [p in s], [s.endswith(p)] *)
Fixpoint startswith (p s : str) : bool :=
  match p, s with
  | [], _ => true
  | _ :: _, [] => false
  | a :: p', b :: s' => (a =? b)%N && startswith p' s'
  end.

Fixpoint contains (p s : str) : bool :=
  startswith p s ||
  match s with
  | [] => false
  | _ :: s' => contains p s'
  end.

Definition endswith (p s : str) : bool := startswith (rev p) (rev s).

(** [s.replace(a, b)] for a one-character [a]. *)
Definition replace_cp (a b : N) (s : str) : str :=
  map (fun c => if (c =? a)%N then b else c) s.

(** [s.strip()] *)
Fixpoint lstrip `{PyEnv} (s : str) : str :=
  match s with
  | c :: s' => if is_space c then lstrip s' else s
  | [] => []
  end.
Definition strip `{PyEnv} (s : str) : str := rev (lstrip (rev (lstrip s))).

(** [s.rstrip('/')] *)
Fixpoint lstrip_cp (a : N) (s : str) : str :=
  match s with
  | c :: s' => if (c =? a)%N then lstrip_cp a s' else s
  | [] => []
  end.
Definition rstrip_cp (a : N) (s : str) : str := rev (lstrip_cp a (rev s)).

(** [int(s)] on a string of decimal digits: [None] is the [ValueError] of a
    string that is not one, or that has more digits than the interpreter
    converts. The interpreter checks its limit only on strings of more than
    640 digits; a limit of 0 is no limit, and no other limit is below 640. *)
Fixpoint digits_value `{PyEnv} (acc : N) (s : str) : option N :=
  match s with
  | [] => Some acc
  | c :: s' =>
      match decimal_value c with
      | Some d => digits_value (acc * 10 + d)%N s'
      | None => None
      end
  end.

Definition STR_DIGITS_CHECK_THRESHOLD : nat := 640.

Definition int `{PyEnv} (s : str) : option N :=
  match s with
  | [] => None
  | _ =>
      if (length s <=? STR_DIGITS_CHECK_THRESHOLD)%nat then digits_value 0%N s
      else
        match int_max_str_digits with
        | O => digits_value 0%N s
        | S _ as lim =>
            if (Nat.max lim STR_DIGITS_CHECK_THRESHOLD <? length s)%nat then None
            else digits_value 0%N s
        end
  end.

(** [urllib.parse.unquote]: a string without a percent sign is returned as
    it is. *)
Definition unquote `{PyEnv} (s : str) : str :=
  if existsb (N.eqb 37) s then unquote_pct s else s.

(** [str(n)] for a natural number: its decimal digits. *)
Fixpoint str_of_N_go (fuel : nat) (n : N) (acc : str) : str :=
  match fuel with
  | O => acc
  | S f =>
      let acc' := (48 + n mod 10)%N :: acc in
      if (n <? 10)%N then acc' else str_of_N_go f (n / 10)%N acc'
  end.
Definition str_of_N (n : N) : str := str_of_N_go (S (N.to_nat (N.log2 n))) n [].

End Py.

Import Py.

(** ** Outcomes of a Python call *)

(** A call returns, raises an exception, or never returns. *)
Inductive run (A : Type) : Type :=
| Done (a : A)
| Raised
| Hangs.
Arguments Done {A} a.
Arguments Raised {A}.
Arguments Hangs {A}.

Definition run_bind {A B : Type} (x : run A) (f : A -> run B) : run B :=
  match x with
  | Done a => f a
  | Raised => Raised
  | Hangs => Hangs
  end.

#[export] Instance run_mbind : MBind run := fun _ _ f x => run_bind x f.
#[export] Instance run_mret : MRet run := fun _ a => Done a.

(** [try: ... except Exception: return d] *)
Definition except_return {A : Type} (d : A) (x : run A) : run A :=
  match x with
  | Raised => Done d
  | _ => x
  end.

Definition of_option {A : Type} (o : option A) : run A :=
  match o with Some a => Done a | None => Raised end.

(** ** The regular expressions of the source

    A backtracking matcher for the fragment of [re] the code uses:
    character classes, literals, sequence, ordered alternatives, greedy
    [?], [*] and [+], capture groups, [^], [$] and [\b]. [m r st] lists
    the states in which a match of [r] started in [st] can end, in the
    order in which Python's matcher tries them. *)

Module Re.

Record mstate : Type := MState {
  prev : option N;             (* the character before the position *)
  rest : str;                  (* the text from the position on *)
  groups : list (nat * str);   (* captures, most recent first *)
}.

Inductive re : Type :=
| Eps
| Chr (p : N -> bool)
| Seq (a b : re)
| Alt (a b : re)
| Opt (a : re)
| Star (a : re)
| Plus (a : re)
| Grp (n : nat) (a : re)
| Bol
| Eol
| WordB.

Definition progress (st st' : mstate) : bool :=
  (length (rest st') <? length (rest st))%nat.

Fixpoint star (f : mstate -> list mstate) (fuel : nat) (st : mstate) : list mstate :=
  match fuel with
  | O => [st]
  | S k => flat_map (star f k) (List.filter (progress st) (f st)) ++ [st]
  end.

Definition capture (n : nat) (st st' : mstate) : mstate :=
  MState (prev st') (rest st')
    ((n, firstn (length (rest st) - length (rest st')) (rest st)) :: groups st').

Definition at_boundary `{PyEnv} (st : mstate) : bool :=
  xorb (match prev st with Some c => is_word c | None => false end)
       (match rest st with c :: _ => is_word c | [] => false end).

Fixpoint m `{PyEnv} (r : re) (st : mstate) : list mstate :=
  match r with
  | Eps => [st]
  | Chr p =>
      match rest st with
      | c :: t => if p c then [MState (Some c) t (groups st)] else []
      | [] => []
      end
  | Seq a b => flat_map (m b) (m a st)
  | Alt a b => m a st ++ m b st
  | Opt a => m a st ++ [st]
  | Star a => star (m a) (length (rest st)) st
  | Plus a => flat_map (fun st' => star (m a) (length (rest st')) st') (m a st)
  | Grp n a => map (capture n st) (m a st)
  | Bol => match prev st with None => [st] | Some _ => [] end
  | Eol =>
      match rest st with
      | [] => [st]
      | [c] => if (c =? 10)%N then [st] else []
      | _ => []
      end
  | WordB => if at_boundary st then [st] else []
  end.

(** [re.search(r, s)]: the first match at the leftmost position that has one. *)
Fixpoint search_from `{PyEnv} (r : re) (p : option N) (s : str) : option mstate :=
  match m r (MState p s []) with
  | st :: _ => Some st
  | [] =>
      match s with
      | [] => None
      | c :: t => search_from r (Some c) t
      end
  end.

Definition search `{PyEnv} (r : re) (s : str) : option mstate :=
  search_from r None s.

(** [match.group(n)]: [None] for a group that did not take part. *)
Fixpoint group (n : nat) (gs : list (nat * str)) : option str :=
  match gs with
  | [] => None
  | (k, v) :: gs' => if (k =? n)%nat then Some v else group n gs'
  end.

(** [re.sub(r, repl, s)] for a pattern that never matches the empty string
    (every pattern the source substitutes is one): the matches are replaced
    from left to right, each search resuming where the previous match
    ended. [skip] counts the characters of the current match still to pass. *)
Fixpoint sub_from `{PyEnv} (r : re) (repl : str) (p : option N) (skip : nat) (s : str) : str :=
  match s with
  | [] => []
  | c :: t =>
      match skip with
      | S k => sub_from r repl (Some c) k t
      | O =>
          match m r (MState p s []) with
          | st :: _ =>
              match length s - length (rest st) with
              | S k => repl ++ sub_from r repl (Some c) k t
              | O => c :: sub_from r repl (Some c) 0 t
              end
          | [] => c :: sub_from r repl (Some c) 0 t
          end
      end
  end.

Definition sub `{PyEnv} (r : re) (repl s : str) : str := sub_from r repl None 0 s.

(** Patterns. *)
Definition chr (c : N) : re := Chr (N.eqb c).
Definition lit (s : str) : re := fold_right (fun c r => Seq (chr c) r) Eps s.

(** A pattern character under [re.IGNORECASE]: it matches the characters
    whose lower case it is, and [i], [s], [k] also the dotless i, the long
    s and the Kelvin sign. *)
Definition ci_eq (pc c : N) : bool :=
  (ascii_lower_cp c =? pc)%N
  || ((pc =? 105)%N && ((c =? 304)%N || (c =? 305)%N))
  || ((pc =? 115)%N && (c =? 383)%N)
  || ((pc =? 107)%N && (c =? 8490)%N).
Definition lit_ci (s : str) : re := fold_right (fun c r => Seq (Chr (ci_eq c)) r) Eps s.

Definition one_of (cs : str) : re := Chr (fun c => existsb (N.eqb c) cs).
Definition digit `{PyEnv} : re := Chr is_decimal.
Definition space `{PyEnv} : re := Chr is_space.

(** [r'\b' + re.escape(w) + r'\b'] *)
Definition whole_word (w : str) : re := Seq WordB (Seq (lit w) WordB).

Fixpoint alts (rs : list re) : re :=
  match rs with
  | [] => Chr (fun _ => false)
  | [r] => r
  | r :: rs' => Alt r (alts rs')
  end.

End Re.

(** ** Floating-point numbers

    A Python [float] is an IEEE-754 binary64 number: [spec_float] of the
    Standard Library with precision 53 and maximal exponent 1024. *)

Module Float.

Abbreviation float := spec_float.

(** The integer [n] as a mantissa with exponent 0, before any rounding: an
    operand of the division below, never a value of the program. *)
Definition unrounded (n : N) : float :=
  match n with
  | N0 => S754_zero false
  | Npos p => S754_finite false p 0
  end.

(** The binary64 number nearest to [n / d], ties to even, in its normal
    form (a mantissa of 53 bits, or the least exponent). *)
Definition div_N (n d : N) : float := SFdiv 53 1024 (unrounded n) (unrounded d).

(** [float(n)]: the binary64 number nearest to [n], in normal form. *)
Definition of_N (n : N) : float := div_N n 1.

(** [x < y] *)
Definition ltb (x y : float) : bool := SFltb x y.

(** The numbers of binary64 are those in normal form: the comparison of
    the library reads the exponents first, which is the order of the
    values for them only. *)
Definition normal (x : float) : bool := valid_binary 53 1024 x.

(** The value of a number that is not negative, counted in units of
    [2^-1074], the least positive number of binary64; the infinity counts
    as [2^1024], above every finite number. *)
Definition ticks (x : float) : Z :=
  match x with
  | S754_finite _ m e => Z.pos m * 2 ^ (e + 1074)
  | S754_infinity _ => 2 ^ 2098
  | _ => 0
  end.

(** [float(s)] for a string [s] of the form digits, or digits, a point and
    digits (the only strings the source converts): the nearest binary64
    number to the decimal it writes. [None] stands for [ValueError]. *)
Fixpoint split_point (s : str) : str * option str :=
  match s with
  | [] => ([], None)
  | c :: s' =>
      if (c =? 46)%N then ([], Some s')
      else let '(a, b) := split_point s' in (c :: a, b)
  end.

Definition of_decimal `{PyEnv} (s : str) : option float :=
  let '(ip, fp) := split_point s in
  let fp' := match fp with Some f => f | None => [] end in
  match ip, fp with
  | [], _ => None
  | _, Some [] => None
  | _, _ =>
      match digits_value 0%N (ip ++ fp') with
      | Some n => Some (div_N n (10 ^ N.of_nat (length fp'))%N)
      | None => None
      end
  end.

End Float.

(** ** A stable sort

    [list.sort(key=...)] and [sorted(..., key=...)] compare keys with [<]
    only and keep the input order of elements whose keys do not differ.
    [lt x y] says that the key of [x] is below the key of [y]. *)

Module Sort.

Section Sort.
Context {A : Type} (lt : A -> A -> bool).

(** [x] goes before the first element that is not below it. *)
Fixpoint insert (x : A) (l : list A) : list A :=
  match l with
  | [] => [x]
  | y :: l' => if lt y x then y :: insert x l' else x :: y :: l'
  end.

Fixpoint sort (l : list A) : list A :=
  match l with
  | [] => []
  | x :: l' => insert x (sort l')
  end.

End Sort.

End Sort.

(** ** processor.py: the packer reversal *)

Module Processor.

Import Re.

Definition digits : str := u "0123456789abcdefghijklmnopqrstuvwxyz".

(** The loop of [to_base]: [while n: result = digits[n % b] + result; n //= b].
    [n % 0] raises [ZeroDivisionError], a digit past [z] raises [IndexError].
    The fuel bounds the iterations; see [to_base_loop_radix_1] and
    [to_base_returns] for what running out of it means. *)
Fixpoint to_base_loop (fuel : nat) (n b : N) (result : str) : run str :=
  match fuel with
  | O => Hangs
  | S f =>
      if (n =? 0)%N then Done result
      else if (b =? 0)%N then Raised
      else
        match nth_error digits (N.to_nat (n mod b)) with
        | Some d => to_base_loop f (n / b)%N b (d :: result)
        | None => Raised
        end
  end.

Definition to_base (n b : N) : run str :=
  if (n =? 0)%N then Done (u "0")
  else to_base_loop (S (N.to_nat n)) n b [].

(** The pattern [r'\b' + re.escape(token) + r'\b']. *)
Definition token_re (token : str) : re := whole_word token.

(** [re.sub(pattern, value, p)]: [value] is a replacement template. Without
    a backslash it is the replacement itself; with one it is expanded (or
    refused) by the [re] module before any match is looked for. The pattern
    has no group, so the expansion can only refer to the matched text, which
    is the token. *)
Definition re_sub_token `{PyEnv} (token value p : str) : run str :=
  if existsb (N.eqb 92) value then
    match re_template value with
    | Some expand => Done (sub (token_re token) (expand token) p)
    | None => Raised
    end
  else Done (sub (token_re token) value p).

(** One round of the loop of [_unpack], for the index [i]. *)
Definition unpack_step `{PyEnv} (a : N) (k : list str) (i : nat) (p : str) : run str :=
  match nth_error k i with
  | Some ((_ :: _) as value) =>
      token ← to_base (N.of_nat i) a;
      re_sub_token token value p
  | _ => Done p
  end.

(** [for i in range(c - 1, -1, -1)]: [n] rounds are left, the next index is
    [n - 1]. *)
Fixpoint unpack_loop `{PyEnv} (n : nat) (a : N) (k : list str) (p : str) : run str :=
  match n with
  | O => Done p
  | S i => p' ← unpack_step a k i p; unpack_loop i a k p'
  end.

(** [VidTubeProcessor._unpack(p, a, c, k)] *)
Definition _unpack `{PyEnv} (p : str) (a c : N) (k : list str) : run str :=
  unpack_loop (N.to_nat c) a k p.

End Processor.

(** ** scraper.py: the module-level functions *)

Module Scraper.

Import Re.

(** [" ".join(s.split())] after [s.strip()]: the words of [s], separated by
    single spaces. *)
Fixpoint split_ws `{PyEnv} (cur : str) (s : str) : list str :=
  match s with
  | [] => match cur with [] => [] | _ => [rev cur] end
  | c :: s' =>
      if is_space c
      then match cur with [] => split_ws [] s' | _ => rev cur :: split_ws [] s' end
      else split_ws (c :: cur) s'
  end.

Definition split `{PyEnv} (s : str) : list str := split_ws [] s.

Fixpoint join (sep : str) (ws : list str) : str :=
  match ws with
  | [] => []
  | [w] => w
  | w :: ws' => w ++ sep ++ join sep ws'
  end.

Definition clean_text `{PyEnv} (text : str) : str :=
  match text with
  | [] => []
  | _ => join (u " ") (split (strip text))
  end.

(** [clean_arabic_title] *)
Fixpoint dedup_numbers `{PyEnv} (seen_numbers : gset str) (parts : list str) : list str :=
  match parts with
  | [] => []
  | part :: parts' =>
      if isdigit part
      then if bool_decide (part ∈ seen_numbers)
           then dedup_numbers seen_numbers parts'
           else part :: dedup_numbers ({[part]} ∪ seen_numbers) parts'
      else part :: dedup_numbers seen_numbers parts'
  end.

Definition clean_arabic_title `{PyEnv} (text : str) : str :=
  match text with
  | [] => text
  | _ =>
      let text := sub (Plus (Chr (between 1536 1791))) [] text in
      let parts := split text in
      let text := join (u " ") (dedup_numbers ∅ parts) in
      let text := sub (Plus space) (u " ") text in
      strip text
  end.

(** The pattern [(\d+(?:\.\d+)?)]. *)
Definition number_re `{PyEnv} : re :=
  Grp 1 (Seq (Plus digit) (Opt (Seq (chr 46) (Plus digit)))).

Definition NO_NUMBER : Float.float := Float.of_N 99999.

(** [parse_episode_number] *)
Definition parse_episode_number `{PyEnv} (ep_str : str) : Float.float :=
  match ep_str with
  | [] => NO_NUMBER
  | _ =>
      let ep_str := strip ep_str in
      if bool_decide (lower ep_str = u "special") || bool_decide (ep_str = u "0")
      then Float.of_N 0
      else
        match search number_re ep_str with
        | Some mt =>
            match group 1 (groups mt) with
            | Some g =>
                match Float.of_decimal g with
                | Some x => x
                | None => NO_NUMBER
                end
            | None => NO_NUMBER
            end
        | None => NO_NUMBER
        end
  end.

(** The pattern [(?:part|الجزء|جزء)[- ]?(\d+)]. *)
Definition part_words : list str := [u "part"; u "الجزء"; u "جزء"].

Definition part_re `{PyEnv} : re :=
  Seq (alts (map lit part_words)) (Seq (Opt (one_of (u "- "))) (Grp 1 (Plus digit))).

(** The pattern [(?:الموسم|season)[- ]?(\d+)|(?:^|/)s(\d+)(?:$|/)]. *)
Definition season_re `{PyEnv} : re :=
  Alt (Seq (Alt (lit (u "الموسم")) (lit (u "season")))
         (Seq (Opt (one_of (u "- "))) (Grp 1 (Plus digit))))
      (Seq (Alt Bol (chr 47))
         (Seq (chr 115) (Seq (Grp 2 (Plus digit)) (Alt Eol (chr 47))))).

(** The [arabic_ordinals] table, in the order the source writes it. *)
Definition arabic_ordinals : list (str * N) := [
    (u "الحادي عشر", 11%N);
    (u "حادي عشر", 11%N);
    (u "الثاني عشر", 12%N);
    (u "ثاني عشر", 12%N);
    (u "الثالث عشر", 13%N);
    (u "ثالث عشر", 13%N);
    (u "الرابع عشر", 14%N);
    (u "رابع عشر", 14%N);
    (u "الخامس عشر", 15%N);
    (u "خامس عشر", 15%N);
    (u "السادس عشر", 16%N);
    (u "سادس عشر", 16%N);
    (u "السابع عشر", 17%N);
    (u "سابع عشر", 17%N);
    (u "الثامن عشر", 18%N);
    (u "ثامن عشر", 18%N);
    (u "التاسع عشر", 19%N);
    (u "تاسع عشر", 19%N);
    (u "الحادي والعشرون", 21%N);
    (u "حادي والعشرون", 21%N);
    (u "الثاني والعشرون", 22%N);
    (u "ثاني والعشرون", 22%N);
    (u "العشرون", 20%N);
    (u "عشرون", 20%N);
    (u "العاشر", 10%N);
    (u "عاشر", 10%N);
    (u "التاسع", 9%N);
    (u "تاسع", 9%N);
    (u "الثامن", 8%N);
    (u "ثامن", 8%N);
    (u "السابع", 7%N);
    (u "سابع", 7%N);
    (u "السادس", 6%N);
    (u "سادس", 6%N);
    (u "الخامس", 5%N);
    (u "خامس", 5%N);
    (u "الرابع", 4%N);
    (u "رابع", 4%N);
    (u "الثالث", 3%N);
    (u "ثالث", 3%N);
    (u "الثاني", 2%N);
    (u "ثاني", 2%N);
    (u "الاول", 1%N);
    (u "الأول", 1%N);
    (u "اول", 1%N)
  ].

(** [sorted(arabic_ordinals.keys(), key=len, reverse=True)] *)
Definition ordinals_by_length : list (str * N) :=
  Sort.sort (fun a b => (length (fst b) <? length (fst a))%nat) arabic_ordinals.

Fixpoint first_ordinal (text : str) (tbl : list (str * N)) : option N :=
  match tbl with
  | [] => None
  | (ordinal, n) :: tbl' =>
      if contains ordinal text then Some n else first_ordinal text tbl'
  end.

(** The first group of [match.groups()] that is not empty. *)
Fixpoint first_group (ns : list nat) (gs : list (nat * str)) : option str :=
  match ns with
  | [] => None
  | n :: ns' =>
      match group n gs with
      | Some ((_ :: _) as g) => Some g
      | _ => first_group ns' gs
      end
  end.

Definition normalize_separators (text_lower : str) : str :=
  replace_cp 95 32 (replace_cp 45 32 text_lower).

Definition has_final (text_normalized : str) : bool :=
  contains (u "final") text_normalized
  || contains (u "نهائي") text_normalized
  || contains (u "الأخير") text_normalized.

(** [extract_season_number]: [Raised] is the [ValueError] of [int] on a
    number longer than the interpreter converts. *)
Definition extract_season_number `{PyEnv} (text : str) : run N :=
  let text := unquote text in
  let text_lower := lower text in
  let text_normalized := normalize_separators text_lower in
  if has_final text_normalized then
    match search part_re text_normalized with
    | Some part_match =>
        match group 1 (groups part_match) with
        | Some g => n ← of_option (int g); mret (100 + n)%N
        | None => Raised
        end
    | None => mret 100%N
    end
  else
    match first_ordinal text_normalized ordinals_by_length with
    | Some n => mret n
    | None =>
        match search season_re text_normalized with
        | Some mt =>
            match first_group [1; 2]%nat (groups mt) with
            | Some g => of_option (int g)
            | None => mret 1%N
            end
        | None => mret 1%N
        end
    end.

(** The pattern [(?:part|الجزء|جزء)[- ]?(\d+)|p(\d+)] under [re.IGNORECASE]. *)
Definition part_or_p_re `{PyEnv} : re :=
  Alt (Seq (alts (map lit_ci part_words)) (Seq (Opt (one_of (u "- "))) (Grp 1 (Plus digit))))
      (Seq (Chr (ci_eq 112)) (Grp 2 (Plus digit))).

(** [extract_season_part] *)
Definition extract_season_part `{PyEnv} (text : str) : option str :=
  let text := lower (unquote text) in
  match search part_or_p_re text with
  | Some part_match =>
      match first_group [1; 2]%nat (groups part_match) with
      | Some part_num => Some (u "Part " ++ part_num)
      | None => Some (u "Part None")
      end
  | None =>
      if contains (u "الجزء الثاني") text || contains (u "part 2") text
         || contains (u "cour 2") text
      then Some (u "Part 2")
      else if contains (u "الجزء الاول") text || contains (u "part 1") text
              || contains (u "cour 1") text
      then Some (u "Part 1")
      else None
  end.

(** ** The web as the scraper sees it *)

(** An element, by the attributes the code reads. *)
Record element : Type := Element {
  data_id : option str;        (* [elem.get("data-id")] *)
  class_ : list str;           (* [elem.get("class", [])] *)
}.

(** An anchor of a listing page. *)
Record anchor : Type := Anchor {
  a_href : option str;         (* [anchor.get("href")] *)
  a_title : option str;        (* [anchor.get("title")] *)
  a_text : str;                (* [anchor.get_text()] *)
  a_epnum : bool;              (* [anchor.select_one(".epnum")] finds one *)
  a_class : list str;          (* [anchor.get("class", [])] *)
}.

(** A value of a metadata dictionary. *)
Inductive pyval : Type :=
| VStr (s : str)
| VInt (n : N)
| VFloat (x : Float.float)
| VList (l : list str).

Definition metadata : Type := list (str * pyval).

(** A box of the search results. *)
Record item : Type := Item {
  i_link : option (option str * option str);   (* [item.find("a")]: its href and title *)
  i_title_elem : option str;   (* the text of [.title], [.Title] or [h3], when there is one *)
  i_metadata : option metadata;   (* what the ribbon, list, year and image give; [None]: reading them raises *)
}.

(** A parsed document, given by the answers to the queries the code makes. *)
Record soup : Type := Soup {
  small_boxes : list item;                 (* [select(".Small--Box")] *)
  iframe : option (option str);            (* [find("iframe")] and its [src] *)
  allepcont_row_a : list anchor;           (* [select(".allepcont .row > a")] *)
  allepcont_a : list anchor;               (* [select(".allepcont a")] *)
  links : list anchor;                     (* [find_all("a", href=True)] *)
  episodes_seasons_a : list anchor;        (* [select(".Episodes--Seasons--Episodes a")] *)
  page_numbers_next : bool;                (* [select_one('.page-numbers.next')] finds one *)
  page_link : N -> bool;                   (* [select_one('a[href*="page=N"]')] finds one *)
  poster_img : option (option str * option str);   (* [img] of class poster: data-src, src *)
  servers_list_li : list element;          (* [select("ul.servers-list li")] *)
  server_item : list element;              (* [select(".server--item")] *)
  li_data_server : list element;           (* [select("li[data-server]")] *)
  data_id_elems : list element;            (* [find_all(attrs={"data-id": True})] *)
  post_class_elems : list element;         (* [find_all(class_=re.compile(r"post-\d+"))] *)
  scripts : list (option str);             (* [script.string] of every script *)
  shortlink : option (option str);         (* [find("link", rel="shortlink")] and its href *)
  play_div : option (option str);          (* [find(id="play")] and its data-id *)
  season_boxes : list (option str);        (* the season boxes: [box.find("a", href=True)] *)
  page_metadata : option metadata;         (* the fields [_parse_metadata] reads; [None]: reading them raises *)
  trailer_button : option (option str);    (* the trailer anchor and its data-url *)
}.

Definition empty_soup : soup := {|
  small_boxes := []; iframe := None;
  allepcont_row_a := []; allepcont_a := []; links := []; episodes_seasons_a := [];
  page_numbers_next := false; page_link := fun _ => false; poster_img := None;
  servers_list_li := []; server_item := []; li_data_server := [];
  data_id_elems := []; post_class_elems := []; scripts := [];
  shortlink := None; play_div := None;
  season_boxes := []; page_metadata := Some []; trailer_button := None;
|}.

(** A request: the session it is sent on, and what distinguishes it. *)
Inductive request : Type :=
| GET (session : nat) (url : str)
| POST (session : nat) (url : str) (data : list (str * str)) (referer origin : str)
| EXTRACT (session : nat) (embed_url : str) (referer : option str).

(** [response.status_code], [response.url], and [response.text] parsed. *)
Record response : Type := Response {
  status_code : N;
  final_url : str;
  text : soup;
}.

(** The network: what a request is answered with after a given history of
    requests. [http] gives [None] when the call raises (a transport error,
    a timeout); [vidtube] is [VidTubeProcessor.extract], which catches its
    own exceptions and returns a stream URL or [None]. *)
Class Web : Type := {
  http : list request -> request -> option response;
  vidtube : list request -> request -> option str;
}.

(** The state: the requests sent so far, and the number of sessions opened. *)
Record world : Type := World {
  log : list request;
  sessions : nat;
}.

Definition send `{Web} (w : world) (r : request) : world * option response :=
  (World (log w ++ [r]) (sessions w), http (log w) r).

Definition extract `{Web} (w : world) (session : nat) (url : str) (referer : option str)
  : world * option str :=
  let r := EXTRACT session url referer in
  (World (log w ++ [r]) (sessions w), vidtube (log w) r).

(** [response.raise_for_status()] *)
Definition raise_for_status (r : response) : run unit :=
  if between 400 599 (status_code r) then Raised else Done tt.

(** A Python value used as a condition: a string is true when not empty. *)
Definition truthy (o : option str) : option str :=
  match o with
  | Some ((_ :: _) as s) => Some s
  | _ => None
  end.

(** ** class TopCinemaScraper *)

Record scraper : Type := TopCinemaScraper {
  session : nat;
  base_url : str;
}.

Definition _get_endpoint (self : scraper) (endpoint_type : str) : str :=
  let base := rstrip_cp 47 (base_url self) in
  if bool_decide (endpoint_type = u "search")
  then base ++ u "/wp-content/themes/movies2023/Ajaxat/Searching.php"
  else if bool_decide (endpoint_type = u "server")
  then base ++ u "/wp-content/themes/movies2023/Ajaxat/Single/Server.php"
  else if bool_decide (endpoint_type = u "trailer")
  then base ++ u "/wp-content/themes/movies2023/Ajaxat/Home/LoadTrailer.php"
  else [].

(** *** Servers *)

Record server : Type := Server {
  name : str;
  server_number : nat;
  embed_url : str;
  video_url : str;
}.

Definition vidtube_domains : list str :=
  [u "vidtube.one"; u "vidtube.pro"; u "vidtube.me"; u "vidtube.to"].

(** The loop of [_extract_vidtube_url] over the referers. *)
Fixpoint extract_with_referers `{Web} (self : scraper) (embed_url : str)
    (referers : list str) (w : world) : world * option str :=
  match referers with
  | [] => extract w (session self) embed_url None
  | ref :: referers' =>
      match ref with
      | [] => extract_with_referers self embed_url referers' w
      | _ =>
          let '(w1, video_url) := extract w (session self) embed_url (Some ref) in
          match truthy video_url with
          | Some v => (w1, Some v)
          | None => extract_with_referers self embed_url referers' w1
          end
      end
  end.

Definition _extract_vidtube_url `{PyEnv} `{Web} (self : scraper) (embed_url : str)
    (referers : list str) (w : world) : world * option str :=
  if existsb (fun domain => contains domain (lower embed_url)) vidtube_domains
  then extract_with_referers self embed_url referers w
  else (w, None).

(** The body of the loop of [get_servers] for the slot [i]: the server it
    appends, if it appends one (and then the loop stops). *)
Definition poll_slot `{PyEnv} `{Web} (self : scraper) (content_id referer : str)
    (i : nat) (w : world) : world * option server :=
  let data := [(u "id", content_id); (u "i", str_of_N (N.of_nat i))] in
  let '(w1, response) :=
    send w (POST (session self) (_get_endpoint self (u "server")) data referer (base_url self)) in
  match response with
  | None => (w1, None)
  | Some response =>
      if (status_code response =? 200)%N then
        match iframe (text response) with
        | Some (Some ((_ :: _) as src)) =>
            let embed_url := strip src in
            if contains (u "vidtube") (lower embed_url) then
              let referers := [base_url self; referer; embed_url] in
              let '(w2, video_url) := _extract_vidtube_url self embed_url referers w1 in
              match truthy video_url with
              | Some video_url =>
                  (w2, Some {| name := u "VidTube Server " ++ str_of_N (N.of_nat (i + 1));
                               server_number := i;
                               embed_url := embed_url;
                               video_url := video_url |})
              | None => (w2, None)
              end
            else (w1, None)
        | _ => (w1, None)
        end
      else (w1, None)
  end.

(** [for i in range(max_servers)], from the slot [i] on, [n] slots left. *)
Fixpoint poll_from `{PyEnv} `{Web} (self : scraper) (content_id referer : str)
    (n i : nat) (w : world) : world * list server :=
  match n with
  | O => (w, [])
  | S n' =>
      let '(w1, found) := poll_slot self content_id referer i w in
      match found with
      | Some s => (w1, [s])
      | None => poll_from self content_id referer n' (S i) w1
      end
  end.

(** [get_servers(content_id, referer, max_servers)] *)
Definition get_servers `{PyEnv} `{Web} (self : scraper) (content_id referer : str)
    (max_servers : nat) (w : world) : world * list server :=
  poll_from self content_id referer max_servers 0 w.

Definition DEFAULT_MAX_SERVERS : nat := 10.

(** *** The content id *)

Definition quotes : str := [34; 39]%N.

(** [id["\']?\s*[:=]\s*["\']?(\d+)] *)
Definition id_re `{PyEnv} : re :=
  Seq (lit (u "id")) (Seq (Opt (one_of quotes)) (Seq (Star space) (Seq (one_of (u ":="))
    (Seq (Star space) (Seq (Opt (one_of quotes)) (Grp 1 (Plus digit))))))).

(** [p=(\d+)] *)
Definition p_re `{PyEnv} : re := Seq (lit (u "p=")) (Grp 1 (Plus digit)).

(** ["post_id"\s*:\s*(\d+)] *)
Definition post_id_re `{PyEnv} : re :=
  Seq (lit ([34%N] ++ u "post_id" ++ [34%N])) (Seq (Star space) (Seq (chr 58)
    (Seq (Star space) (Grp 1 (Plus digit))))).

(** [var\s+post_id\s*=\s*(\d+)] *)
Definition var_post_id_re `{PyEnv} : re :=
  Seq (lit (u "var")) (Seq (Plus space) (Seq (lit (u "post_id")) (Seq (Star space)
    (Seq (chr 61) (Seq (Star space) (Grp 1 (Plus digit))))))).

(** [re.search(r, s)] followed by [match.group(1)]. *)
Definition search_group1 `{PyEnv} (r : re) (s : str) : option str :=
  match search r s with
  | Some mt => group 1 (groups mt)
  | None => None
  end.

(** The first element of a list for which [f] gives something. *)
Fixpoint first_some {A B : Type} (f : A -> option B) (l : list A) : option B :=
  match l with
  | [] => None
  | x :: l' =>
      match f x with
      | Some y => Some y
      | None => first_some f l'
      end
  end.

(** 1. The items of the server list. *)
Definition id_of_server_list (sp : soup) : option str :=
  first_some (fun li => truthy (data_id li))
    (servers_list_li sp ++ server_item sp ++ li_data_server sp).

(** 2. Any element with a [data-id] made of digits. *)
Definition id_of_data_id `{PyEnv} (sp : soup) : option str :=
  first_some (fun elem =>
      match truthy (data_id elem) with
      | Some content_id => if isdigit content_id then Some content_id else None
      | None => None
      end)
    (data_id_elems sp).

(** [c.split("-")[1]] for a [c] that starts with [post-]. *)
Fixpoint until_dash (s : str) : str :=
  match s with
  | [] => []
  | c :: s' => if (c =? 45)%N then [] else c :: until_dash s'
  end.

(** 3. A class [post-N]. *)
Definition id_of_class `{PyEnv} (c : str) : option str :=
  if startswith (u "post-") c then
    let pid := until_dash (skipn 5 c) in
    if isdigit pid then Some pid else None
  else None.

Definition id_of_post_class `{PyEnv} (sp : soup) : option str :=
  first_some (fun cls => first_some id_of_class (class_ cls)) (post_class_elems sp).

(** 4. The inline scripts. *)
Definition id_of_script `{PyEnv} (script : option str) : option str :=
  match truthy script with
  | Some string =>
      first_some (fun r => search_group1 r string) [id_re; p_re; post_id_re; var_post_id_re]
  | None => None
  end.

Definition id_of_scripts `{PyEnv} (sp : soup) : option str :=
  first_some id_of_script (scripts sp).

(** 5. The short link. *)
Definition id_of_shortlink `{PyEnv} (sp : soup) : option str :=
  match shortlink sp with
  | Some href =>
      match truthy href with
      | Some href => search_group1 p_re href
      | None => None
      end
  | None => None
  end.

(** 6. The player. *)
Definition id_of_play_div (sp : soup) : option str :=
  match play_div sp with
  | Some d => truthy d
  | None => None
  end.

(** The cascade, in the order of the source. *)
Definition strategies `{PyEnv} : list (soup -> option str) :=
  [id_of_server_list; id_of_data_id; id_of_post_class; id_of_scripts;
   id_of_shortlink; id_of_play_div].

Definition content_id_of_soup `{PyEnv} (sp : soup) : option str :=
  first_some (fun strategy => strategy sp) strategies.

(** [_extract_content_id(url, soup)]: without a document, the page at [url]
    is fetched; a failure of the fetch is caught and gives [None]. *)
Definition _extract_content_id `{PyEnv} `{Web} (self : scraper) (url : str)
    (sp : option soup) (w : world) : world * option str :=
  match sp with
  | Some sp => (w, content_id_of_soup sp)
  | None =>
      let '(w1, response) := send w (GET (session self) url) in
      match response with
      | Some response => (w1, content_id_of_soup (text response))
      | None => (w1, None)
      end
  end.

(** *** Episodes *)

Record episode : Type := Episode {
  episode_number : str;
  display_number : str;
  title : str;
  url : str;
  is_special : bool;
  servers : list server;
}.

(** [(?:الحلقة|episode|ep)[- ]?(\d+(?:\.\d+)?)] under [re.IGNORECASE] *)
Definition episode_re `{PyEnv} : re :=
  Seq (alts (map lit_ci [u "الحلقة"; u "episode"; u "ep"]))
    (Seq (Opt (one_of (u "- "))) number_re).

(** [(?:ova|special|movie|خاص)] under [re.IGNORECASE] *)
Definition special_re : re :=
  alts (map lit_ci [u "ova"; u "special"; u "movie"; u "خاص"]).

(** [(?:part|season|الجزء|الموسم)[- ]?\d+] under [re.IGNORECASE] *)
Definition part_season_re `{PyEnv} : re :=
  Seq (alts (map lit_ci [u "part"; u "season"; u "الجزء"; u "الموسم"]))
    (Seq (Opt (one_of (u "- "))) (Plus digit)).

Definition or_else {A : Type} (x y : option A) : option A :=
  match x with
  | Some _ => x
  | None => y
  end.

Definition or_str (x y : str) : str :=
  match x with
  | [] => y
  | _ => x
  end.

(** The cascade of [_parse_episode_link] that looks for the number: the url,
    the title attribute and the text with an episode word, then the title
    attribute and the text without their part and season numbers. *)
Definition find_episode_number `{PyEnv} (url title_attr ep_text : str) : option mstate :=
  or_else (search episode_re url)
  (or_else (search episode_re title_attr)
  (or_else (search episode_re ep_text)
  (or_else (search number_re (sub part_season_re [] title_attr))
           (search number_re (sub part_season_re [] ep_text))))).

Definition special_type_of `{PyEnv} (url : str) : option str :=
  match search special_re url with
  | Some _ =>
      if contains (u "ova") (lower url) then Some (u "OVA")
      else if contains (u "movie") (lower url) then Some (u "Movie")
      else Some (u "Special")
  | None => None
  end.

(** [_parse_episode_link(link_elem, url)]. The module does not import
    [urljoin], so the call made for a url that starts with neither [http:]
    nor [https:] raises [NameError], which the function catches: it
    returns [None]. *)
Definition _parse_episode_link `{PyEnv} (link_elem : anchor) (url : str) : option episode :=
  if match url with [] => false | _ => true end
     && negb (startswith (u "http:") url || startswith (u "https:") url)
  then None
  else if contains (u "/category/") url || contains (u "/genre/") url then None
  else
    let ep_text := clean_text (a_text link_elem) in
    let title_attr := match a_title link_elem with Some t => t | None => [] end in
    let special_type := special_type_of url in
    let is_special := match special_type with Some _ => true | None => false end in
    let numbered :=
      match find_episode_number url title_attr ep_text with
      | None =>
          match special_type with
          | Some special_type => Some (special_type, u "[" ++ special_type ++ u "]")
          | None => Some (u "0", u "[No Number]")
          end
      | Some ep_match =>
          match first_group [1%nat] (groups ep_match) with
          | Some ep_num_str =>
              Some (ep_num_str,
                    match special_type with
                    | Some special_type => special_type ++ u " " ++ ep_num_str
                    | None => ep_num_str
                    end)
          | None => None
          end
      end in
    match numbered with
    | None => None
    | Some (ep_num_str, display_num) =>
        let clean_title := clean_arabic_title (or_str ep_text title_attr) in
        let clean_title := strip (sub (whole_word ep_num_str) [] clean_title) in
        Some {| episode_number := ep_num_str;
                display_number := display_num;
                title := clean_title;
                url := url;
                is_special := is_special;
                servers := [] |}
    end.

(** *** The season crawl *)

(** The third way of finding the episode anchors: the links that look like
    an episode. *)
Definition looks_like_episode `{PyEnv} (link : anchor) : bool :=
  let title := match a_title link with Some t => t | None => [] end in
  let text := a_text link in
  let href := match a_href link with Some h => h | None => [] end in
  a_epnum link
  || contains (u "الحلقة") title || contains (u "Episode") title
  || contains (u "الحلقة") text || contains (u "Episode") text
  || contains (u "episode") (lower href)
  || (contains (u "watch") href && bool_decide (u "button" ∈ a_class link)).

(** The cascade of selectors. *)
Definition episode_anchors_of `{PyEnv} (sp : soup) : list anchor :=
  match allepcont_row_a sp with
  | (_ :: _) as l => l
  | [] =>
      match allepcont_a sp with
      | (_ :: _) as l => l
      | [] =>
          match List.filter looks_like_episode (links sp) with
          | (_ :: _) as l => l
          | [] => episodes_seasons_a sp
          end
      end
  end.

(** The loop over the anchors of a page: the episodes of the links not seen
    before, and the links seen. *)
Fixpoint page_episodes_of `{PyEnv} (anchors : list anchor) (seen_urls : gset str)
  : list episode * gset str :=
  match anchors with
  | [] => ([], seen_urls)
  | anchor :: anchors' =>
      match truthy (a_href anchor) with
      | None => page_episodes_of anchors' seen_urls
      | Some href =>
          if bool_decide (href ∈ seen_urls) then page_episodes_of anchors' seen_urls
          else
            let '(eps, seen) := page_episodes_of anchors' ({[href]} ∪ seen_urls) in
            match _parse_episode_link anchor href with
            | Some episode_data => (episode_data :: eps, seen)
            | None => (eps, seen)
            end
      end
  end.

(** The state of the loop of [_parse_season]. *)
Record crawl_state : Type := CrawlState {
  page : N;
  fallback_mode : bool;
  all_episodes : list episode;
  seen_urls : gset str;
}.

Definition max_pages : N := 50.

(** What one round of the loop does. *)
Inductive round : Type :=
| Next (st : crawl_state)      (* go round again *)
| Break (st : crawl_state)     (* leave the loop *)
| Reraise.                     (* the first page failed: the exception leaves the loop *)

Definition current_url (base_url first_try_url : str) (st : crawl_state) : str :=
  if (page st =? 1)%N then
    if fallback_mode st then base_url else first_try_url
  else
    if fallback_mode st then base_url ++ u "/?page=" ++ str_of_N (page st)
    else first_try_url ++ u "/?page=" ++ str_of_N (page st).

(** [except Exception: if page == 1: raise; break] *)
Definition on_failure (st : crawl_state) : round :=
  if (page st =? 1)%N then Reraise else Break st.

Definition crawl_round `{PyEnv} `{Web} (self : scraper) (base_url first_try_url : str)
    (use_list_endpoint : bool) (st : crawl_state) (w : world) : world * round :=
  let '(w1, response) := send w (GET (session self) (current_url base_url first_try_url st)) in
  match response with
  | None => (w1, on_failure st)
  | Some response =>
      if (status_code response =? 404)%N && (page st =? 1)%N && use_list_endpoint
         && negb (fallback_mode st)
      then (w1, Next (CrawlState (page st) true (all_episodes st) (seen_urls st)))
      else
        match raise_for_status response with
        | Done _ =>
            let sp := text response in
            match episode_anchors_of sp with
            | [] => (w1, Break st)
            | episode_anchors =>
                let '(page_episodes, seen) := page_episodes_of episode_anchors (seen_urls st) in
                match page_episodes with
                | [] => (w1, Break (CrawlState (page st) (fallback_mode st) (all_episodes st) seen))
                | _ =>
                    let all := all_episodes st ++ page_episodes in
                    if page_numbers_next sp || page_link sp (page st + 1)%N
                    then (w1, Next (CrawlState (page st + 1)%N (fallback_mode st) all seen))
                    else (w1, Break (CrawlState (page st) (fallback_mode st) all seen))
                end
            end
        | _ => (w1, on_failure st)
        end
  end.

(** [while page <= max_pages]. A round either turns the fallback on, which
    happens once, or moves to the next page, so the loop makes at most
    [max_pages + 1] rounds before its test fails: [crawl_total] shows that
    the fuel [_parse_season] gives is never used up. *)
Fixpoint crawl `{PyEnv} `{Web} (fuel : nat) (self : scraper) (base_url first_try_url : str)
    (use_list_endpoint : bool) (st : crawl_state) (w : world)
  : world * run (list episode) :=
  match fuel with
  | O => (w, Hangs)
  | S fuel' =>
      if (page st <=? max_pages)%N then
        let '(w1, r) := crawl_round self base_url first_try_url use_list_endpoint st w in
        match r with
        | Next st' => crawl fuel' self base_url first_try_url use_list_endpoint st' w1
        | Break st' => (w1, Done (all_episodes st'))
        | Reraise => (w1, Raised)
        end
      else (w, Done (all_episodes st))
  end.

(** [all_episodes.sort(key=...)]: the key of an episode is [parse_episode_number]
    of its [episode_number]. *)
Definition episode_lt `{PyEnv} (a b : episode) : bool :=
  Float.ltb (parse_episode_number (episode_number a)) (parse_episode_number (episode_number b)).

Record season_data : Type := SeasonData {
  sd_season_number : N;
  sd_poster : option str;
  sd_episodes : list episode;
}.

(** [img.get("data-src") or img.get("src")] *)
Definition poster_of (sp : soup) : option str :=
  match poster_img sp with
  | Some (data_src, src) => or_else (truthy data_src) src
  | None => None
  end.

(** [_parse_season(season_url)]: [None] when anything raised. *)
Definition _parse_season `{PyEnv} `{Web} (self : scraper) (season_url : str) (w : world)
  : world * option season_data :=
  match extract_season_number season_url with
  | Done season_num =>
      let base_url := rstrip_cp 47 season_url in
      let use_list_endpoint := negb (endswith (u "/list") base_url) in
      let list_url_candidate :=
        if use_list_endpoint then base_url ++ u "/list" else base_url in
      let first_try_url := if use_list_endpoint then list_url_candidate else base_url in
      let '(w1, r) :=
        crawl 52 self base_url first_try_url use_list_endpoint
          (CrawlState 1 false [] ∅) w in
      match r with
      | Done all_episodes =>
          let all_episodes := Sort.sort episode_lt all_episodes in
          let '(w2, response) := send w1 (GET (session self) (base_url ++ u "/")) in
          match response with
          | Some response =>
              (w2, Some {| sd_season_number := season_num;
                           sd_poster := poster_of (text response);
                           sd_episodes := all_episodes |})
          | None => (w2, None)
          end
      | _ => (w1, None)
      end
  | _ => (w, None)
  end.

(** *** Search *)

Record hit : Type := Hit {
  h_title : str;
  h_url : str;
  h_type : str;
  h_metadata : metadata;
}.

(** The type of a search result, from its url and its title: anime before
    series before movie, and movie when nothing tells. *)
Definition show_type_of `{PyEnv} (decoded_url title : str) : str :=
  if contains (u "انمي") decoded_url || contains (u "/anime/") decoded_url
     || contains (u "انمي") title || contains (u "anime") (lower title)
  then u "anime"
  else if contains (u "مسلسل") decoded_url || contains (u "/series/") decoded_url
     || contains (u "مسلسل") title || contains (u "series") (lower title)
  then u "series"
  else u "movie".

(** [_parse_search_result(item)] *)
Definition _parse_search_result `{PyEnv} (it : item) : option hit :=
  match i_link it with
  | Some (Some ((_ :: _) as url), link_title) =>
      let title :=
        match i_title_elem it with
        | Some t => clean_text t
        | None => clean_text (match link_title with Some t => t | None => u "Unknown" end)
        end in
      let decoded_url := lower (unquote url) in
      let show_type := show_type_of decoded_url title in
      match i_metadata it with
      | Some metadata =>
          Some {| h_title := title; h_url := url; h_type := show_type; h_metadata := metadata |}
      | None => None
      end
  | _ => None
  end.

(** The loop of [search] over the boxes. *)
Fixpoint search_results `{PyEnv} (content_type : option str) (items : list item) : list hit :=
  match items with
  | [] => []
  | it :: items' =>
      match _parse_search_result it with
      | Some result =>
          match truthy content_type with
          | Some content_type =>
              if bool_decide (h_type result <> content_type)
              then search_results (Some content_type) items'
              else result :: search_results (Some content_type) items'
          | None => result :: search_results content_type items'
          end
      | None => search_results content_type items'
      end
  end.

(** [search(query, content_type)] *)
Definition search `{PyEnv} `{Web} (self : scraper) (query : str) (content_type : option str)
    (w : world) : world * list hit :=
  let data := [(u "search", query); (u "type", u "all")] in
  let '(w1, response) :=
    send w (POST (session self) (_get_endpoint self (u "search")) data
              (base_url self) (base_url self)) in
  match response with
  | Some response =>
      match raise_for_status response with
      | Done _ => (w1, search_results content_type (small_boxes (text response)))
      | _ => (w1, [])
      end
  | None => (w1, [])
  end.

Definition search_movies `{PyEnv} `{Web} (self : scraper) (query : str) (w : world) :=
  search self query (Some (u "movie")) w.
Definition search_series `{PyEnv} `{Web} (self : scraper) (query : str) (w : world) :=
  search self query (Some (u "series")) w.
Definition search_anime `{PyEnv} `{Web} (self : scraper) (query : str) (w : world) :=
  search self query (Some (u "anime")) w.

(** *** Show details *)

Record season : Type := Season {
  season_number : option N;
  season_part : option str;
  display_label : option str;
  s_url : option str;
  s_poster : option str;
  s_episodes : list episode;
}.

(** The dictionary a details call returns: the metadata, the type, and the
    [seasons] or [servers] entry when it was set. *)
Record details : Type := Details {
  d_metadata : metadata;
  d_type : str;
  d_seasons : option (list season);
  d_servers : option (list server);
}.

(** [_get_trailer_url(page_url, form_url)] *)
Definition _get_trailer_url `{PyEnv} `{Web} (self : scraper) (page_url form_url : str)
    (w : world) : world * option str :=
  let data := [(u "href", quote form_url (u ":/"))] in
  let '(w1, response) :=
    send w (POST (session self) (_get_endpoint self (u "trailer")) data
              (quote page_url (u ":/")) (u "https://topcinema.rip")) in
  match response with
  | Some response =>
      match raise_for_status response with
      | Done _ =>
          match iframe (text response) with
          | Some (Some ((_ :: _) as src)) =>
              let trailer_url := strip src in
              if startswith (u "http://") trailer_url || startswith (u "https://") trailer_url
              then (w1, Some trailer_url)
              else (w1, None)
          | _ => (w1, None)
          end
      | _ => (w1, None)
      end
  | None => (w1, None)
  end.

(** [_parse_metadata(soup, url)]: the fields of the page, then the trailer. *)
Definition _parse_metadata `{PyEnv} `{Web} (self : scraper) (sp : soup) (url : str)
    (w : world) : world * option metadata :=
  match page_metadata sp with
  | Some fields =>
      let metadata := (u "url", VStr url) :: fields in
      match trailer_button sp with
      | Some (Some ((_ :: _) as data_url)) =>
          let '(w1, trailer_url) := _get_trailer_url self url data_url w in
          match truthy trailer_url with
          | Some trailer_url => (w1, Some (metadata ++ [(u "trailer", VStr trailer_url)]))
          | None => (w1, Some metadata)
          end
      | _ => (w, Some metadata)
      end
  | None => (w, None)
  end.

(** [get_movie_details(url)]. When the page gives no id, the watch page is
    tried; what the source then does about the quality always raises a
    [KeyError] that it catches, and changes nothing. *)
Definition get_movie_details `{PyEnv} `{Web} (self : scraper) (url : str) (w : world)
  : world * option details :=
  let '(w1, response) := send w (GET (session self) url) in
  match response with
  | Some response =>
      match raise_for_status response with
      | Done _ =>
          let sp := text response in
          let '(w2, metadata) := _parse_metadata self sp url w1 in
          match metadata with
          | Some metadata =>
              let '(w3, movie_id) := _extract_content_id self url (Some sp) w2 in
              let watch_url := rstrip_cp 47 url ++ u "/watch/" in
              let '(w4, movie_id) :=
                match truthy movie_id with
                | Some movie_id => (w3, Some movie_id)
                | None =>
                    let '(w4, w_resp) := send w3 (GET (session self) watch_url) in
                    match w_resp with
                    | Some w_resp =>
                        if (status_code w_resp =? 200)%N
                        then _extract_content_id self watch_url (Some (text w_resp)) w4
                        else (w4, movie_id)
                    | None => (w4, movie_id)
                    end
                end in
              match truthy movie_id with
              | Some movie_id =>
                  let '(w5, servers) :=
                    get_servers self movie_id watch_url DEFAULT_MAX_SERVERS w4 in
                  (w5, Some (Details metadata (u "movie") None (Some servers)))
              | None => (w4, Some (Details metadata (u "movie") None None))
              end
          | None => (w2, None)
          end
      | _ => (w1, None)
      end
  | None => (w1, None)
  end.

(** The season links of a series page: those of the season boxes, each once. *)
Fixpoint box_links (boxes : list (option str)) (seen_urls : gset str) : list str :=
  match boxes with
  | [] => []
  | box :: boxes' =>
      match truthy box with
      | Some season_url =>
          if bool_decide (season_url ∈ seen_urls) then box_links boxes' seen_urls
          else season_url :: box_links boxes' ({[season_url]} ∪ seen_urls)
      | None => box_links boxes' seen_urls
      end
  end.

(** Without them, the links that name a season. *)
Definition names_a_season `{PyEnv} (link : anchor) : bool :=
  let href := match a_href link with Some h => h | None => [] end in
  let text := lower (a_text link) in
  let title := lower (match a_title link with Some t => t | None => [] end) in
  (contains (u "/ series/") href || contains (u "/anime/") href)
  && (contains (u "الموسم") href || contains (u "season") href
      || contains (u "season") text || contains (u "الموسم") title).

Fixpoint season_hrefs `{PyEnv} (ls : list anchor) (seen_urls : gset str) : list str :=
  match ls with
  | [] => []
  | link :: ls' =>
      let href := match a_href link with Some h => h | None => [] end in
      if names_a_season link && negb (bool_decide (href ∈ seen_urls))
      then href :: season_hrefs ls' ({[href]} ∪ seen_urls)
      else season_hrefs ls' seen_urls
  end.

Definition season_links_of `{PyEnv} (sp : soup) (url show_type : str) : list str :=
  match box_links (season_boxes sp) ∅ with
  | (_ :: _) as l => l
  | [] =>
      match season_hrefs (links sp) ∅ with
      | (_ :: _) as l => l
      | [] => if bool_decide (show_type <> u "movie") then [url] else []
      end
  end.

(** The dictionary of one season. *)
Definition season_of `{PyEnv} (season_url : str) : run season :=
  season_num ← extract_season_number season_url;
  let season_part := extract_season_part season_url in
  let display_label :=
    if (100 <=? season_num)%N then
      match season_part with
      | Some part => u "Final Season " ++ part
      | None => u "Final Season"
      end
    else
      match season_part with
      | Some part => u "Season " ++ str_of_N season_num ++ u " " ++ part
      | None => u "Season " ++ str_of_N season_num
      end in
  mret {| season_number := Some season_num;
          season_part := season_part;
          display_label := Some display_label;
          s_url := Some season_url;
          s_poster := None;
          s_episodes := [] |}.

Fixpoint seasons_of `{PyEnv} (season_links : list str) : run (list season) :=
  match season_links with
  | [] => mret []
  | season_url :: rest =>
      s ← season_of season_url;
      ss ← seasons_of rest;
      mret (s :: ss)
  end.

(** [seasons.sort(key=lambda s: s.get("season_number", 999))] *)
Definition season_key (s : season) : N :=
  match season_number s with
  | Some n => n
  | None => 999
  end.
Definition season_lt (a b : season) : bool := (season_key a <? season_key b)%N.

(** [get_series_details(url, show_type)] *)
Definition get_series_details `{PyEnv} `{Web} (self : scraper) (url show_type : str)
    (w : world) : world * option details :=
  let '(w1, response) := send w (GET (session self) url) in
  match response with
  | Some response =>
      match raise_for_status response with
      | Done _ =>
          let sp := text response in
          let '(w2, metadata) := _parse_metadata self sp url w1 in
          match metadata with
          | Some metadata =>
              match seasons_of (season_links_of sp url show_type) with
              | Done seasons =>
                  (w2, Some (Details metadata show_type
                               (Some (Sort.sort season_lt seasons)) None))
              | _ => (w2, None)
              end
          | None => (w2, None)
          end
      | _ => (w1, None)
      end
  | None => (w1, None)
  end.

(** [result and result.get("seasons")] *)
Definition has_seasons (result : option details) : bool :=
  match result with
  | Some d =>
      match d_seasons d with
      | Some (_ :: _) => true
      | _ => false
      end
  | None => false
  end.

(** [get_show_details(url)] *)
Definition get_show_details `{PyEnv} `{Web} (self : scraper) (url : str) (w : world)
  : world * option details :=
  let decoded_url := unquote url in
  if contains (u "فيلم") decoded_url || contains (u "/movie/") decoded_url then
    get_movie_details self url w
  else if contains (u "انمي") decoded_url || contains (u "/anime/") decoded_url then
    get_series_details self url (u "anime") w
  else if contains (u "مسلسل") decoded_url || contains (u "/series/") decoded_url then
    get_series_details self url (u "series") w
  else
    let '(w1, result) := get_series_details self url (u "series") w in
    if has_seasons result then (w1, result)
    else get_movie_details self url w1.

(** *** The lazy fetches

    A season or an episode is a dictionary that the caller holds and the
    fetch changes in place: a store maps each reference to the object it
    points to. *)

Definition BASE_URL : str := u "https://topcinema.rip".

(** [_discover_domain()] *)
Definition _discover_domain `{Web} (session : nat) (w : world) : world * str :=
  let '(w1, response) := send w (GET session BASE_URL) in
  match response with
  | Some response => (w1, rstrip_cp 47 (final_url response))
  | None => (w1, rstrip_cp 47 BASE_URL)
  end.

(** [TopCinemaScraper(base_url)]: a new session, and the base url given, or
    the one discovered. *)
Definition new_scraper `{Web} (base_url : option str) (w : world) : world * scraper :=
  let session := sessions w in
  let w := World (log w) (S (sessions w)) in
  match truthy base_url with
  | Some base_url => (w, TopCinemaScraper session (rstrip_cp 47 base_url))
  | None =>
      let '(w1, discovered) := _discover_domain session w in
      match discovered with
      | [] => (w1, TopCinemaScraper session (rstrip_cp 47 BASE_URL))
      | _ => (w1, TopCinemaScraper session discovered)
      end
  end.

(** [_encode_url(url)] *)
Definition _encode_url `{PyEnv} (url : str) : run str :=
  match url with
  | [] => Done url
  | _ =>
      match urlsplit url with
      | Some (scheme, netloc, path, query, fragment) =>
          let path := quote path (u "/") in
          let query := quote query (u "=&?") in
          Done (urlunsplit (scheme, netloc, path, query, fragment))
      | None => Raised
      end
  end.

(** [_normalize_watch_url(url)] *)
Definition _normalize_watch_url (url : str) : str :=
  match url with
  | [] => url
  | _ =>
      if endswith (u "/watch/") url then url
      else if endswith (u "/") url then url ++ u "watch/"
      else url ++ u "/watch/"
  end.

(** [fetch_season_episodes(season)]: [season_ref] is the reference the caller
    holds, [h] the store of the seasons. *)
Definition fetch_season_episodes `{PyEnv} `{Web} (self : scraper) (season_ref : nat)
    (h : gmap nat season) (w : world) : gmap nat season * world * list episode :=
  match h !! season_ref with
  | None => (h, w, [])
  | Some s =>
      match s_episodes s with
      | (_ :: _) as episodes => (h, w, episodes)
      | [] =>
          match truthy (s_url s) with
          | None => (h, w, [])
          | Some season_url =>
              let '(w1, season_data) := _parse_season self season_url w in
              match season_data with
              | Some season_data =>
                  match sd_episodes season_data with
                  | (_ :: _) as episodes =>
                      let s' := {| season_number := season_number s;
                                   season_part := season_part s;
                                   display_label := display_label s;
                                   s_url := s_url s;
                                   s_poster := sd_poster season_data;
                                   s_episodes := episodes |} in
                      (<[season_ref := s']> h, w1, episodes)
                  | [] => (h, w1, [])
                  end
              | None => (h, w1, [])
              end
          end
      end
  end.

Definition set_servers (e : episode) (servers : list server) : episode :=
  {| episode_number := episode_number e;
     display_number := display_number e;
     title := title e;
     url := url e;
     is_special := is_special e;
     servers := servers |}.

(** [fetch_episode_servers(episode)]: [Raised] when [urlsplit] refuses the
    url of the episode. *)
Definition fetch_episode_servers `{PyEnv} `{Web} (self : scraper) (episode_ref : nat)
    (h : gmap nat episode) (w : world) : gmap nat episode * world * run (list server) :=
  match h !! episode_ref with
  | None => (h, w, Done [])
  | Some e =>
      match servers e with
      | (_ :: _) as servers => (h, w, Done servers)
      | [] =>
          match url e with
          | [] => (h, w, Done [])
          | episode_url =>
              match _encode_url episode_url with
              | Done encoded_url =>
                  let watch_url := _normalize_watch_url encoded_url in
                  let '(w1, episode_id) := _extract_content_id self watch_url None w in
                  let '(w2, episode_id) :=
                    match truthy episode_id with
                    | Some episode_id => (w1, Some episode_id)
                    | None => _extract_content_id self encoded_url None w1
                    end in
                  match truthy episode_id with
                  | None => (h, w2, Done [])
                  | Some episode_id =>
                      let '(w3, servers) :=
                        get_servers self episode_id watch_url DEFAULT_MAX_SERVERS w2 in
                      let '(w4, servers) :=
                        match servers with
                        | _ :: _ => (w3, servers)
                        | [] =>
                            let '(w4, fresh_scraper) := new_scraper (Some (base_url self)) w3 in
                            get_servers fresh_scraper episode_id watch_url DEFAULT_MAX_SERVERS w4
                        end in
                      (<[episode_ref := set_servers e servers]> h, w4, Done servers)
                  end
              | _ => (h, w, Raised)
              end
          end
      end
  end.

End Scraper.

Import Scraper Processor.

(** ** What a pattern matches

    [denote r p w t]: the pattern [r] matches the text [w] when the
    character before it is [p] (if there is one) and the text after it is
    [t]. *)

Module ReSpec.

Import Re.

(** The character before the position reached after reading [w]. *)
Definition last_prev (p : option N) (w : str) : option N :=
  match rev w with
  | c :: _ => Some c
  | [] => p
  end.

Inductive denote `{PyEnv} : re -> option N -> str -> str -> Prop :=
| d_eps p t : denote Eps p [] t
| d_chr f c p t : f c = true -> denote (Chr f) p [c] t
| d_seq a b p w1 w2 t :
    denote a p w1 (w2 ++ t) -> denote b (last_prev p w1) w2 t ->
    denote (Seq a b) p (w1 ++ w2) t
| d_alt_l a b p w t : denote a p w t -> denote (Alt a b) p w t
| d_alt_r a b p w t : denote b p w t -> denote (Alt a b) p w t
| d_opt_some a p w t : denote a p w t -> denote (Opt a) p w t
| d_opt_none a p t : denote (Opt a) p [] t
| d_star_nil a p t : denote (Star a) p [] t
| d_star_cons a p w1 w2 t :
    w1 <> [] ->
    denote a p w1 (w2 ++ t) -> denote (Star a) (last_prev p w1) w2 t ->
    denote (Star a) p (w1 ++ w2) t
| d_plus a p w1 w2 t :
    denote a p w1 (w2 ++ t) -> denote (Star a) (last_prev p w1) w2 t ->
    denote (Plus a) p (w1 ++ w2) t
| d_grp n a p w t : denote a p w t -> denote (Grp n a) p w t
| d_bol t : denote Bol None [] t
| d_eol p t : t = [] \/ t = [10%N] -> denote Eol p [] t
| d_wordb p t : at_boundary (MState p t []) = true -> denote WordB p [] t.

(** A string of decimal digits. *)
Definition number `{PyEnv} (ds : str) : Prop :=
  ds <> [] /\ Forall (fun c => is_decimal c = true) ds.

(** [s] holds a match of [r]: a text [w] that [r] matches where it stands. *)
Definition occurs `{PyEnv} (r : re) (s : str) : Prop :=
  exists pre w t, s = pre ++ w ++ t /\ denote r (last_prev None pre) w t.

(** Patterns without a group leave the captures as they are. *)
Fixpoint nogroups (r : re) : bool :=
  match r with
  | Grp _ _ => false
  | Seq a b | Alt a b => nogroups a && nogroups b
  | Opt a | Star a | Plus a => nogroups a
  | _ => true
  end.

(** A pattern that ends in the group [n] around [d], with no other group. *)
Inductive ends_in_group (n : nat) (d : re) : re -> Prop :=
| eg_grp : ends_in_group n d (Grp n d)
| eg_seq a r : nogroups a = true -> ends_in_group n d r -> ends_in_group n d (Seq a r).

(** What a result of the matcher is to the state it started from. *)
Definition reaches `{PyEnv} (r : re) (st st' : mstate) : Prop :=
  exists w, rest st = w ++ rest st'
            /\ prev st' = last_prev (prev st) w
            /\ denote r (prev st) w (rest st').

End ReSpec.

(** ** Sorted lists and regular keys *)

Module SortSpec.

(** [x] is not after [y]: the key of [y] is not below the key of [x]. *)
Definition not_after {A : Type} (lt : A -> A -> bool) (x y : A) : Prop := lt y x = false.

(** A float that is zero, positive or plus infinity: not a NaN, and not
    negative. *)
Definition regular (x : Float.float) : Prop :=
  match x with
  | S754_zero _ => True
  | S754_finite false _ _ => True
  | S754_infinity false => True
  | _ => False
  end.

End SortSpec.

(** ** Statements about the server poller *)

(** The slots from [i] on fail, one after the other, up to [k]. *)
Inductive fails_until `{PyEnv} `{Web} (self : scraper) (content_id referer : str)
  : nat -> nat -> world -> world -> Prop :=
| fails_none i w : fails_until self content_id referer i i w w
| fails_next i k w w1 w2 :
    poll_slot self content_id referer i w = (w1, None) ->
    fails_until self content_id referer (S i) k w1 w2 ->
    fails_until self content_id referer i k w w2.

(** The slot a request polls, if it polls one. *)
Definition slot_of (r : request) : option str :=
  match r with
  | POST _ _ data _ _ =>
      match data with
      | [_; (_, i)] => Some i
      | _ => None
      end
  | _ => None
  end.

(** The slots polled between two states, in the order of the requests. *)
Definition polled (w w' : world) : list str :=
  omap slot_of (skipn (length (log w)) (log w')).

Definition slots (i n : nat) : list str :=
  map (fun j => str_of_N (N.of_nat j)) (seq i n).

Definition is_extract (r : request) : Prop :=
  match r with EXTRACT _ _ _ => True | _ => False end.

(** A site on which slot 0 embeds a player that gives no stream and slot 1
    one that does. *)
Module PollerExample.

Definition embed (v : str) : soup :=
  Soup [] (Some (Some v)) [] [] [] [] false (fun _ => false) None
       [] [] [] [] [] [] None None [] (Some []) None.

Definition web : Web := {|
  http := fun _ r =>
    match r with
    | POST _ _ [_; (_, i)] _ _ =>
        if bool_decide (i = u "0")
        then Some (Response 200 [] (embed (u "https://vidtube.pro/e/first")))
        else Some (Response 200 [] (embed (u " https://vidtube.pro/e/second ")))
    | _ => None
    end;
  vidtube := fun _ r =>
    match r with
    | EXTRACT _ url _ =>
        if bool_decide (url = u "https://vidtube.pro/e/second")
        then Some (u "https://cdn.example/v.mp4")
        else None
    | _ => None
    end;
|}.

Definition me : scraper := TopCinemaScraper 0 (u "https://topcinema.rip").
Definition start : world := World [] 1.
Definition watch_url : str := u "https://topcinema.rip/ep-1/watch/".

Definition result : world * list server :=
  Eval vm_compute in
    @get_servers ascii_env web me (u "77") watch_url DEFAULT_MAX_SERVERS start.

End PollerExample.

(** ** Statements about search *)

(** A site whose search answers with two boxes: a film and a series. *)
Module SearchExample.

Definition film : item :=
  Item (Some (Some (u "https://topcinema.rip/dune-2021/"), None)) (Some (u "Dune")) (Some []).
Definition show : item :=
  Item (Some (Some (u "https://topcinema.rip/series/dune-prophecy/"), None))
       (Some (u "Dune Prophecy")) (Some []).

Definition page : soup :=
  Soup [film; show] None [] [] [] [] false (fun _ => false) None
       [] [] [] [] [] [] None None [] (Some []) None.

Definition web : Web := {|
  http := fun _ r =>
    match r with
    | POST _ _ _ _ _ => Some (Response 200 [] page)
    | _ => None
    end;
  vidtube := fun _ _ => None;
|}.

Definition me : scraper := TopCinemaScraper 0 (u "https://topcinema.rip").
Definition start : world := World [] 1.

End SearchExample.

(** ** Statements about the dispatch of [get_show_details] *)

(** The decoded url holds one of the words that name a type of content. *)
Definition names_a_type (decoded_url : str) : bool :=
  contains (u "فيلم") decoded_url || contains (u "/movie/") decoded_url
  || contains (u "انمي") decoded_url || contains (u "/anime/") decoded_url
  || contains (u "مسلسل") decoded_url || contains (u "/series/") decoded_url.

(** The dispatch as the specification words it, for a url that names no
    type: the movie path first, and the series path as the fallback when
    the movie path yields no season data. *)
Definition movie_path_first `{PyEnv} `{Web} (self : scraper) (url : str) (w : world)
  : world * option details :=
  let '(w1, result) := get_movie_details self url w in
  if has_seasons result then (w1, result)
  else get_series_details self url (u "series") w1.

(** A site whose page for a show has one season box and no player. *)
Module ShowExample.

Definition show_url : str := u "https://topcinema.rip/dune-prophecy/".
Definition season_url : str := u "https://topcinema.rip/dune-prophecy-season-1/".

Definition page : soup :=
  Soup [] None [] [] [] [] false (fun _ => false) None
       [] [] [] [] [] [] None None [Some season_url]
       (Some [(u "title", VStr (u "Dune Prophecy"))]) None.

Definition web : Web := {|
  http := fun _ r =>
    match r with
    | GET _ url => if bool_decide (url = show_url) then Some (Response 200 url page) else None
    | _ => None
    end;
  vidtube := fun _ _ => None;
|}.

Definition me : scraper := TopCinemaScraper 0 (u "https://topcinema.rip").
Definition start : world := World [] 1.

Definition the_season : season :=
  Season (Some 1%N) None (Some (u "Season 1")) (Some season_url) None [].

Definition series_details : details :=
  Details [(u "url", VStr show_url); (u "title", VStr (u "Dune Prophecy"))]
          (u "series") (Some [the_season]) None.

End ShowExample.

(** ** Statements about the season part *)

Module PartSpec.

Import Re ReSpec.

(** [kw] is [word] up to the case of its letters. *)
Definition same_word (word kw : str) : Prop :=
  Forall2 (fun pc c => ci_eq pc c = true) word kw.

(** An explicit part marker with a number: the word "part", or its Arabic
    counterpart with or without the article, then at most one hyphen or
    space, then the number. *)
Definition numbered_part_marker `{PyEnv} (t : str) : Prop :=
  exists pre kw sep ds post,
    t = pre ++ kw ++ sep ++ ds ++ post
    /\ (exists word, In word part_words /\ same_word word kw)
    /\ (sep = [] \/ sep = u "-" \/ sep = u " ")
    /\ number ds.

(** The Arabic marker with the ordinal written out: "the second part",
    "the first part". *)
Definition ordinal_part_marker (t : str) : bool :=
  contains (u "الجزء الثاني") t || contains (u "الجزء الاول") t.

(** The synonyms "cour 1" and "cour 2". *)
Definition cour_synonym (t : str) : bool :=
  contains (u "cour 2") t || contains (u "cour 1") t.

(** The markers the specification lists: an explicit part marker in either
    script, or a cour synonym. *)
Definition listed_marker `{PyEnv} (t : str) : Prop :=
  numbered_part_marker t \/ ordinal_part_marker t = true \/ cour_synonym t = true.

(** What the code accepts as well: the letter p right before a number. *)
Definition short_part_marker `{PyEnv} (t : str) : Prop :=
  exists pre p ds post,
    t = pre ++ p :: ds ++ post /\ ci_eq 112 p = true /\ number ds.

(** The two alternatives of the pattern of [extract_season_part]. *)
Definition numbered_re `{PyEnv} : re :=
  Seq (alts (map lit_ci part_words)) (Seq (Opt (one_of (u "- "))) (Grp 1 (Plus digit))).
Definition short_re `{PyEnv} : re := Seq (Chr (ci_eq 112)) (Grp 2 (Plus digit)).

End PartSpec.

(** ** Statements about the season crawl *)

Module CrawlSpec.

(** The sort key of an episode. *)
Definition key `{PyEnv} (e : episode) : Float.float :=
  parse_episode_number (episode_number e).

(** No episode is after a later one: the keys never go down. *)
Definition ascending `{PyEnv} (eps : list episode) : Prop :=
  StronglySorted (SortSpec.not_after episode_lt) eps.

(** A plain numbered entry: not a special, and numbered with a decimal
    number other than the "0" that stands for no number. *)
Definition numbered `{PyEnv} (e : episode) : bool :=
  negb (is_special e)
  && negb (bool_decide (episode_number e = u "0"))
  && match Float.of_decimal (episode_number e) with Some _ => true | None => false end.

(** The order the specification states: the numbered entries strictly
    ascending, and every special or non-numeric entry after all of them. *)
Definition stated_before `{PyEnv} (a b : episode) : Prop :=
  if numbered a then
    if numbered b then Float.ltb (key a) (key b) = true else True
  else numbered b = false.

Definition stated_order `{PyEnv} (eps : list episode) : Prop :=
  StronglySorted stated_before eps.

(** A round of the crawl can still be followed by this many rounds. *)
Definition rounds_left (st : crawl_state) : nat :=
  N.to_nat (51 - page st) + (if fallback_mode st then 0 else 1).

(** The state in which [_parse_season] enters its loop. *)
Definition crawl_start : crawl_state := CrawlState 1 false [] ∅.

End CrawlSpec.

(** A site whose season has a first episode and a special, listed in that
    order on one page. *)
Module CrawlExample.

Definition season_url : str := u "https://topcinema.rip/series/show-season-1/".

Definition first : anchor :=
  Anchor (Some (u "https://topcinema.rip/show-season-1-episode-1/")) None
         (u "Episode 1") false [].
Definition extra : anchor :=
  Anchor (Some (u "https://topcinema.rip/show-season-1-special/")) None
         (u "Special") false [].

Definition listing : soup :=
  Soup [] None [first; extra] [] [] [] false (fun _ => false) None
       [] [] [] [] [] [] None None [] (Some []) None.

Definition web : Web := {|
  http := fun _ r =>
    match r with
    | GET _ url =>
        if bool_decide (url = u "https://topcinema.rip/series/show-season-1/list")
        then Some (Response 200 url listing)
        else Some (Response 200 url empty_soup)
    | _ => None
    end;
  vidtube := fun _ _ => None;
|}.

Definition me : scraper := TopCinemaScraper 0 (u "https://topcinema.rip").
Definition start : world := World [] 1.

Definition the_special : episode :=
  Episode (u "Special") (u "[Special]") []
          (u "https://topcinema.rip/show-season-1-special/") true [].
Definition the_first : episode :=
  Episode (u "1") (u "1") (u "Episode")
          (u "https://topcinema.rip/show-season-1-episode-1/") false [].

(** Three entries as a page may give them: an OVA, which has no number,
    and the episodes 100000 and 1. *)
Definition an_ova : episode :=
  Episode (u "OVA") (u "OVA") [] (u "https://topcinema.rip/show-ova/") false [].
Definition a_late : episode :=
  Episode (u "100000") (u "100000") [] (u "https://topcinema.rip/show-episode-100000/") false [].

Definition result : world * option season_data :=
  (World [GET 0 (u "https://topcinema.rip/series/show-season-1/list");
          GET 0 (u "https://topcinema.rip/series/show-season-1/")] 1,
   Some (SeasonData 1 None [the_special; the_first])).

End CrawlExample.

(** ** Statements about failures of the crawl *)

Module FailureSpec.

(** The addresses [_parse_season] derives from the address of a season. *)
Definition base_of (season_url : str) : str := rstrip_cp 47 season_url.
Definition use_list_of (season_url : str) : bool :=
  negb (endswith (u "/list") (base_of season_url)).
Definition first_try_of (season_url : str) : str :=
  if use_list_of season_url then base_of season_url ++ u "/list" else base_of season_url.

(** The request for the page the crawl is at. *)
Definition page_request (self : scraper) (season_url : str) (st : crawl_state) : request :=
  GET (session self) (current_url (base_of season_url) (first_try_of season_url) st).

(** The fetch of the page fails: the request raises, or it is answered with
    an error status (other than the 404 of a first page that turns the
    fallback on). *)
Definition page_fetch_fails `{Web} (self : scraper) (season_url : str) (st : crawl_state)
    (w : world) : Prop :=
  match http (log w) (page_request self season_url st) with
  | None => True
  | Some response =>
      ((status_code response =? 404)%N && (page st =? 1)%N && use_list_of season_url
         && negb (fallback_mode st)) = false
      /\ raise_for_status response = Raised
  end.

(** The state after a request. *)
Definition after (w : world) (r : request) : world := World (log w ++ [r]) (sessions w).

(** The state of the loop once a 404 for the first page has turned the
    fallback on: still at page 1, with nothing collected. *)
Definition fallback_start : crawl_state := CrawlState 1 true [] ∅.

(** The first request goes to the list address and is answered 404: the
    loop turns the fallback on and asks for the first page again, at the
    base address. *)
Definition list_not_found `{Web} (self : scraper) (season_url : str) (w : world) : Prop :=
  use_list_of season_url = true
  /\ exists response,
       http (log w) (page_request self season_url CrawlSpec.crawl_start) = Some response
       /\ status_code response = 404%N.

(** The fetch of the first page fails: at the first address, or, when the
    list address was answered 404, at the base address asked next. *)
Definition first_page_fails `{Web} (self : scraper) (season_url : str) (w : world) : Prop :=
  page_fetch_fails self season_url CrawlSpec.crawl_start w
  \/ (list_not_found self season_url w
      /\ page_fetch_fails self season_url fallback_start
           (after w (page_request self season_url CrawlSpec.crawl_start))).

(** The request for the poster, made once the loop is over. *)
Definition poster_request (self : scraper) (season_url : str) : request :=
  GET (session self) (base_of season_url ++ u "/").

End FailureSpec.

(** A site that does not answer, and a site whose season has no episode. *)
Module FailureExample.

Definition season_url : str := u "https://topcinema.rip/series/show-season-1/".

Definition down : Web := {|
  http := fun _ _ => None;
  vidtube := fun _ _ => None;
|}.

(** A site on which nothing is found: every request is answered 404. *)
Definition gone : Web := {|
  http := fun _ r =>
    match r with
    | GET _ url => Some (Response 404 url empty_soup)
    | _ => None
    end;
  vidtube := fun _ _ => None;
|}.

Definition bare : Web := {|
  http := fun _ r =>
    match r with
    | GET _ url => Some (Response 200 url empty_soup)
    | _ => None
    end;
  vidtube := fun _ _ => None;
|}.

Definition me : scraper := TopCinemaScraper 0 (u "https://topcinema.rip").
Definition start : world := World [] 1.

Definition the_season : season :=
  Season (Some 1%N) None (Some (u "Season 1")) (Some season_url) None [].

Definition store : gmap nat season := {[ 0%nat := the_season ]}.

End FailureExample.

(** ** Statements about the lazy fetches *)

Module FetchSpec.

(** The season as a crawl that found episodes leaves it: the episodes and
    the poster of the crawl, and the rest as it was. *)
Definition with_episodes (s : season) (sd : season_data) : season :=
  Season (season_number s) (season_part s) (display_label s) (s_url s)
         (sd_poster sd) (sd_episodes sd).

(** [self._extract_content_id(watch_url) or self._extract_content_id(encoded_url)]:
    the id read at the watch address and, when that gives none, at the
    address of the episode itself. *)
Definition episode_id_of `{PyEnv} `{Web} (self : scraper) (encoded_url : str) (w : world)
  : world * option str :=
  let '(w1, id) := _extract_content_id self (_normalize_watch_url encoded_url) None w in
  match truthy id with
  | Some id => (w1, Some id)
  | None =>
      let '(w2, id) := _extract_content_id self encoded_url None w1 in
      (w2, truthy id)
  end.

End FetchSpec.

(** ** Statements about the content id *)

Module ContentIdSpec.

(** A sequence of digits, as [str.isdigit] or [\d] read them. *)
Definition digit_sequence `{PyEnv} (v : str) : Prop :=
  v <> [] /\ Forall (fun c => isdigit_cp c = true \/ is_decimal c = true) v.

End ContentIdSpec.

(** A page that shows its id in a class and in an inline script, and a page
    whose server list carries an id that is not a number. *)
Module ContentIdExample.

Definition both : soup :=
  Soup [] None [] [] [] [] false (fun _ => false) None
       [] [] [] []
       [Element None [u "post"; u "post-1234"; u "type-post"]]
       [Some (u "var post_id = 1234;")]
       None None [] (Some []) None.

Definition lettered : soup :=
  Soup [] None [] [] [] [] false (fun _ => false) None
       [] [Element (Some (u "tt0944947")) [u "server--item"]] [] []
       [Element None [u "post-1234"]]
       [Some (u "var post_id = 1234;")]
       None None [] (Some []) None.

End ContentIdExample.

(** ** Statements about the season number *)

Module SeasonSpec.

(** The text in which [extract_season_number] looks for its markers. *)
Definition normalized `{PyEnv} (text : str) : str :=
  normalize_separators (lower (unquote text)).

(** No ordinal of the table stands in the text. *)
Definition no_ordinal (t : str) : Prop :=
  Forall (fun entry => contains (fst entry) t = false) arabic_ordinals.

End SeasonSpec.

(** ** Statements about the packer reversal *)

Module UnpackSpec.

(** The token of the index [i] does not stand in [q] as a whole word (or
    the index has no keyword, and so no token to replace). *)
Definition token_free `{PyEnv} (a : N) (k : list str) (q : str) (i : nat) : bool :=
  match nth_error k i with
  | Some (_ :: _) =>
      match to_base (N.of_nat i) a with
      | Done token =>
          match Re.search (token_re token) q with
          | None => true
          | Some _ => false
          end
      | _ => true
      end
  | _ => true
  end.

(** No token that has a keyword is left in [q]. *)
Definition settled `{PyEnv} (a c : N) (k : list str) (q : str) : bool :=
  forallb (token_free a k q) (seq 0 (N.to_nat c)).

End UnpackSpec.

(** A packed player script, with its keywords. *)
Module UnpackExample.

Definition payload : str := u "2 1.0('3://4.5/6.7')".
Definition keywords : list str :=
  [u "player"; u "jw"; u "setup"; u "http"; u "cdn"; u "com"; u "v"; u "mp4"].
Definition unpacked : str := u "setup jw.player('http://cdn.com/v.mp4')".

End UnpackExample.

(** ** Runs of characters and tidy texts *)

Module TextSpec.

(** What is left of a text after the characters of a class it starts with. *)
Fixpoint skip_run (f : N -> bool) (s : str) : str :=
  match s with
  | c :: t => if f c then skip_run f t else s
  | [] => []
  end.

(** A text in which every run of characters of a class is replaced by
    [repl]; [inrun] says that the character before was of the class. *)
Fixpoint squeeze (f : N -> bool) (repl : str) (inrun : bool) (s : str) : str :=
  match s with
  | [] => []
  | c :: t =>
      if f c then (if inrun then [] else repl) ++ squeeze f repl true t
      else c :: squeeze f repl false t
  end.

(** A word: not empty, without white space. *)
Definition word `{PyEnv} (w : str) : Prop :=
  w <> [] /\ Forall (fun c => is_space c = false) w.

(** The white space of a text is single spaces; [after_space] says that the
    character before was one. *)
Fixpoint spaced `{PyEnv} (after_space : bool) (s : str) : bool :=
  match s with
  | [] => true
  | c :: t =>
      if is_space c then (c =? 32)%N && negb after_space && spaced true t
      else spaced false t
  end.

(** A tidy text: no white space at either end, and single spaces between
    its words. *)
Definition tidy `{PyEnv} (s : str) : Prop :=
  strip s = s /\ spaced false s = true.

(** The Arabic block, U+0600 to U+06FF. *)
Definition arabic (c : N) : bool := between 1536 1791 c.

End TextSpec.

(** ** api.py: the title shown to the user *)

Module Api.

Import Re.

(** A literal of a pattern compiled with [re.IGNORECASE]: the pattern is
    matched in lower case. *)
Definition lit_i (s : str) : re := lit_ci (map ascii_lower_cp s).

Definition word_of (rs : list re) : re := Seq WordB (Seq (alts rs) WordB).

(** The number [\d+\.?\d*]. *)
Definition rating_re `{PyEnv} : re :=
  Seq (Plus digit) (Seq (Opt (chr 46)) (Star digit)).

(** [junk_patterns], in the order of the source. *)
Definition junk_patterns `{PyEnv} : list re := [
    (* \b(?:1080p|720p|480p|360p)\b *)
    word_of (map lit_i [u "1080p"; u "720p"; u "480p"; u "360p"]);
    (* \b(?:WEB-DL|BluRay|HDTV|CAM)\b *)
    word_of (map lit_i [u "WEB-DL"; u "BluRay"; u "HDTV"; u "CAM"]);
    (* \b(?:x264|x265|HEVC)\b *)
    word_of (map lit_i [u "x264"; u "x265"; u "HEVC"]);
    (* \b(?:\d{1,2}\.\d)\b *)
    Seq WordB (Seq (Seq (Seq digit (Opt digit)) (Seq (chr 46) digit)) WordB);
    (* [★⭐]\s*\d+\.?\d* *)
    Seq (one_of (u "★⭐")) (Seq (Star space) rating_re);
    (* \[\s*\d+\.?\d*\s*\] *)
    Seq (chr 91) (Seq (Star space) (Seq rating_re (Seq (Star space) (chr 93))));
    (* \b(?:Season|الموسم)\s*\d+ *)
    Seq WordB (Seq (alts (map lit_i [u "Season"; u "الموسم"])) (Seq (Star space) (Plus digit)));
    (* \b(?:Episode|الحلقة)\s*\d+ *)
    Seq WordB (Seq (alts (map lit_i [u "Episode"; u "الحلقة"])) (Seq (Star space) (Plus digit)))
  ].

(** [clean_show_title(title)] *)
Definition clean_show_title `{PyEnv} (title : str) : str :=
  let cleaned := clean_arabic_title title in
  if bool_decide (lower cleaned = u "topcinema") then []
  else
    let cleaned :=
      fold_left (fun cleaned pattern => sub pattern [] cleaned) junk_patterns cleaned in
    strip (sub (Plus space) (u " ") cleaned).

End Api.

(** ** Reading a token back

    [int(s, b)] on the alphabet of [to_base]: the number a string of digits
    writes in the radix [b]. *)

Module BaseSpec.

Import Processor.

(** The place of a character in the alphabet. *)
Fixpoint index_of (c : N) (alphabet : str) : option N :=
  match alphabet with
  | [] => None
  | d :: alphabet' =>
      if (c =? d)%N then Some 0%N
      else match index_of c alphabet' with
           | Some i => Some (i + 1)%N
           | None => None
           end
  end.

Fixpoint of_base_go (b acc : N) (s : str) : option N :=
  match s with
  | [] => Some acc
  | c :: s' =>
      match index_of c digits with
      | Some d => if (d <? b)%N then of_base_go b (acc * b + d)%N s' else None
      | None => None
      end
  end.

Definition of_base (b : N) (s : str) : option N :=
  match s with
  | [] => None
  | _ => of_base_go b 0%N s
  end.

(** A keyword that the loop of [_unpack] substitutes: there and not empty. *)
Definition active (k : list str) (i : nat) : bool :=
  match nth_error k i with
  | Some (_ :: _) => true
  | _ => false
  end.

End BaseSpec.

(** ** processor.py: the download page of vidtube.pro *)

Module VidTube.

Import Re.

(** What the processor takes from [urllib.parse]. [urljoin] raises
    [ValueError] for some pairs of addresses (a link such as [//[x/_x], whose
    host opens a bracket it does not close): [None] stands for that. *)
Class UrlLib : Type := {
  urlparse_path : str -> str;             (* [urlparse(url).path] *)
  urljoin : str -> str -> option str;     (* [urljoin(base, url)] *)
}.

(** A page of the host, by what the code reads of it. *)
Record page : Type := Page {
  hrefs : list str;                  (* [link['href']] of [find_all('a', href=True)] *)
  submit_btn : option (option str);  (* [select_one('a.btn.btn-gradient.submit-btn')], its href *)
  html : str;                        (* the text of the page *)
}.

(** A request of the processor: the address and the headers it sends. *)
Record vrequest : Type := VGet {
  v_url : str;
  v_headers : list (str * str);
}.

(** The host: what a request is answered with, a status and a page, after a
    given history of requests; [None] when the call raises. *)
Class Host : Type := {
  get : list vrequest -> vrequest -> option (N * page);
}.

Definition priorities : list (str * str) :=
  [(u "_x", u "1080p"); (u "_h", u "720p"); (u "_n", u "480p"); (u "_l", u "240p")].

(** [for link in links: if href.endswith(suffix): ...; break] *)
Fixpoint first_ending (suffix : str) (links : list str) : option str :=
  match links with
  | [] => None
  | href :: links' =>
      if endswith suffix href then Some href else first_ending suffix links'
  end.

(** [for suffix, label in priorities: ...; if next_path: break]. A link that
    ends in a suffix is not empty, so finding one ends the loop. *)
Fixpoint by_priority (ps : list (str * str)) (links : list str) : option str * str :=
  match ps with
  | [] => (None, [])
  | (suffix, label) :: ps' =>
      match first_ending suffix links with
      | Some href => (Some href, label)
      | None => by_priority ps' links
      end
  end.

(** The fallback: the first link to a download page other than this one. *)
Fixpoint first_download (path_only : str) (links : list str) : option str :=
  match links with
  | [] => None
  | href :: links' =>
      if contains (u "/d/") href && negb (bool_decide (href = path_only))
      then Some href
      else first_download path_only links'
  end.

(** The link [_handle_vidtube_pro] follows, and the quality it stands for. *)
Definition choose_link `{UrlLib} (target_url : str) (links : list str) : option str * str :=
  match by_priority priorities links with
  | (Some next_path, quality) => (Some next_path, quality)
  | (None, _) =>
      let path_only := urlparse_path target_url in
      match first_download path_only links with
      | Some href => (Some href, u "unknown")
      | None => (None, [])
      end
  end.

Definition not_quote : re := Chr (fun c => negb (existsb (N.eqb c) Scraper.quotes)).

(** The pattern of a quoted mp4 address: a quote of either kind, the group
    [https?://Q+\.mp4Q*] where [Q] is any character but the two quotes, and a
    quote of either kind. *)
Definition mp4_body : re :=
  Seq (lit (u "http")) (Seq (Opt (chr 115)) (Seq (lit (u "://"))
    (Seq (Plus not_quote) (Seq (lit (u ".mp4")) (Star not_quote))))).
Definition mp4_re : re :=
  Seq (one_of Scraper.quotes) (Seq (Grp 1 mp4_body) (one_of Scraper.quotes)).

(** [_handle_vidtube_pro(target_url, html, headers)]: [pg] is the page
    [html] parses to, [log] the requests made so far. The call of [urljoin]
    is not inside the [try]: when it raises, the exception leaves the
    function before any request is made. *)
Definition _handle_vidtube_pro `{PyEnv} `{UrlLib} `{Host} (target_url : str) (pg : page)
    (headers : list (str * str)) (log : list vrequest) : list vrequest * run (option str) :=
  match fst (choose_link target_url (hrefs pg)) with
  | None => (log, Done None)
  | Some next_path =>
      match urljoin target_url next_path with
      | None => (log, Raised)
      | Some next_url =>
          let request := VGet next_url headers in
          match get log request with
          | None => (log ++ [request], Done None)
          | Some (status_code, page2) =>
              if negb (status_code =? 200)%N then (log ++ [request], Done None)
              else
                match submit_btn page2 with
                | Some (Some ((_ :: _) as href)) => (log ++ [request], Done (Some href))
                | _ =>
                    match search mp4_re (html page2) with
                    | Some mt => (log ++ [request], Done (group 1 (groups mt)))
                    | None => (log ++ [request], Done None)
                    end
                end
          end
      end
  end.

End VidTube.

(** ** The requests of an operation *)

Module NetSpec.

(** The requests made between two states of the world. *)
Definition sent (w w' : world) (l : list request) : Prop :=
  log w' = log w ++ l /\ sessions w' = sessions w.

(** A page request of a scraper. *)
Definition is_get (session : nat) (r : request) : Prop :=
  match r with GET s _ => s = session | _ => False end.

(** An address that names its scheme. *)
Definition absolute (url : str) : bool :=
  startswith (u "http:") url || startswith (u "https:") url.

(** The request of [search]. *)
Definition search_request (self : scraper) (query : str) : request :=
  POST (session self) (_get_endpoint self (u "search"))
    [(u "search", query); (u "type", u "all")] (base_url self) (base_url self).

(** What the loop of the crawl keeps true of the episodes it has gathered:
    their addresses are seen, absolute and all different, and no episode has
    servers. *)
Definition fresh (seen : gset str) (e : episode) : Prop :=
  url e ∈ seen /\ absolute (url e) = true /\ servers e = [].

Definition good (st : crawl_state) : Prop :=
  List.NoDup (map url (all_episodes st)) /\ Forall (fresh (seen_urls st)) (all_episodes st).

(** The request of [_get_trailer_url]. *)
Definition trailer_request `{PyEnv} (self : scraper) (page_url form_url : str) : request :=
  POST (session self) (_get_endpoint self (u "trailer"))
    [(u "href", quote form_url (u ":/"))]
    (quote page_url (u ":/")) (u "https://topcinema.rip").

(** The three types of content. *)
Definition content_types : list str := [u "movie"; u "series"; u "anime"].

(** A season as [get_series_details] lists it: nothing fetched yet. *)
Definition unfetched (s : season) : Prop :=
  s_episodes s = [] /\ s_poster s = None.

End NetSpec.

Module NetExample.

Definition site : Web := {|
  http := fun _ r =>
    match r with
    | GET _ _ => Some (Response 200 (u "https://topcinema.rip/") empty_soup)
    | _ => None
    end;
  vidtube := fun _ _ => None;
|}.

(** A site on which an episode resolves: its pages show the id 77 on the
    player, the first slot embeds a vidtube address, and that address gives a
    stream. *)
Definition player_page : soup :=
  Soup [] None [] [] [] [] false (fun _ => false) None
       [] [] [] [] [] [] None (Some (Some (u "77"))) [] (Some []) None.

Definition embed_page : soup :=
  Soup [] (Some (Some (u "https://vidtube.pro/e/abc"))) [] [] [] [] false (fun _ => false) None
       [] [] [] [] [] [] None None [] (Some []) None.

Definition streaming : Web := {|
  http := fun _ r =>
    match r with
    | GET _ url => Some (Response 200 url player_page)
    | POST _ _ _ _ _ => Some (Response 200 [] embed_page)
    | EXTRACT _ _ _ => None
    end;
  vidtube := fun _ _ => Some (u "https://cdn.example/v.mp4");
|}.

Definition me : scraper := TopCinemaScraper 0 (u "https://topcinema.rip").

Definition an_episode : episode :=
  Episode (u "1") (u "1") (u "Episode") (u "https://topcinema.rip/show-episode-1/") false [].

Definition a_server : server :=
  Server (u "VidTube Server 1") 0 (u "https://vidtube.pro/e/abc")
         (u "https://cdn.example/v.mp4").

Definition a_season : season :=
  Season (Some 1%N) None (Some (u "Season 1")) (Some CrawlExample.season_url) None [].

End NetExample.

(** ** The ordinals of a title *)

Module OrdinalSpec.

(** [key] is an ordinal of the table that stands in the text, and no ordinal
    of the table that stands in the text is longer. *)
Definition longest_ordinal (t key : str) (n : N) : Prop :=
  In (key, n) arabic_ordinals
  /\ contains key t = true
  /\ forall key' n', In (key', n') arabic_ordinals -> contains key' t = true ->
       (length key' <= length key)%nat.

End OrdinalSpec.

(** * The matcher against what a pattern matches *)

Module ReFacts.

Import Re ReSpec.

Section Matcher.
Context {E : PyEnv}.

Lemma last_prev_nil p : last_prev p [] = p.
Proof. reflexivity. Qed.

Lemma last_prev_app p w1 w2 :
  last_prev p (w1 ++ w2) = last_prev (last_prev p w1) w2.
Proof.
  unfold last_prev. rewrite rev_app_distr.
  destruct (rev w2) as [|c l]; simpl; [|reflexivity].
  destruct (rev w1); reflexivity.
Qed.

Lemma last_prev_one p c : last_prev p [c] = Some c.
Proof. reflexivity. Qed.

Lemma last_prev_snoc p w c : last_prev p (w ++ [c]) = Some c.
Proof. now rewrite last_prev_app. Qed.


Lemma reaches_length r st st' :
  reaches r st st' -> (length (rest st') <= length (rest st))%nat.
Proof. intros (w & Hw & _). rewrite Hw, length_app. lia. Qed.

Lemma star_sound (a : re) (f : mstate -> list mstate) :
  (forall st st', In st' (f st) -> reaches a st st') ->
  forall fuel st st', In st' (star f fuel st) -> reaches (Star a) st st'.
Proof.
  intros Hf. induction fuel as [|k IH]; intros st st'; simpl.
  - intros [<-|[]]. exists []. repeat split. constructor.
  - rewrite in_app_iff, in_flat_map. intros [(st1 & H1 & H2)|[<-|[]]].
    + apply filter_In in H1 as [H1 Hp].
      apply Hf in H1 as (w1 & Hw1 & Hp1 & Hd1).
      apply IH in H2 as (w2 & Hw2 & Hp2 & Hd2).
      exists (w1 ++ w2). rewrite <- app_assoc, <- Hw2. split; [exact Hw1|].
      split; [now rewrite last_prev_app, <- Hp1|].
      apply d_star_cons.
      * intros ->. unfold progress in Hp. rewrite Hw1 in Hp. simpl in Hp.
        apply Nat.ltb_lt in Hp. lia.
      * now rewrite <- Hw2.
      * now rewrite <- Hp1.
    + exists []. repeat split. constructor.
Qed.

(** Soundness: every result of the matcher is a match. *)
Lemma m_sound (r : re) : forall st st', In st' (m r st) -> reaches r st st'.
Proof.
  induction r as [|f|a IHa b IHb|a IHa b IHb|a IHa|a IHa|a IHa|n a IHa| | |];
    intros st st'; simpl.
  - intros [<-|[]]. exists []. repeat split. constructor.
  - destruct (rest st) as [|c t] eqn:Hr; [intros []|].
    destruct (f c) eqn:Hf; [|intros []].
    intros [<-|[]]. exists [c]. simpl. split; [exact Hr|]. split; [reflexivity|].
    now constructor.
  - rewrite in_flat_map. intros (st1 & H1 & H2).
    apply IHa in H1 as (w1 & Hw1 & Hp1 & Hd1).
    apply IHb in H2 as (w2 & Hw2 & Hp2 & Hd2).
    exists (w1 ++ w2). rewrite <- app_assoc, <- Hw2. split; [exact Hw1|].
    split; [now rewrite last_prev_app, <- Hp1|].
    constructor; [now rewrite <- Hw2|now rewrite <- Hp1].
  - rewrite in_app_iff. intros [H1|H1].
    + apply IHa in H1 as (w & ? & ? & ?). exists w. repeat split; auto. now apply d_alt_l.
    + apply IHb in H1 as (w & ? & ? & ?). exists w. repeat split; auto. now apply d_alt_r.
  - rewrite in_app_iff. intros [H1|[<-|[]]].
    + apply IHa in H1 as (w & ? & ? & ?). exists w. repeat split; auto. now apply d_opt_some.
    + exists []. repeat split. apply d_opt_none.
  - apply star_sound. exact IHa.
  - rewrite in_flat_map. intros (st1 & H1 & H2).
    apply IHa in H1 as (w1 & Hw1 & Hp1 & Hd1).
    apply (star_sound a _ IHa) in H2 as (w2 & Hw2 & Hp2 & Hd2).
    exists (w1 ++ w2). rewrite <- app_assoc, <- Hw2. split; [exact Hw1|].
    split; [now rewrite last_prev_app, <- Hp1|].
    apply d_plus; [now rewrite <- Hw2|now rewrite <- Hp1].
  - rewrite in_map_iff. intros (st1 & <- & H1).
    apply IHa in H1 as (w & ? & ? & ?). exists w. simpl. repeat split; auto.
    now constructor.
  - destruct (prev st) eqn:Hp; [intros []|]. intros [<-|[]].
    exists []. repeat split. rewrite Hp. constructor.
  - destruct (rest st) as [|c [|c' t]] eqn:Hr.
    + intros [<-|[]]. exists []. repeat split. constructor. left. exact Hr.
    + destruct (N.eqb_spec c 10) as [->|]; [|intros []].
      intros [<-|[]]. exists []. repeat split. constructor. right. exact Hr.
    + intros [].
  - destruct (at_boundary st) eqn:Hb; [|intros []]. intros [<-|[]].
    exists []. repeat split. constructor.
    unfold at_boundary in *. simpl. exact Hb.
Qed.

Lemma m_alt (a b : re) (st : mstate) : m (Alt a b) st = m a st ++ m b st.
Proof. reflexivity. Qed.

Lemma star_self (f : mstate -> list mstate) fuel st : In st (star f fuel st).
Proof. destruct fuel; simpl; [now left|]. apply in_or_app. right. now left. Qed.

Lemma filter_progress_nil (l : list mstate) (st : mstate) :
  rest st = [] -> List.filter (progress st) l = [].
Proof.
  intros Hr. induction l as [|x l IH]; [reflexivity|]. simpl.
  unfold progress at 1. rewrite Hr. simpl.
  destruct (length (rest x)); exact IH.
Qed.

Lemma flat_map_ext_In {A B : Type} (f g : A -> list B) (l : list A) :
  (forall x, In x l -> f x = g x) -> flat_map f l = flat_map g l.
Proof.
  induction l as [|x l IH]; intros Hfg; [reflexivity|]. simpl.
  rewrite (Hfg x) by now left. f_equal. apply IH. intros y Hy. apply Hfg. now right.
Qed.

(** Past the length of the text, more fuel changes nothing. *)
Lemma star_fuel (f : mstate -> list mstate) :
  forall k1 k2 st,
    (length (rest st) <= k1)%nat -> (length (rest st) <= k2)%nat ->
    star f k1 st = star f k2 st.
Proof.
  induction k1 as [|k1 IH]; intros k2 st H1 H2.
  - assert (Hr : rest st = []) by (destruct (rest st); [reflexivity|simpl in H1; lia]).
    destruct k2; [reflexivity|]. simpl. now rewrite filter_progress_nil.
  - destruct k2 as [|k2].
    + assert (Hr : rest st = []) by (destruct (rest st); [reflexivity|simpl in H2; lia]).
      simpl. now rewrite filter_progress_nil.
    + simpl. f_equal. apply flat_map_ext_In. intros st1 Hin.
      apply filter_In in Hin as [_ Hp]. unfold progress in Hp.
      apply Nat.ltb_lt in Hp. apply IH; lia.
Qed.

(** Completeness: every match is a result of the matcher. *)
Lemma m_complete (r : re) (p : option N) (w t : str) :
  denote r p w t ->
  forall gs, exists st',
    In st' (m r (MState p (w ++ t) gs)) /\ rest st' = t /\ prev st' = last_prev p w.
Proof.
  induction 1 as [p t|f c p t Hf|a b p w1 w2 t _ IH1 _ IH2|a b p w t _ IH|a b p w t _ IH
                  |a p w t _ IH|a p t|a p t|a p w1 w2 t Hne _ IH1 _ IH2
                  |a p w1 w2 t _ IH1 _ IH2|n a p w t _ IH|t|p t Ht|p t Hb]; intros gs.
  - eexists. split; [now left|]. now split.
  - eexists. simpl. rewrite Hf. split; [now left|]. now split.
  - destruct (IH1 gs) as ([p1 r1 g1] & Hin1 & Hr1 & Hp1). simpl in Hr1, Hp1. subst.
    destruct (IH2 g1) as (st' & Hin2 & Hr2 & Hp2).
    exists st'. simpl. rewrite <- app_assoc. split.
    + apply in_flat_map. eexists. split; eassumption.
    + split; [exact Hr2|]. now rewrite last_prev_app.
  - destruct (IH gs) as (st' & Hin & ?). exists st'. simpl. split; [|assumption].
    apply in_or_app. now left.
  - destruct (IH gs) as (st' & Hin & ?). exists st'. simpl. split; [|assumption].
    apply in_or_app. now right.
  - destruct (IH gs) as (st' & Hin & ?). exists st'. simpl. split; [|assumption].
    apply in_or_app. now left.
  - eexists. simpl. split; [apply in_or_app; right; now left|]. now split.
  - eexists. simpl. split; [apply star_self|]. now split.
  - destruct (IH1 gs) as ([p1 r1 g1] & Hin1 & Hr1 & Hp1). simpl in Hr1, Hp1. subst.
    destruct (IH2 g1) as (st' & Hin2 & Hr2 & Hp2).
    exists st'. rewrite <- app_assoc. split.
    + simpl in Hin2 |- *.
      destruct w1 as [|c w1]; [contradiction|]. simpl.
      apply in_or_app. left. apply in_flat_map.
      exists (MState (last_prev p (c :: w1)) (w2 ++ t) g1). split.
      * apply filter_In. split; [exact Hin1|].
        unfold progress. simpl. apply Nat.ltb_lt. rewrite !length_app. lia.
      * rewrite (star_fuel _ _ (length (w2 ++ t))); [exact Hin2|simpl|simpl; lia].
        rewrite !length_app. lia.
    + split; [exact Hr2|]. now rewrite last_prev_app.
  - destruct (IH1 gs) as ([p1 r1 g1] & Hin1 & Hr1 & Hp1). simpl in Hr1, Hp1. subst.
    destruct (IH2 g1) as (st' & Hin2 & Hr2 & Hp2).
    exists st'. rewrite <- app_assoc. split.
    + simpl in Hin2 |- *. apply in_flat_map. eexists. split; [exact Hin1|]. exact Hin2.
    + split; [exact Hr2|]. now rewrite last_prev_app.
  - destruct (IH gs) as (st' & Hin & Hr & Hp).
    exists (capture n (MState p (w ++ t) gs) st'). simpl. split; [|now split].
    apply in_map. exact Hin.
  - eexists. simpl. split; [now left|]. now split.
  - exists (MState p t gs). simpl. split; [|now split].
    destruct Ht as [->| ->]; simpl; now left.
  - exists (MState p t gs). simpl. unfold at_boundary in *. simpl in *. rewrite Hb.
    split; [now left|]. now split.
Qed.

Lemma last_prev_cons p c w : last_prev p (c :: w) = last_prev (Some c) w.
Proof. change (c :: w) with ([c] ++ w). now rewrite last_prev_app. Qed.

(** [re.search] finds a match exactly when the text holds one. *)
Lemma search_from_sound (r : re) : forall s p st',
  search_from r p s = Some st' ->
  exists pre w,
    s = pre ++ w ++ rest st'
    /\ denote r (last_prev p pre) w (rest st')
    /\ In st' (m r (MState (last_prev p pre) (w ++ rest st') [])).
Proof.
  induction s as [|c s IH]; intros p st'; simpl.
  - destruct (m r (MState p [] [])) as [|st1 l] eqn:Hm; [discriminate|].
    intros [= <-]. assert (Hin : In st1 (m r (MState p [] []))) by (rewrite Hm; now left).
    pose proof (m_sound _ _ _ Hin) as (w & Hw & _ & Hd). simpl in Hw, Hd.
    exists [], w. simpl. rewrite <- Hw. auto.
  - destruct (m r (MState p (c :: s) [])) as [|st1 l] eqn:Hm.
    + intros Hs. apply IH in Hs as (pre & w & -> & Hd & Hin).
      exists (c :: pre), w. rewrite last_prev_cons. auto.
    + intros [= <-]. assert (Hin : In st1 (m r (MState p (c :: s) []))) by (rewrite Hm; now left).
      pose proof (m_sound _ _ _ Hin) as (w & Hw & _ & Hd). simpl in Hw, Hd.
      exists [], w. simpl. rewrite <- Hw. auto.
Qed.

Lemma search_from_complete (r : re) : forall s p pre w t,
  s = pre ++ w ++ t -> denote r (last_prev p pre) w t ->
  search_from r p s <> None.
Proof.
  induction s as [|c s IH]; intros p pre w t Hs Hd.
  - destruct pre; [|discriminate]. simpl in Hs. change (last_prev p []) with p in Hd.
    destruct (m_complete _ _ _ _ Hd []) as (st' & Hin & _). rewrite <- Hs in Hin.
    simpl. destruct (m r (MState p [] [])) eqn:Hm; [|discriminate].
    destruct Hin.
  - simpl. destruct (m r (MState p (c :: s) [])) as [|st1 l] eqn:Hm; [|discriminate].
    destruct pre as [|c' pre].
    + simpl in Hs. change (last_prev p []) with p in Hd.
      destruct (m_complete _ _ _ _ Hd []) as (st' & Hin & _).
      rewrite <- Hs, Hm in Hin. destruct Hin.
    + injection Hs as <- Hs. rewrite last_prev_cons in Hd. eapply IH; eassumption.
Qed.

Theorem search_occurs (r : re) (s : str) :
  Re.search r s <> None <-> occurs r s.
Proof.
  unfold Re.search, occurs. split.
  - destruct (search_from r None s) as [st'|] eqn:Hs; [|congruence]. intros _.
    apply search_from_sound in Hs as (pre & w & Hs & Hd & _). eauto.
  - intros (pre & w & t & Hs & Hd). eapply search_from_complete; eassumption.
Qed.

Lemma star_groups (f : mstate -> list mstate) :
  (forall st st', In st' (f st) -> groups st' = groups st) ->
  forall fuel st st', In st' (star f fuel st) -> groups st' = groups st.
Proof.
  intros Hf. induction fuel as [|k IH]; intros st st'; simpl.
  - now intros [<-|[]].
  - rewrite in_app_iff, in_flat_map. intros [(st1 & H1 & H2)|[<-|[]]]; [|reflexivity].
    apply filter_In in H1 as [H1 _]. apply IH in H2. apply Hf in H1. congruence.
Qed.

Lemma m_nogroups (r : re) : nogroups r = true ->
  forall st st', In st' (m r st) -> groups st' = groups st.
Proof.
  induction r as [|f|a IHa b IHb|a IHa b IHb|a IHa|a IHa|a IHa|n a IHa| | |];
    simpl; intros Hn st st'; try discriminate.
  - now intros [<-|[]].
  - destruct (rest st) as [|c t]; [intros []|]. destruct (f c); [|intros []].
    now intros [<-|[]].
  - apply andb_prop in Hn as [Ha Hb]. rewrite in_flat_map. intros (st1 & H1 & H2).
    apply (IHa Ha) in H1. apply (IHb Hb) in H2. congruence.
  - apply andb_prop in Hn as [Ha Hb]. rewrite in_app_iff. intros [H1|H1]; auto.
  - rewrite in_app_iff. intros [H1|[<-|[]]]; auto.
  - apply star_groups. auto.
  - rewrite in_flat_map. intros (st1 & H1 & H2).
    apply (IHa Hn) in H1. apply (star_groups _ (IHa Hn)) in H2. congruence.
  - destruct (prev st); [intros []|]. now intros [<-|[]].
  - destruct (rest st) as [|c [|c' t]]; [now intros [<-|[]]| |intros []].
    destruct (c =? 10)%N; [now intros [<-|[]]|intros []].
  - destruct (at_boundary st); [|intros []]. now intros [<-|[]].
Qed.

Lemma m_ends_in_group (n : nat) (d r : re) :
  ends_in_group n d r -> nogroups d = true ->
  forall st st', In st' (m r st) ->
    exists w1 w2,
      rest st = w1 ++ w2 ++ rest st'
      /\ denote d (last_prev (prev st) w1) w2 (rest st')
      /\ groups st' = (n, w2) :: groups st.
Proof.
  intros Hr Hd. induction Hr as [|a r Ha Hr IH]; intros st st'; simpl.
  - rewrite in_map_iff. intros (st1 & <- & H1).
    pose proof (m_nogroups _ Hd _ _ H1) as Hg.
    apply m_sound in H1 as (w & Hw & Hp & Hw').
    exists [], w. simpl. split; [exact Hw|]. split; [exact Hw'|].
    rewrite Hg, Hw, length_app.
    replace (length w + length (rest st1) - length (rest st1))%nat with (length w) by lia.
    now rewrite firstn_app, firstn_all, Nat.sub_diag, app_nil_r.
  - rewrite in_flat_map. intros (st1 & H1 & H2).
    pose proof (m_nogroups _ Ha _ _ H1) as Hg.
    apply m_sound in H1 as (w & Hw & Hp & _).
    apply IH in H2 as (w1 & w2 & Hw2 & Hd2 & Hg2).
    exists (w ++ w1), w2. rewrite <- app_assoc, <- Hw2. split; [exact Hw|].
    split; [now rewrite last_prev_app, <- Hp|]. now rewrite Hg2, Hg.
Qed.

(** What a run of a character class matches. *)
Lemma denote_star_chr (f : N -> bool) p w t :
  denote (Star (Chr f)) p w t -> Forall (fun c => f c = true) w.
Proof.
  remember (Star (Chr f)) as r eqn:Hr. induction 1; try discriminate.
  - constructor.
  - injection Hr as ->. apply Forall_app. split; [|auto].
    match goal with Hd : denote (Chr f) _ _ _ |- _ => inversion Hd; subst end.
    constructor; [assumption|constructor].
Qed.

Lemma denote_plus_chr (f : N -> bool) p w t :
  denote (Plus (Chr f)) p w t -> w <> [] /\ Forall (fun c => f c = true) w.
Proof.
  inversion 1 as [| | | | | | | | |a p' w1 w2 t' H1 H2| | | |]; subst.
  inversion H1; subst. split; [discriminate|].
  constructor; [assumption|]. eapply denote_star_chr; eassumption.
Qed.

Lemma denote_chr_inv f p w t : denote (Chr f) p w t -> exists c, w = [c] /\ f c = true.
Proof. inversion 1; subst. eauto. Qed.

Lemma denote_star_chr_intro (f : N -> bool) w : forall p t,
  Forall (fun c => f c = true) w -> denote (Star (Chr f)) p w t.
Proof.
  induction w as [|c w IH]; intros p t Hw; [constructor|].
  inversion Hw; subst. change (c :: w) with ([c] ++ w).
  apply d_star_cons; [discriminate|now constructor|]. now apply IH.
Qed.

Lemma denote_digits p w t : denote (Plus digit) p w t <-> number w.
Proof.
  unfold number, digit. split; [apply denote_plus_chr|].
  intros [Hne Hw]. destruct w as [|c w]; [contradiction|].
  inversion Hw; subst. change (c :: w) with ([c] ++ w).
  apply d_plus; [now constructor|]. now apply denote_star_chr_intro.
Qed.

Lemma denote_seq (a b : re) p w t :
  denote (Seq a b) p w t
  <-> exists w1 w2, w = w1 ++ w2 /\ denote a p w1 (w2 ++ t) /\ denote b (last_prev p w1) w2 t.
Proof.
  split.
  - inversion 1; subst. eauto.
  - intros (w1 & w2 & -> & Ha & Hb). now constructor.
Qed.

Lemma denote_grp (n : nat) (a : re) p w t : denote (Grp n a) p w t <-> denote a p w t.
Proof. split; [now inversion 1|now constructor]. Qed.

(** The number a pattern that ends in a group of digits captures. *)
Lemma search_group_digits (r : re) (n : nat) (s : str) (mt : mstate) :
  ends_in_group n (Plus digit) r ->
  Re.search r s = Some mt ->
  exists ds, groups mt = [(n, ds)] /\ number ds.
Proof.
  intros Hr Hs. apply search_from_sound in Hs as (pre & w & _ & _ & Hin).
  apply (m_ends_in_group n (Plus digit) r Hr) in Hin as (w1 & w2 & _ & Hd & Hg);
    [|reflexivity].
  apply denote_digits in Hd. eauto.
Qed.

End Matcher.

End ReFacts.

(** * The stable sort *)

Module SortFacts.

Import SortSpec.

Section Sorting.
Context {A : Type} (lt : A -> A -> bool) (P : A -> Prop).

Lemma insert_perm (x : A) (l : list A) : Permutation (Sort.insert lt x l) (x :: l).
Proof.
  induction l as [|y l IH]; simpl; [reflexivity|].
  destruct (lt y x); [|reflexivity].
  rewrite IH. apply perm_swap.
Qed.

(** The sort rearranges its input. *)
Lemma sort_perm (l : list A) : Permutation (Sort.sort lt l) l.
Proof.
  induction l as [|x l IH]; simpl; [reflexivity|].
  rewrite insert_perm. now constructor.
Qed.

Lemma insert_sorted (x : A) (l : list A) :
  (forall a b, P a -> P b -> lt a b = true -> lt b a = false) ->
  (forall a b c, P a -> P b -> P c -> lt b a = false -> lt c b = false -> lt c a = false) ->
  P x -> Forall P l ->
  StronglySorted (not_after lt) l -> StronglySorted (not_after lt) (Sort.insert lt x l).
Proof.
  intros Hasym Htrans Hx Hl Hs. induction Hs as [|y l Hs IH Hy]; simpl.
  - repeat constructor.
  - apply Forall_cons_iff in Hl as [Py Pl].
    destruct (lt y x) eqn:Hyx.
    + constructor; [now apply IH|].
      apply (Permutation_Forall (Permutation_sym (insert_perm x l))).
      constructor; [|exact Hy]. unfold not_after. now apply Hasym.
    + constructor; [now constructor|]. constructor; [exact Hyx|].
      rewrite Forall_forall in Hy, Pl |- *. intros z Hz.
      unfold not_after in *. apply (Htrans x y z); auto.
Qed.

(** On keys that [lt] orders, the sort gives a list in which no element is
    after a later one. *)
Lemma sort_sorted (l : list A) :
  (forall a b, P a -> P b -> lt a b = true -> lt b a = false) ->
  (forall a b c, P a -> P b -> P c -> lt b a = false -> lt c b = false -> lt c a = false) ->
  Forall P l -> StronglySorted (not_after lt) (Sort.sort lt l).
Proof.
  intros Hasym Htrans Hl. induction l as [|x l IH]; simpl; [constructor|].
  apply Forall_cons_iff in Hl as [Px Pl].
  apply insert_sorted; auto.
  apply (Permutation_Forall (Permutation_sym (sort_perm l))). exact Pl.
Qed.

End Sorting.

End SortFacts.

(** * The order of the floats *)

Module FloatFacts.

Import SortSpec.

Lemma ltb_asym (x y : Float.float) :
  regular x -> regular y -> Float.ltb x y = true -> Float.ltb y x = false.
Proof.
  unfold Float.ltb, SFltb.
  destruct x as [sx|[|]| |[|] mx ex], y as [sy|[|]| |[|] my ey]; simpl;
    try contradiction; try discriminate; try reflexivity; intros _ _.
  change (Pos.compare_cont Eq mx my) with (Pos.compare mx my).
  change (Pos.compare_cont Eq my mx) with (Pos.compare my mx).
  destruct (Z.compare_spec ex ey), (Z.compare_spec ey ex); try lia; try discriminate;
    try reflexivity.
  destruct (Pos.compare_spec mx my), (Pos.compare_spec my mx); try lia; try discriminate;
    reflexivity.
Qed.

Lemma not_ltb_trans (x y z : Float.float) :
  regular x -> regular y -> regular z ->
  Float.ltb y x = false -> Float.ltb z y = false -> Float.ltb z x = false.
Proof.
  unfold Float.ltb, SFltb.
  destruct x as [sx|[|]| |[|] mx ex], y as [sy|[|]| |[|] my ey], z as [sz|[|]| |[|] mz ez];
    simpl; try contradiction; try discriminate; try reflexivity; intros _ _ _.
  change (Pos.compare_cont Eq my mx) with (Pos.compare my mx).
  change (Pos.compare_cont Eq mz my) with (Pos.compare mz my).
  change (Pos.compare_cont Eq mz mx) with (Pos.compare mz mx).
  destruct (Z.compare_spec ey ex), (Z.compare_spec ez ey), (Z.compare_spec ez ex);
    try lia; try discriminate; try reflexivity;
    destruct (Pos.compare_spec my mx), (Pos.compare_spec mz my), (Pos.compare_spec mz mx);
    try lia; try discriminate; reflexivity.
Qed.

(** Rounding a mantissa that is not negative gives a regular float. *)
Lemma shr_1_nonneg (mrs : shr_record) : (0 <= shr_m mrs)%Z -> (0 <= shr_m (shr_1 mrs))%Z.
Proof.
  destruct mrs as [m r s]. simpl. destruct m as [|p|p]; simpl; [lia| |lia].
  destruct p; simpl; lia.
Qed.

Lemma iter_pos_nonneg (n : positive) (mrs : shr_record) :
  (0 <= shr_m mrs)%Z -> (0 <= shr_m (SpecFloat.iter_pos shr_1 n mrs))%Z.
Proof.
  revert mrs. induction n as [n IH|n IH|]; intros mrs Hm; simpl.
  - apply IH, IH, shr_1_nonneg, Hm.
  - apply IH, IH, Hm.
  - apply shr_1_nonneg, Hm.
Qed.

Lemma shr_fexp_nonneg prec emax (m e : Z) (l : location) :
  (0 <= m)%Z -> (0 <= shr_m (fst (shr_fexp prec emax m e l)))%Z.
Proof.
  intros Hm. unfold shr_fexp, shr.
  assert (H0 : (0 <= shr_m (shr_record_of_loc m l))%Z).
  { destruct l as [|[| |]]; exact Hm. }
  destruct (_ - e)%Z; simpl; [exact H0| |exact H0].
  apply iter_pos_nonneg, H0.
Qed.

Lemma round_nearest_even_nonneg (m : Z) (l : location) :
  (0 <= m)%Z -> (0 <= round_nearest_even m l)%Z.
Proof.
  intros Hm. destruct l as [|[| |]]; simpl; try lia. destruct (Z.even m); lia.
Qed.

Lemma binary_round_aux_regular prec emax (m e : Z) (l : location) :
  (0 <= m)%Z -> regular (binary_round_aux prec emax false m e l).
Proof.
  intros Hm. unfold binary_round_aux.
  pose proof (shr_fexp_nonneg prec emax m e l Hm) as H1.
  destruct (shr_fexp prec emax m e l) as [mrs' e']. simpl in H1.
  pose proof (shr_fexp_nonneg prec emax _ e' loc_Exact
                (round_nearest_even_nonneg _ (loc_of_shr_record mrs') H1)) as H2.
  destruct (shr_fexp prec emax _ e' loc_Exact) as [mrs'' e'']. simpl in H2.
  destruct (shr_m mrs''); [exact I| |lia].
  destruct (e'' <=? emax - prec)%Z; exact I.
Qed.

Lemma div_N_regular (n d : N) : d <> 0%N -> regular (Float.div_N n d).
Proof.
  intros Hd. unfold Float.div_N, Float.unrounded.
  destruct d as [|pd]; [contradiction|]. destruct n as [|pn]; [exact I|].
  unfold SFdiv. simpl xorb.
  destruct (SFdiv_core_binary 53 1024 (Z.pos pn) 0 (Z.pos pd) 0) as [[mz ez] lz] eqn:Hc.
  apply binary_round_aux_regular.
  unfold SFdiv_core_binary in Hc.
  set (m' := match _ with Zpos _ => _ | Z0 => _ | Zneg _ => _ end) in Hc.
  assert (Hm' : (0 <= m')%Z).
  { subst m'. destruct (_ - _ - _)%Z; [lia| |lia]. apply Z.shiftl_nonneg. lia. }
  pose proof (Z.div_eucl_eq m' (Z.pos pd) ltac:(lia)) as Heq.
  pose proof (Z.mod_pos_bound m' (Z.pos pd) ltac:(lia)) as Hb.
  unfold Z.modulo in Hb.
  destruct (Z.div_eucl m' (Z.pos pd)) as [q r]. injection Hc as <- _ _.
  nia.
Qed.

Lemma of_decimal_regular `{PyEnv} (s : str) (x : Float.float) :
  Float.of_decimal s = Some x -> regular x.
Proof.
  unfold Float.of_decimal. destruct (Float.split_point s) as [ip fp].
  destruct ip as [|c ip]; [discriminate|].
  assert (Hgo : forall f,
    match digits_value 0 ((c :: ip) ++ f) with
    | Some n => Some (Float.div_N n (10 ^ N.of_nat (length f)))
    | None => None
    end = Some x -> regular x).
  { intros f. destruct (digits_value _ _); [|discriminate]. intros [= <-].
    apply div_N_regular. apply N.pow_nonzero. discriminate. }
  destruct fp as [[|c' f]|]; [discriminate|apply Hgo|apply Hgo].
Qed.

(** ** Normal forms and the order of the values *)

Section Normal.
Local Open Scope Z_scope.

Lemma digits2_pos_bounds (m : positive) :
  2 ^ (Z.pos (digits2_pos m) - 1) <= Z.pos m < 2 ^ Z.pos (digits2_pos m).
Proof.
  induction m as [m IH|m IH|]; cbn [digits2_pos].
  - rewrite Pos2Z.inj_succ. replace (Z.succ (Z.pos (digits2_pos m)) - 1) with (Z.pos (digits2_pos m)) by lia.
    rewrite Z.pow_succ_r by lia.
    assert (Hd : Z.pos (digits2_pos m) = Z.succ (Z.pos (digits2_pos m) - 1)) by lia.
    rewrite Hd at 1. rewrite Z.pow_succ_r by lia. lia.
  - rewrite Pos2Z.inj_succ. replace (Z.succ (Z.pos (digits2_pos m)) - 1) with (Z.pos (digits2_pos m)) by lia.
    rewrite Z.pow_succ_r by lia.
    assert (Hd : Z.pos (digits2_pos m) = Z.succ (Z.pos (digits2_pos m) - 1)) by lia.
    rewrite Hd at 1. rewrite Z.pow_succ_r by lia. lia.
  - cbn. lia.
Qed.

Lemma Zdigits2_nonneg (m : Z) : 0 <= Zdigits2 m.
Proof. destruct m; simpl; lia. Qed.

(** A shift to the right takes one digit away. *)
Lemma shr_1_digits (mrs : shr_record) :
  0 <= shr_m mrs ->
  Zdigits2 (shr_m (shr_1 mrs)) = Z.max 0 (Zdigits2 (shr_m mrs) - 1).
Proof.
  destruct mrs as [m r s]. cbn [shr_m]. intros Hm.
  destruct m as [|p|p]; [reflexivity| |lia].
  destruct p as [p|p|]; cbn [shr_1 shr_m Zdigits2 digits2_pos];
    rewrite ?Pos2Z.inj_succ; lia.
Qed.

Lemma iter_pos_digits (n : positive) : forall mrs,
  0 <= shr_m mrs ->
  Zdigits2 (shr_m (SpecFloat.iter_pos shr_1 n mrs))
  = Z.max 0 (Zdigits2 (shr_m mrs) - Z.pos n).
Proof.
  induction n as [n IH|n IH|]; intros mrs Hm; cbn [SpecFloat.iter_pos].
  - rewrite IH by (apply iter_pos_nonneg, shr_1_nonneg, Hm).
    rewrite IH by (apply shr_1_nonneg, Hm).
    rewrite shr_1_digits by exact Hm. lia.
  - rewrite IH by (apply iter_pos_nonneg, Hm).
    rewrite IH by exact Hm. lia.
  - apply shr_1_digits, Hm.
Qed.

Lemma shr_record_of_loc_m (m : Z) (l : location) : shr_m (shr_record_of_loc m l) = m.
Proof. destruct l as [|[| |]]; reflexivity. Qed.

(** The exponent a mantissa of [d] digits at exponent [e] is to have. *)
Lemma fexp_spec (z : Z) : fexp 53 1024 z = Z.max (z - 53) (-1074).
Proof. reflexivity. Qed.

(** Shifting a mantissa that has digits to spare brings it to normal form. *)
Lemma shr_fexp_canonical (m e : Z) (l : location) :
  0 <= m -> e <= fexp 53 1024 (Zdigits2 m + e) ->
  let '(mrs, e') := shr_fexp 53 1024 m e l in
  0 <= shr_m mrs /\ fexp 53 1024 (Zdigits2 (shr_m mrs) + e') = e'.
Proof.
  intros Hm He. unfold shr_fexp, shr.
  pose proof (Zdigits2_nonneg m) as Hd.
  destruct (fexp 53 1024 (Zdigits2 m + e) - e) as [|n|n] eqn:Hn.
  - rewrite shr_record_of_loc_m. split; [exact Hm|lia].
  - assert (H0 : 0 <= shr_m (shr_record_of_loc m l)) by (now rewrite shr_record_of_loc_m).
    split; [apply iter_pos_nonneg, H0|].
    rewrite iter_pos_digits by exact H0. rewrite shr_record_of_loc_m.
    rewrite fexp_spec in *. lia.
  - lia.
Qed.

Lemma Zdigits2_mono (a b : Z) : 0 <= a <= b -> Zdigits2 a <= Zdigits2 b.
Proof.
  intros [Ha Hab]. destruct a as [|pa|pa]; [apply Zdigits2_nonneg| |lia].
  destruct b as [|pb|pb]; try lia. cbn [Zdigits2].
  pose proof (digits2_pos_bounds pa) as [Ha1 _].
  pose proof (digits2_pos_bounds pb) as [_ Hb2].
  destruct (Z.le_gt_cases (Z.pos (digits2_pos pa)) (Z.pos (digits2_pos pb))) as [|Hlt]; [assumption|].
  exfalso.
  assert (Hp : 2 ^ Z.pos (digits2_pos pb) <= 2 ^ (Z.pos (digits2_pos pa) - 1))
    by (apply Z.pow_le_mono_r; lia).
  lia.
Qed.

Lemma round_nearest_even_ge (m : Z) (l : location) : m <= round_nearest_even m l.
Proof. destruct l as [|[| |]]; cbn; try lia. destruct (Z.even m); lia. Qed.

(** Rounding gives a number in normal form. *)
Lemma binary_round_aux_normal (m e : Z) (l : location) :
  0 <= m -> e <= fexp 53 1024 (Zdigits2 m + e) ->
  Float.normal (binary_round_aux 53 1024 false m e l) = true.
Proof.
  intros Hm He. unfold binary_round_aux.
  pose proof (shr_fexp_canonical m e l Hm He) as H1.
  destruct (shr_fexp 53 1024 m e l) as [mrs' e'].
  destruct H1 as [Hm1 Hc1].
  set (m2 := round_nearest_even (shr_m mrs') (loc_of_shr_record mrs')).
  assert (Hm2 : shr_m mrs' <= m2) by apply round_nearest_even_ge.
  assert (He2 : e' <= fexp 53 1024 (Zdigits2 m2 + e')).
  { pose proof (Zdigits2_mono (shr_m mrs') m2 ltac:(lia)) as Hd.
    rewrite fexp_spec in *. lia. }
  pose proof (shr_fexp_canonical m2 e' loc_Exact ltac:(lia) He2) as H2.
  destruct (shr_fexp 53 1024 m2 e' loc_Exact) as [mrs'' e''].
  destruct H2 as [Hm3 Hc3].
  destruct (shr_m mrs'') as [|p|p] eqn:Hp; [reflexivity| |reflexivity].
  destruct (e'' <=? 1024 - 53) eqn:Hle; [|reflexivity].
  unfold Float.normal, valid_binary, bounded, canonical_mantissa.
  cbn [Zdigits2] in Hc3. rewrite Hc3, Z.eqb_refl, Hle. reflexivity.
Qed.

Lemma Zdigits2_ge (k q : Z) : 0 <= k -> 2 ^ k <= q -> k + 1 <= Zdigits2 q.
Proof.
  intros Hk Hq. assert (H0 : 0 < 2 ^ k) by (apply Z.pow_pos_nonneg; lia).
  destruct q as [|p|p]; try lia. cbn [Zdigits2].
  pose proof (digits2_pos_bounds p) as [_ Hb].
  destruct (Z.le_gt_cases (k + 1) (Z.pos (digits2_pos p))) as [|Hlt]; [assumption|].
  exfalso.
  assert (Hp : 2 ^ Z.pos (digits2_pos p) <= 2 ^ k) by (apply Z.pow_le_mono_r; lia).
  lia.
Qed.

(** The quotient the division hands to the rounding has digits to spare. *)
Lemma SFdiv_core_binary_precise (mx my : positive) :
  let '(q, e', l) := SFdiv_core_binary 53 1024 (Z.pos mx) 0 (Z.pos my) 0 in
  0 <= q /\ e' <= fexp 53 1024 (Zdigits2 q + e').
Proof.
  unfold SFdiv_core_binary. cbn [Zdigits2].
  set (d1 := Z.pos (digits2_pos mx)). set (d2 := Z.pos (digits2_pos my)).
  pose proof (digits2_pos_bounds mx) as [Hx1 Hx2]. fold d1 in Hx1, Hx2.
  pose proof (digits2_pos_bounds my) as [Hy1 Hy2]. fold d2 in Hy1, Hy2.
  replace (d1 + 0 - (d2 + 0)) with (d1 - d2) by lia.
  set (e' := Z.min (fexp 53 1024 (d1 - d2)) (0 - 0)).
  assert (He' : e' <= 0) by (subst e'; lia).
  assert (He'' : e' <= fexp 53 1024 (d1 - d2)) by (subst e'; lia).
  set (s := 0 - 0 - e'). assert (Hs : 0 <= s) by (subst s; lia).
  set (m' := match s with Z.pos _ => Z.shiftl (Z.pos mx) s | 0 => Z.pos mx | Z.neg _ => 0 end).
  assert (Hm' : m' = Z.pos mx * 2 ^ s).
  { subst m'. destruct s as [|p|p] eqn:Es; [rewrite Z.pow_0_r; lia| |lia].
    rewrite Z.shiftl_mul_pow2 by lia. reflexivity. }
  assert (H2s : 0 < 2 ^ s) by (apply Z.pow_pos_nonneg; lia).
  pose proof (Z.div_eucl_eq m' (Z.pos my) ltac:(lia)) as Heq.
  pose proof (Z.mod_pos_bound m' (Z.pos my) ltac:(lia)) as Hb.
  unfold Z.modulo in Hb.
  destruct (Z.div_eucl m' (Z.pos my)) as [q r].
  assert (Hq : 0 <= q) by nia.
  split; [exact Hq|].
  assert (Hdq : d1 - d2 + s <= Zdigits2 q).
  { destruct (Z.le_gt_cases 0 (d1 - 1 + s - d2)) as [Hk|Hk].
    - replace (d1 - d2 + s) with ((d1 - 1 + s - d2) + 1) by lia.
      apply Zdigits2_ge; [exact Hk|].
      assert (Hpow : 2 ^ (d1 - 1 + s) = 2 ^ (d1 - 1 + s - d2) * 2 ^ d2).
      { rewrite <- Z.pow_add_r by (subst d2; lia). f_equal. lia. }
      assert (Hpow2 : 2 ^ (d1 - 1 + s) = 2 ^ (d1 - 1) * 2 ^ s).
      { rewrite <- Z.pow_add_r by (subst d1; lia). reflexivity. }
      assert (Hk0 : 0 < 2 ^ (d1 - 1 + s - d2)) by (apply Z.pow_pos_nonneg; lia).
      assert (Hge : 2 ^ (d1 - 1 + s - d2) * 2 ^ d2 <= m').
      { rewrite <- Hpow, Hpow2, Hm'. apply Z.mul_le_mono_nonneg_r; lia. }
      destruct (Z.le_gt_cases (2 ^ (d1 - 1 + s - d2)) q) as [|Hlt]; [assumption|].
      exfalso.
      assert (Hq1 : q + 1 <= 2 ^ (d1 - 1 + s - d2)) by lia.
      assert (m' < (q + 1) * Z.pos my) by nia.
      assert ((q + 1) * Z.pos my <= 2 ^ (d1 - 1 + s - d2) * Z.pos my)
        by (apply Z.mul_le_mono_nonneg_r; lia).
      assert (2 ^ (d1 - 1 + s - d2) * Z.pos my < 2 ^ (d1 - 1 + s - d2) * 2 ^ d2)
        by (apply Z.mul_lt_mono_pos_l; lia).
      lia.
    - pose proof (Zdigits2_nonneg q). lia. }
  rewrite fexp_spec in *. lia.
Qed.

(** Every quotient of two numbers is in normal form. *)
Lemma div_N_normal (n d : N) : Float.normal (Float.div_N n d) = true.
Proof.
  unfold Float.div_N, Float.unrounded.
  destruct n as [|pn], d as [|pd]; try reflexivity.
  unfold SFdiv. cbn [xorb].
  pose proof (SFdiv_core_binary_precise pn pd) as H.
  destruct (SFdiv_core_binary 53 1024 (Z.pos pn) 0 (Z.pos pd) 0) as [[q e'] l].
  destruct H as [Hq He]. apply binary_round_aux_normal; assumption.
Qed.

Lemma normal_finite (s : bool) (m : positive) (e : Z) :
  Float.normal (S754_finite s m e) = true ->
  -1074 <= e <= 971
  /\ Z.pos (digits2_pos m) <= 53
  /\ (-1074 < e -> Z.pos (digits2_pos m) = 53).
Proof.
  unfold Float.normal, valid_binary, bounded, canonical_mantissa. rewrite fexp_spec.
  intros H. apply andb_prop in H as [Hc Hb].
  apply Z.eqb_eq in Hc. apply Z.leb_le in Hb. lia.
Qed.

(** What a finite number in normal form counts: less than the infinity, and
    by exponent first. *)
Lemma ticks_finite (s : bool) (m : positive) (e : Z) :
  Float.normal (S754_finite s m e) = true ->
  0 < Float.ticks (S754_finite s m e) < 2 ^ 2098
  /\ Float.ticks (S754_finite s m e) < 2 ^ (e + 1074 + 53)
  /\ (-1074 < e -> 2 ^ (e + 1074 + 52) <= Float.ticks (S754_finite s m e)).
Proof.
  intros Hn. apply normal_finite in Hn as (He & Hd & Hfull).
  pose proof (digits2_pos_bounds m) as [Hlo Hhi].
  cbn [Float.ticks].
  assert (H2 : 0 < 2 ^ (e + 1074)) by (apply Z.pow_pos_nonneg; lia).
  assert (Hm53 : Z.pos m < 2 ^ 53).
  { eapply Z.lt_le_trans; [exact Hhi|]. apply Z.pow_le_mono_r; lia. }
  assert (Hup : Z.pos m * 2 ^ (e + 1074) < 2 ^ (e + 1074 + 53)).
  { rewrite (Z.pow_add_r 2 (e + 1074) 53) by lia. rewrite (Z.mul_comm (2 ^ (e + 1074))).
    apply Z.mul_lt_mono_pos_r; assumption. }
  split; [split; [lia|]|split; [exact Hup|]].
  - eapply Z.lt_le_trans; [exact Hup|]. apply Z.pow_le_mono_r; lia.
  - intros Hgt. specialize (Hfull Hgt). rewrite Hfull in Hlo.
    rewrite (Z.pow_add_r 2 (e + 1074) 52) by lia. rewrite (Z.mul_comm (2 ^ (e + 1074))).
    apply Z.mul_le_mono_nonneg_r; [lia|]. exact Hlo.
Qed.

(** On numbers in normal form that are not negative, [<] is the order of
    the values. *)
Lemma ltb_ticks (x y : Float.float) :
  regular x -> regular y -> Float.normal x = true -> Float.normal y = true ->
  Float.ltb x y = (Float.ticks x <? Float.ticks y).
Proof.
  intros Hx Hy Nx Ny. unfold Float.ltb, SFltb.
  destruct x as [sx|[|]| |[|] mx ex]; try contradiction;
    destruct y as [sy|[|]| |[|] my ey]; try contradiction; cbn [SFcompare].
  - reflexivity.
  - reflexivity.
  - pose proof (ticks_finite _ _ _ Ny) as [[H0 _] _].
    symmetry. apply Z.ltb_lt. exact H0.
  - reflexivity.
  - reflexivity.
  - pose proof (ticks_finite _ _ _ Ny) as [[_ H1] _].
    symmetry. apply Z.ltb_ge. cbn [Float.ticks] in *. lia.
  - pose proof (ticks_finite _ _ _ Nx) as [[H0 _] _].
    symmetry. apply Z.ltb_ge. cbn [Float.ticks] in *. lia.
  - pose proof (ticks_finite _ _ _ Nx) as [[_ H1] _].
    symmetry. apply Z.ltb_lt. exact H1.
  - pose proof (ticks_finite _ _ _ Nx) as (_ & Hxu & Hxl).
    pose proof (ticks_finite _ _ _ Ny) as (_ & Hyu & Hyl).
    pose proof (normal_finite _ _ _ Nx) as (Hex & _).
    pose proof (normal_finite _ _ _ Ny) as (Hey & _).
    destruct (Z.compare_spec ex ey) as [->|Hlt|Hgt].
    + rewrite Pos.compare_cont_spec. cbn [Pos.switch_Eq].
      cbn [Float.ticks].
      assert (H2 : 0 < 2 ^ (ey + 1074)) by (apply Z.pow_pos_nonneg; lia).
      destruct (Pos.compare_spec mx my) as [->|Hm|Hm]; symmetry.
      * apply Z.ltb_irrefl.
      * apply Z.ltb_lt. apply Z.mul_lt_mono_pos_r; [exact H2|lia].
      * apply Z.ltb_ge. apply Z.mul_le_mono_nonneg_r; lia.
    + symmetry. apply Z.ltb_lt.
      specialize (Hyl ltac:(lia)).
      assert (2 ^ (ex + 1074 + 53) <= 2 ^ (ey + 1074 + 52)) by (apply Z.pow_le_mono_r; lia).
      lia.
    + symmetry. apply Z.ltb_ge.
      specialize (Hxl ltac:(lia)).
      assert (2 ^ (ey + 1074 + 53) <= 2 ^ (ex + 1074 + 52)) by (apply Z.pow_le_mono_r; lia).
      lia.
Qed.

Lemma of_decimal_normal `{PyEnv} (s : str) (x : Float.float) :
  Float.of_decimal s = Some x -> Float.normal x = true.
Proof.
  unfold Float.of_decimal. destruct (Float.split_point s) as [ip fp].
  destruct ip as [|c ip]; [discriminate|].
  assert (Hgo : forall f,
    match digits_value 0 ((c :: ip) ++ f) with
    | Some n => Some (Float.div_N n (10 ^ N.of_nat (length f)))
    | None => None
    end = Some x -> Float.normal x = true).
  { intros f. destruct (digits_value _ _); [|discriminate]. intros [= <-].
    apply div_N_normal. }
  destruct fp as [[|c' f]|]; [discriminate|apply Hgo|apply Hgo].
Qed.

End Normal.

End FloatFacts.

(** * The server poller *)

Section Poller.
Context {E : PyEnv} {W : Web}.
Variables (self : scraper) (content_id referer : str).

Lemma extract_with_referers_log embed refs w w' v :
  extract_with_referers self embed refs w = (w', v) ->
  exists l, log w' = log w ++ l /\ Forall is_extract l.
Proof.
  revert w w' v. induction refs as [|ref refs IH]; intros w w' v; simpl.
  - unfold extract. intros [= <- _]. simpl. eexists; split; [reflexivity|].
    constructor; [exact I|constructor].
  - destruct ref as [|c ref].
    + apply IH.
    + unfold extract. simpl.
      destruct (truthy _) as [v'|].
      * intros [= <- _]. simpl. eexists; split; [reflexivity|].
        constructor; [exact I|constructor].
      * intros Hr. apply IH in Hr as (l & Hl & Hf). simpl in Hl.
        eexists. rewrite Hl, <- app_assoc. split; [reflexivity|].
        constructor; [exact I|exact Hf].
Qed.

Lemma poll_slot_log i w w' r :
  poll_slot self content_id referer i w = (w', r) ->
  exists p l, log w' = log w ++ p :: l
              /\ slot_of p = Some (str_of_N (N.of_nat i))
              /\ Forall is_extract l.
Proof.
  unfold poll_slot, send. simpl.
  set (p := POST _ _ _ _ _).
  assert (Hp : slot_of p = Some (str_of_N (N.of_nat i))) by reflexivity.
  assert (Hnil : forall r0, (World (log w ++ [p]) (sessions w), r0) = (w', r) ->
     exists p0 l, log w' = log w ++ p0 :: l /\ slot_of p0 = Some (str_of_N (N.of_nat i))
                /\ Forall is_extract l).
  { intros r0 [= <- _]. exists p, []. simpl. auto. }
  destruct (http (log w) p) as [resp|]; [|apply Hnil].
  destruct (status_code resp =? 200)%N; [|apply Hnil].
  destruct (iframe (text resp)) as [[[|c src]|]|]; try apply Hnil.
  destruct (contains _ _); [|apply Hnil].
  unfold _extract_vidtube_url.
  destruct (existsb _ _).
  - destruct (extract_with_referers _ _ _ _) as [w2 v] eqn:Hx.
    apply extract_with_referers_log in Hx as (l & Hl & Hf). simpl in Hl.
    rewrite <- app_assoc in Hl. simpl in Hl.
    destruct (truthy v); intros [= <- _]; exists p, l; auto.
  - simpl. apply Hnil.
Qed.

Lemma omap_extracts l : Forall is_extract l -> omap slot_of l = [].
Proof.
  induction 1 as [|r l Hr _ IH]; [reflexivity|].
  destruct r; try contradiction. simpl. exact IH.
Qed.

Lemma polled_app w w1 w2 :
  (exists l, log w1 = log w ++ l) -> (exists l, log w2 = log w1 ++ l) ->
  polled w w2 = polled w w1 ++ polled w1 w2.
Proof.
  intros [l1 H1] [l2 H2]. unfold polled.
  rewrite H2, drop_app_length, H1, <- app_assoc, !drop_app_length.
  apply omap_app.
Qed.

Lemma poll_slot_polled i w w' r :
  poll_slot self content_id referer i w = (w', r) ->
  polled w w' = slots i 1 /\ exists l, log w' = log w ++ l.
Proof.
  intros Hp. apply poll_slot_log in Hp as (p & l & Hl & Hs & Hf).
  split; [|eauto].
  unfold polled. rewrite Hl, drop_app_length. simpl.
  rewrite Hs, omap_extracts by assumption. reflexivity.
Qed.

Lemma poll_slot_server i w w' s :
  poll_slot self content_id referer i w = (w', Some s) ->
  server_number s = i /\ video_url s <> [].
Proof.
  unfold poll_slot.
  destruct (send _ _) as [w1 [resp|]]; [|discriminate].
  destruct (status_code resp =? 200)%N; [|discriminate].
  destruct (iframe (text resp)) as [[[|c src]|]|]; try discriminate.
  destruct (contains _ _); [|discriminate].
  destruct (_extract_vidtube_url _ _ _ _) as [w2 v].
  destruct v as [[|c' v]|]; simpl; try discriminate.
  intros [= _ <-]. simpl. split; [reflexivity|discriminate].
Qed.

Lemma poll_from_spec n i w w' servers :
  poll_from self content_id referer n i w = (w', servers) ->
  (exists l, log w' = log w ++ l)
  /\ ((servers = [] /\ fails_until self content_id referer i (i + n) w w' /\ polled w w' = slots i n)
      \/ (exists s k w1,
             servers = [s] /\ (i <= k < i + n)%nat
             /\ fails_until self content_id referer i k w w1
             /\ poll_slot self content_id referer k w1 = (w', Some s)
             /\ polled w w' = slots i (S k - i))).
Proof.
  revert i w w' servers. induction n as [|n IH]; intros i w w' servers; simpl.
  - intros [= <- <-]. split; [exists []; now rewrite app_nil_r|].
    left. rewrite Nat.add_0_r. split; [reflexivity|]. split; [constructor|].
    unfold polled. now rewrite skipn_all.
  - destruct (poll_slot self content_id referer i w) as [w1 [s|]] eqn:Hs.
    + intros [= <- <-]. destruct (poll_slot_polled _ _ _ _ Hs) as [Hp Hl].
      split; [exact Hl|]. right. exists s, i, w.
      split; [reflexivity|]. split; [lia|]. split; [constructor|].
      split; [exact Hs|]. now replace (S i - i)%nat with 1%nat by lia.
    + intros Hr. destruct (poll_slot_polled _ _ _ _ Hs) as [Hp Hl].
      apply IH in Hr as (Hl' & Hr).
      assert (Hpp := polled_app _ _ _ Hl Hl').
      split.
      { destruct Hl as [l1 E1], Hl' as [l2 E2]. exists (l1 ++ l2).
        now rewrite E2, E1, app_assoc. }
      destruct Hr as [(-> & Hf & Hq)|(s & k & w2 & -> & Hk & Hf & Hs' & Hq)].
      * left. split; [reflexivity|]. split.
        { replace (i + S n)%nat with (S i + n)%nat by lia. econstructor; eassumption. }
        rewrite Hpp, Hp, Hq. unfold slots. rewrite <- map_app. reflexivity.
      * right. exists s, k, w2. split; [reflexivity|]. split; [lia|].
        split; [econstructor; eassumption|]. split; [exact Hs'|].
        rewrite Hpp, Hp, Hq. unfold slots. rewrite <- map_app.
        replace (S k - i)%nat with (S (S k - S i))%nat by lia. reflexivity.
Qed.

(** C1. The poller asks for the slots 0 to 9 in order and returns at most
    one server. When it returns a server, that server comes from the first
    slot that resolves to a stream: every earlier slot failed, the polling
    stopped there, the server is tagged with the index of the slot, and its
    [video_url] is not empty. When it returns none, all ten slots were
    polled and failed. In particular, when slot 0 gives nothing and slot 1
    resolves, the result is exactly the server of slot 1, tagged 1. *)
Theorem get_servers_first_working_slot w w' servers :
  get_servers self content_id referer DEFAULT_MAX_SERVERS w = (w', servers) ->
  (length servers <= 1)%nat
  /\ (forall s, In s servers -> video_url s <> [] /\ (server_number s < 10)%nat)
  /\ match servers with
     | [] => fails_until self content_id referer 0 10 w w' /\ polled w w' = slots 0 10
     | s :: _ =>
         exists w1,
           fails_until self content_id referer 0 (server_number s) w w1
           /\ poll_slot self content_id referer (server_number s) w1 = (w', Some s)
           /\ polled w w' = slots 0 (S (server_number s))
     end
  /\ (forall w1 w2 s,
        poll_slot self content_id referer 0 w = (w1, None) ->
        poll_slot self content_id referer 1 w1 = (w2, Some s) ->
        w' = w2 /\ servers = [s] /\ server_number s = 1%nat).
Proof.
  intros Hg. pose proof Hg as Hspec.
  unfold get_servers, DEFAULT_MAX_SERVERS in Hspec.
  apply poll_from_spec in Hspec as [_ Hspec].
  destruct Hspec as [(-> & Hf & Hp)|(s & k & w1 & -> & Hk & Hf & Hs & Hp)].
  - split; [simpl; lia|]. split; [intros s []|]. split; [auto|].
    intros w1 w2 s Hs0 Hs1. unfold get_servers, DEFAULT_MAX_SERVERS in Hg.
    simpl in Hg. rewrite Hs0, Hs1 in Hg. discriminate.
  - destruct (poll_slot_server _ _ _ _ Hs) as [Hn Hv].
    split; [simpl; lia|]. split.
    { intros s' [<-|[]]. split; [exact Hv|lia]. }
    split.
    { rewrite Hn. exists w1. rewrite Nat.sub_0_r in Hp. auto. }
    intros w1' w2 s' Hs0 Hs1. unfold get_servers, DEFAULT_MAX_SERVERS in Hg.
    simpl in Hg. rewrite Hs0, Hs1 in Hg. injection Hg as <- <-.
    destruct (poll_slot_server _ _ _ _ Hs1) as [Hn' _]. auto.
Qed.

End Poller.

Lemma get_servers_first_working_slot_witness :
  @get_servers ascii_env PollerExample.web PollerExample.me (u "77")
     PollerExample.watch_url DEFAULT_MAX_SERVERS PollerExample.start
    = PollerExample.result
  /\ map server_number (snd PollerExample.result) = [1%nat]
  /\ (forall s, In s (snd PollerExample.result) ->
        video_url s <> [] /\ (server_number s < 10)%nat).
Proof.
  assert (Hr : @get_servers ascii_env PollerExample.web PollerExample.me (u "77")
     PollerExample.watch_url DEFAULT_MAX_SERVERS PollerExample.start
    = PollerExample.result) by (vm_compute; reflexivity).
  split; [exact Hr|]. split; [reflexivity|].
  exact (proj1 (proj2 (get_servers_first_working_slot (E:=ascii_env) (W:=PollerExample.web)
           PollerExample.me (u "77") PollerExample.watch_url
           PollerExample.start (fst PollerExample.result) (snd PollerExample.result) Hr))).
Defined.

(** * Search *)

Section Search.
Context {E : PyEnv} {W : Web}.

Lemma search_results_filter (ct : str) (items : list item) :
  ct <> [] ->
  search_results (Some ct) items
  = List.filter (fun h => bool_decide (h_type h = ct)) (search_results None items).
Proof.
  intros Hct. induction items as [|it items IH]; [reflexivity|].
  simpl. destruct (_parse_search_result it) as [result|]; [|exact IH].
  destruct ct as [|c ct]; [contradiction|]. simpl.
  cbn [List.filter]. repeat case_bool_decide; try contradiction.
  - exact IH.
  - f_equal. exact IH.
Qed.

(** C10, as the code has it. For every query and every content type that is
    not the empty string, the hits [search] returns are the hits of the
    unfiltered search whose type is that content type, in the same order:
    every hit returned has the type asked for, and no hit of that type is
    dropped. *)
Theorem search_filters_by_type (self : scraper) (query content_type : str) (w : world) :
  content_type <> [] ->
  snd (Scraper.search self query (Some content_type) w)
  = List.filter (fun h => bool_decide (h_type h = content_type))
      (snd (Scraper.search self query None w))
  /\ Forall (fun h => h_type h = content_type)
       (snd (Scraper.search self query (Some content_type) w)).
Proof.
  intros Hct.
  assert (Heq : snd (Scraper.search self query (Some content_type) w)
    = List.filter (fun h => bool_decide (h_type h = content_type))
        (snd (Scraper.search self query None w))).
  { unfold Scraper.search. destruct (send _ _) as [w1 [response|]]; [|reflexivity].
    destruct (raise_for_status response); try reflexivity.
    simpl. apply search_results_filter, Hct. }
  split; [exact Heq|].
  rewrite Heq. apply Forall_forall. intros h Hin.
  apply list_elem_of_In, filter_In in Hin as [_ Hh]. apply bool_decide_eq_true in Hh. exact Hh.
Qed.

End Search.

Lemma search_filters_by_type_witness :
  u "series" <> []
  /\ map h_type (snd (@Scraper.search ascii_env SearchExample.web SearchExample.me
                        (u "dune") (Some (u "series")) SearchExample.start))
     = [u "series"]
  /\ Forall (fun h => h_type h = u "series")
       (snd (@Scraper.search ascii_env SearchExample.web SearchExample.me
               (u "dune") (Some (u "series")) SearchExample.start)).
Proof.
  assert (Hne : u "series" <> []) by discriminate.
  split; [exact Hne|]. split; [vm_compute; reflexivity|].
  exact (proj2 (search_filters_by_type (E:=ascii_env) (W:=SearchExample.web)
                  SearchExample.me (u "dune") (u "series") SearchExample.start Hne)).
Defined.

(** As the specification states it the property fails for a content type that is given
    and empty: the filter is skipped, and the film is returned although its
    type is not the empty string. *)
Lemma search_empty_type_not_filtered :
  map h_type (snd (@Scraper.search ascii_env SearchExample.web SearchExample.me
                     (u "dune") (Some []) SearchExample.start))
  = [u "movie"; u "series"].
Proof. vm_compute. reflexivity. Qed.

(** * The dispatch of [get_show_details] *)

Section Dispatch.
Context {E : PyEnv} {W : Web}.

Lemma insert_not_nil {A : Type} (lt : A -> A -> bool) (x : A) (l : list A) :
  Sort.insert lt x l <> [].
Proof. destruct l as [|y l]; simpl; [discriminate|]. destruct (lt y x); discriminate. Qed.

Lemma sort_not_nil {A : Type} (lt : A -> A -> bool) (l : list A) :
  l <> [] -> Sort.sort lt l <> [].
Proof. destruct l as [|x l]; [congruence|]. intros _. apply insert_not_nil. Qed.

Lemma seasons_of_not_nil (season_links : list str) (seasons : list season) :
  season_links <> [] -> seasons_of season_links = Done seasons -> seasons <> [].
Proof.
  destruct season_links as [|season_url rest]; [congruence|]. intros _. simpl.
  destruct (season_of season_url) as [s| |]; simpl; try discriminate.
  destruct (seasons_of rest) as [ss| |]; simpl; try discriminate.
  intros [= <-]. discriminate.
Qed.

(** The series path, asked for a series, returns at least one season
    whenever it returns at all. *)
Lemma get_series_details_has_seasons (self : scraper) (url : str) (w w1 : world)
    (result : option details) :
  get_series_details self url (u "series") w = (w1, result) ->
  has_seasons result = match result with Some _ => true | None => false end.
Proof.
  unfold get_series_details.
  destruct (send _ _) as [w2 [response|]]; [|now intros [= _ <-]].
  destruct (raise_for_status response); try now intros [= _ <-].
  destruct (_parse_metadata _ _ _ _) as [w3 [metadata|]]; [|now intros [= _ <-]].
  destruct (seasons_of _) as [seasons| |] eqn:Hs; try now intros [= _ <-].
  intros [= _ <-]. simpl.
  destruct (season_links_of (text response) url (u "series")) as [|l ls] eqn:Hl.
  - simpl in Hs. injection Hs as <-.
    unfold season_links_of in Hl.
    destruct (box_links _ _); [|discriminate Hl].
    destruct (season_hrefs _ _); [|discriminate Hl].
    rewrite bool_decide_true in Hl by (intros Hx; vm_compute in Hx; discriminate Hx). simpl in Hl. discriminate Hl.
  - assert (Hne : seasons <> []) by (eapply seasons_of_not_nil; [|exact Hs]; discriminate).
    apply (sort_not_nil season_lt) in Hne.
    destruct (Sort.sort season_lt seasons); [contradiction|reflexivity].
Qed.

(** C3, as the code has it. For every url whose decoded form names no type
    of content, [get_show_details] runs the series path first. It returns
    what the series path returns whenever that has season data, which is
    whenever the series path returns anything; the movie path is the
    fallback, run afterwards, for a series path that failed. *)
Theorem get_show_details_series_first (self : scraper) (url : str) (w : world) :
  names_a_type (unquote url) = false ->
  get_show_details self url w
  = (let '(w1, result) := get_series_details self url (u "series") w in
     match result with
     | Some _ => (w1, result)
     | None => get_movie_details self url w1
     end).
Proof.
  unfold names_a_type, get_show_details. intros Hk.
  repeat (apply orb_false_elim in Hk as [Hk ?]).
  rewrite Hk. repeat match goal with Hc : contains _ _ = false |- _ => rewrite Hc; clear Hc end.
  simpl.
  destruct (get_series_details self url (u "series") w) as [w1 result] eqn:Hs.
  rewrite (get_series_details_has_seasons _ _ _ _ _ Hs).
  destruct result; reflexivity.
Qed.

End Dispatch.

Lemma get_show_details_series_first_witness :
  names_a_type (@unquote ascii_env ShowExample.show_url) = false
  /\ @get_show_details ascii_env ShowExample.web ShowExample.me ShowExample.show_url
       ShowExample.start
     = (World [GET 0 ShowExample.show_url] 1, Some ShowExample.series_details).
Proof.
  assert (Hk : names_a_type (@unquote ascii_env ShowExample.show_url) = false)
    by (vm_compute; reflexivity).
  split; [exact Hk|].
  rewrite (get_show_details_series_first (E:=ascii_env) (W:=ShowExample.web)
             ShowExample.me ShowExample.show_url ShowExample.start Hk).
  vm_compute. reflexivity.
Defined.

(** As the specification words it the property fails: on this site the code
    asks for the page once and returns the series with its season, and
    never runs the movie path, which would have asked for the watch page. *)
Lemma get_show_details_not_movie_first :
  @get_show_details ascii_env ShowExample.web ShowExample.me ShowExample.show_url
     ShowExample.start
  = (World [GET 0 ShowExample.show_url] 1, Some ShowExample.series_details)
  /\ @movie_path_first ascii_env ShowExample.web ShowExample.me ShowExample.show_url
       ShowExample.start
     = (World [GET 0 ShowExample.show_url;
               GET 0 (u "https://topcinema.rip/dune-prophecy/watch/");
               GET 0 ShowExample.show_url] 1,
        Some ShowExample.series_details)
  /\ @get_show_details ascii_env ShowExample.web ShowExample.me ShowExample.show_url
       ShowExample.start
     <> @movie_path_first ascii_env ShowExample.web ShowExample.me ShowExample.show_url
          ShowExample.start.
Proof.
  split; [vm_compute; reflexivity|]. split; [vm_compute; reflexivity|].
  intros Hx. vm_compute in Hx. discriminate Hx.
Qed.

(** * The season part *)

Module PartFacts.

Import Re ReSpec ReFacts PartSpec.

Section Part.
Context {E : PyEnv}.

Lemma denote_lit_ci (word : str) : forall p w t,
  denote (lit_ci word) p w t <-> same_word word w.
Proof.
  unfold same_word. induction word as [|pc word IH]; intros p w t; simpl.
  - split.
    + inversion 1; subst. constructor.
    + inversion 1; subst. constructor.
  - split.
    + inversion 1 as [| |a b p' w1 w2 t' H1 H2| | | | | | | | | | |]; subst.
      apply denote_chr_inv in H1 as (c & -> & Hc). simpl.
      constructor; [exact Hc|]. eapply IH. exact H2.
    + inversion 1 as [|pc' c word' w' Hc Hw]; subst.
      change (c :: w') with ([c] ++ w'). constructor.
      * now constructor.
      * apply IH. exact Hw.
Qed.

Lemma denote_alts (rs : list re) p w t :
  denote (alts rs) p w t <-> exists r, In r rs /\ denote r p w t.
Proof.
  induction rs as [|r rs IH].
  - simpl. split; [|intros (r & [] & _)]. intros Hd.
    apply denote_chr_inv in Hd as (c & _ & Hc). discriminate.
  - destruct rs as [|r' rs].
    + simpl. split; [eauto|]. intros (r0 & [<-|[]] & Hd). exact Hd.
    + change (alts (r :: r' :: rs)) with (Alt r (alts (r' :: rs))). split.
      * intros Hd. inversion Hd as [| | |a b p' w' t' H1|a b p' w' t' H1| | | | | | | | |]; subst.
        -- exists r. split; [now left|exact H1].
        -- apply IH in H1 as (r0 & Hin & H1). exists r0. split; [now right|exact H1].
      * intros (r0 & [<-|Hin] & Hd); [now apply d_alt_l|].
        apply d_alt_r, IH. eauto.
Qed.

Lemma denote_opt_one_of (cs : str) p w t :
  denote (Opt (one_of cs)) p w t <-> w = [] \/ exists c, w = [c] /\ In c cs.
Proof.
  split.
  - inversion 1; subst; [|now left]. right.
    match goal with Hd : denote (one_of _) _ _ _ |- _ =>
      apply denote_chr_inv in Hd as (c & -> & Hc) end.
    exists c. split; [reflexivity|]. apply existsb_exists in Hc as (x & Hin & Hx).
    apply N.eqb_eq in Hx. now subst.
  - intros [->|(c & -> & Hc)]; [apply d_opt_none|]. apply d_opt_some. constructor.
    apply existsb_exists. exists c. split; [exact Hc|apply N.eqb_refl].
Qed.

Lemma occurs_numbered (t : str) : occurs numbered_re t <-> numbered_part_marker t.
Proof.
  unfold occurs, numbered_part_marker, numbered_re. split.
  - intros (pre & w & post & -> & Hd).
    apply denote_seq in Hd as (kw & w2 & -> & H1 & H2).
    apply denote_seq in H2 as (sep & ds & -> & H3 & H4).
    apply denote_grp, denote_digits in H4.
    apply denote_alts in H1 as (r & Hin & H1). apply in_map_iff in Hin as (word & <- & Hin).
    apply denote_lit_ci in H1. apply denote_opt_one_of in H3.
    exists pre, kw, sep, ds, post. rewrite <- !app_assoc. split; [reflexivity|].
    split; [eauto|]. split; [|assumption].
    destruct H3 as [->|(c & -> & [<-|[<-|[]]])]; auto.
  - intros (pre & kw & sep & ds & post & -> & (word & Hin & Hw) & Hsep & Hds).
    exists pre, (kw ++ sep ++ ds), post. rewrite <- !app_assoc. split; [reflexivity|].
    apply denote_seq. exists kw, (sep ++ ds). split; [reflexivity|]. split.
    + apply denote_alts. exists (lit_ci word). split; [now apply in_map|].
      now apply denote_lit_ci.
    + apply denote_seq. exists sep, ds. split; [reflexivity|]. split.
      * apply denote_opt_one_of. destruct Hsep as [->|[->| ->]]; [now left|right|right].
        -- exists 45%N. split; [reflexivity|]. now left.
        -- exists 32%N. split; [reflexivity|]. right. now left.
      * now apply denote_grp, denote_digits.
Qed.

Lemma occurs_short (t : str) : occurs short_re t <-> short_part_marker t.
Proof.
  unfold occurs, short_part_marker, short_re. split.
  - intros (pre & w & post & -> & Hd).
    apply denote_seq in Hd as (w1 & ds & -> & H1 & H2).
    apply denote_chr_inv in H1 as (c & -> & Hc).
    apply denote_grp, denote_digits in H2.
    exists pre, c, ds, post. auto.
  - intros (pre & p & ds & post & -> & Hp & Hds).
    exists pre, (p :: ds), post. split; [reflexivity|].
    apply denote_seq. exists [p], ds. split; [reflexivity|]. split; [now constructor|].
    now apply denote_grp, denote_digits.
Qed.

Lemma occurs_alt (a b : re) (t : str) : occurs (Alt a b) t <-> occurs a t \/ occurs b t.
Proof.
  unfold occurs. split.
  - intros (pre & w & post & Ht & Hd). inversion Hd; subst; [left|right]; eauto 6.
  - intros [(pre & w & post & Ht & Hd)|(pre & w & post & Ht & Hd)];
      exists pre, w, post; (split; [exact Ht|]); [now apply d_alt_l|now apply d_alt_r].
Qed.

(** The pattern of [extract_season_part] finds a match exactly in the texts
    with a numbered or a short part marker. *)
Lemma search_part_or_p (t : str) :
  Re.search part_or_p_re t <> None <-> numbered_part_marker t \/ short_part_marker t.
Proof.
  rewrite search_occurs. change part_or_p_re with (Alt numbered_re short_re).
  now rewrite occurs_alt, occurs_numbered, occurs_short.
Qed.

(** And the number it captures is a string of digits. *)
Lemma search_part_or_p_group (t : str) (mt : mstate) :
  Re.search part_or_p_re t = Some mt ->
  exists ds, first_group [1; 2]%nat (groups mt) = Some ds /\ number ds.
Proof.
  intros Hs. apply search_from_sound in Hs as (pre & w & _ & _ & Hin).
  change part_or_p_re with (Alt numbered_re short_re) in Hin.
  rewrite m_alt in Hin. apply in_app_iff in Hin as [Hin|Hin].
  - apply (m_ends_in_group 1 (Plus digit)) in Hin as (w1 & w2 & _ & Hd & Hg);
      [|repeat constructor|reflexivity].
    apply denote_digits in Hd. exists w2. split; [|exact Hd].
    rewrite Hg. simpl. destruct Hd as [Hne _]. destruct w2; [contradiction|reflexivity].
  - apply (m_ends_in_group 2 (Plus digit)) in Hin as (w1 & w2 & _ & Hd & Hg);
      [|repeat constructor|reflexivity].
    apply denote_digits in Hd. exists w2. split; [|exact Hd].
    rewrite Hg. simpl. destruct Hd as [Hne _]. destruct w2; [contradiction|reflexivity].
Qed.

Lemma startswith_spec (p s : str) :
  startswith p s = true <-> exists post, s = p ++ post.
Proof.
  revert s. induction p as [|a p IH]; intros s; simpl.
  - split; eauto.
  - destruct s as [|b s]; [split; [discriminate|intros (post & Hp); discriminate]|].
    rewrite andb_true_iff, N.eqb_eq, IH. split.
    + intros (-> & post & ->). eauto.
    + intros (post & [= -> ->]). eauto.
Qed.

Lemma contains_spec (p s : str) :
  contains p s = true <-> exists pre post, s = pre ++ p ++ post.
Proof.
  induction s as [|c s IH]; simpl.
  - rewrite orb_false_r, startswith_spec. split.
    + intros (post & ->). exists [], post. reflexivity.
    + intros (pre & post & Hs). destruct pre; [eauto|discriminate].
  - rewrite orb_true_iff, startswith_spec, IH. split.
    + intros [(post & ->)|(pre & post & ->)]; [exists [], post|exists (c :: pre), post];
        reflexivity.
    + intros ([|c' pre] & post & Hs); [left; eauto|right].
      injection Hs as <- ->. eauto.
Qed.

Lemma contains_part_digit (d : N) (t : str) :
  is_decimal d = true -> contains (u "part " ++ [d]) t = true -> numbered_part_marker t.
Proof.
  intros Hd (pre & post & ->)%contains_spec.
  exists pre, (u "part"), (u " "), [d], post. split; [reflexivity|].
  split; [exists (u "part"); split; [now left|repeat constructor]|].
  split; [auto|]. split; [discriminate|]. constructor; [exact Hd|constructor].
Qed.

End Part.

End PartFacts.

Section SeasonPart.
Context {E : PyEnv}.
Import Re ReSpec ReFacts PartSpec PartFacts.

(** C4, as the code has it. [extract_season_part] returns a part exactly for
    the texts that, decoded and in lower case, hold one of the markers the
    specification lists (an explicit part marker in either script, a cour
    synonym) or the letter p right before a number; and what it returns is
    always "Part " followed by digits. *)
Theorem extract_season_part_markers (text : str) :
  (extract_season_part text <> None
   <-> listed_marker (lower (unquote text)) \/ short_part_marker (lower (unquote text)))
  /\ (forall r, extract_season_part text = Some r ->
        exists n, r = u "Part " ++ n /\ number n).
Proof.
  unfold extract_season_part, listed_marker.
  set (t := lower (unquote text)).
  pose proof (search_part_or_p t) as Hs.
  destruct (Re.search part_or_p_re t) as [mt|] eqn:Hm.
  - destruct (search_part_or_p_group _ _ Hm) as (ds & -> & Hds).
    split.
    + split; [intros _|discriminate].
      destruct (proj1 Hs ltac:(discriminate)) as [Hn|Hp]; auto.
    + intros r [= <-]. eauto.
  - assert (Hnone : ~ (numbered_part_marker t \/ short_part_marker t)) by (rewrite <- Hs; auto).
    assert (H2 : contains (u "part 2") t = false).
    { destruct (contains (u "part 2") t) eqn:Hc; [|reflexivity].
      exfalso. apply Hnone. left. now apply (contains_part_digit 50). }
    assert (H1 : contains (u "part 1") t = false).
    { destruct (contains (u "part 1") t) eqn:Hc; [|reflexivity].
      exfalso. apply Hnone. left. now apply (contains_part_digit 49). }
    rewrite H2, H1, !orb_false_r. unfold ordinal_part_marker, cour_synonym.
    assert (Hd : forall c, between 48 57 c = true -> number [c]).
    { intros c Hc. split; [discriminate|]. constructor; [|constructor].
      unfold is_decimal, decimal_value. now rewrite Hc. }
    destruct (contains (u "الجزء الثاني") t) eqn:Ha2; simpl.
    { split; [split; [intros _; left; right; left; reflexivity|discriminate]|].
      intros r [= <-]. exists [50%N]. split; [reflexivity|]. now apply Hd. }
    destruct (contains (u "cour 2") t) eqn:Hc2; simpl.
    { split; [split; [intros _; left; right; right; reflexivity|discriminate]|].
      intros r [= <-]. exists [50%N]. split; [reflexivity|]. now apply Hd. }
    destruct (contains (u "الجزء الاول") t) eqn:Ha1; simpl.
    { split; [split; [intros _; left; right; left; reflexivity|discriminate]|].
      intros r [= <-]. exists [49%N]. split; [reflexivity|]. now apply Hd. }
    destruct (contains (u "cour 1") t) eqn:Hc1; simpl.
    { split; [split; [intros _; left; right; right; reflexivity|discriminate]|].
      intros r [= <-]. exists [49%N]. split; [reflexivity|]. now apply Hd. }
    split; [|discriminate]. split; [congruence|].
    intros [[Hn|[Ho|Ho]]|Hp]; try discriminate; exfalso; apply Hnone; auto.
Qed.

End SeasonPart.

(** As the specification states it the property fails: the address of a
    season of a show called "top10" holds no part marker and no cour
    synonym, and the code reads a part 10 in it. *)
Lemma extract_season_part_without_marker :
  @extract_season_part ascii_env (u "https://topcinema.rip/series/top10/") = Some (u "Part 10")
  /\ ~ @PartSpec.listed_marker ascii_env
        (@lower ascii_env (@unquote ascii_env (u "https://topcinema.rip/series/top10/"))).
Proof.
  split; [vm_compute; reflexivity|].
  intros [Hn|[Ho|Ho]].
  - apply PartFacts.occurs_numbered, ReFacts.search_occurs in Hn. apply Hn.
    vm_compute. reflexivity.
  - vm_compute in Ho. discriminate Ho.
  - vm_compute in Ho. discriminate Ho.
Qed.

(** * The season crawl *)

Module CrawlFacts.

Import SortSpec CrawlSpec.

Section Crawl.
Context {E : PyEnv} {W : Web}.

Lemma parse_episode_number_regular (s : str) : regular (parse_episode_number s).
Proof.
  unfold parse_episode_number. destruct s as [|c s]; [exact I|].
  destruct (_ || _); [exact I|].
  destruct (Re.search _ _) as [mt|]; [|exact I].
  destruct (Re.group _ _) as [g|]; [|exact I].
  destruct (Float.of_decimal g) as [x|] eqn:Hx; [|exact I].
  eapply FloatFacts.of_decimal_regular. exact Hx.
Qed.

Lemma parse_episode_number_normal (s : str) :
  Float.normal (parse_episode_number s) = true.
Proof.
  assert (Hno : Float.normal NO_NUMBER = true) by apply FloatFacts.div_N_normal.
  unfold parse_episode_number. destruct s as [|c s]; [exact Hno|].
  destruct (_ || _); [reflexivity|].
  destruct (Re.search _ _) as [mt|]; [|exact Hno].
  destruct (Re.group _ _) as [g|]; [|exact Hno].
  destruct (Float.of_decimal g) as [x|] eqn:Hx; [|exact Hno].
  eapply FloatFacts.of_decimal_normal. exact Hx.
Qed.

(** One episode is before another in the sort exactly when the value of its
    key is the smaller. *)
Lemma episode_lt_ticks (a b : episode) :
  episode_lt a b = (Float.ticks (key a) <? Float.ticks (key b))%Z.
Proof.
  apply FloatFacts.ltb_ticks;
    first [apply parse_episode_number_regular|apply parse_episode_number_normal].
Qed.

(** The keys of the episodes are ordered by [<]. *)
Lemma episode_lt_asym (a b : episode) : episode_lt a b = true -> episode_lt b a = false.
Proof. apply FloatFacts.ltb_asym; apply parse_episode_number_regular. Qed.

Lemma episode_not_lt_trans (a b c : episode) :
  episode_lt b a = false -> episode_lt c b = false -> episode_lt c a = false.
Proof. apply FloatFacts.not_ltb_trans; apply parse_episode_number_regular. Qed.

Lemma sort_episodes_ascending (eps : list episode) :
  ascending (Sort.sort episode_lt eps).
Proof.
  apply (SortFacts.sort_sorted episode_lt (fun _ => True)).
  - intros a b _ _. apply episode_lt_asym.
  - intros a b c _ _ _. apply episode_not_lt_trans.
  - apply Forall_forall. auto.
Qed.

(** What a round that goes on changes. *)
Lemma crawl_round_next self base_url first_try_url use_list st w w1 st' :
  crawl_round self base_url first_try_url use_list st w = (w1, Next st') ->
  (page st' = (page st + 1)%N /\ fallback_mode st' = fallback_mode st)
  \/ (page st' = page st /\ fallback_mode st = false /\ fallback_mode st' = true).
Proof.
  unfold crawl_round, on_failure.
  destruct (send _ _) as [w2 [response|]].
  2: { destruct (page st =? 1)%N; discriminate. }
  destruct (_ && negb (fallback_mode st)) eqn:Hf.
  { intros [= _ <-]. right. simpl. apply andb_prop in Hf as [_ Hf].
    apply negb_true_iff in Hf. auto. }
  destruct (raise_for_status response).
  2,3: destruct (page st =? 1)%N; discriminate.
  destruct (episode_anchors_of _) as [|anc ancs]; [discriminate|].
  destruct (page_episodes_of _ _) as [[|ep eps] seen]; [discriminate|].
  destruct (_ || _); [|discriminate].
  intros [= _ <-]. left. auto.
Qed.

(** The loop ends: with more fuel than rounds are left, it is never the
    fuel that stops it. *)
Lemma crawl_total self base_url first_try_url use_list : forall fuel st w,
  (rounds_left st < fuel)%nat ->
  snd (crawl fuel self base_url first_try_url use_list st w) <> Hangs.
Proof.
  induction fuel as [|fuel IH]; intros st w Hfuel; [lia|]. simpl.
  destruct (N.leb_spec (page st) max_pages) as [Hp|Hp]; [|discriminate].
  destruct (crawl_round _ _ _ _ _ _) as [w1 [st'| |]] eqn:Hr; try discriminate.
  apply IH. apply crawl_round_next in Hr. unfold rounds_left, max_pages in *.
  destruct Hr as [[Hpg Hfb]|(Hpg & Hfb & Hfb')]; rewrite ?Hpg, ?Hfb, ?Hfb' in *.
  - destruct (fallback_mode st); lia.
  - lia.
Qed.

Lemma crawl_from_start_total self base_url first_try_url use_list w :
  snd (crawl 52 self base_url first_try_url use_list crawl_start w) <> Hangs.
Proof. apply crawl_total. vm_compute. lia. Qed.

(** C2, as the code has it. The episodes of a season crawl are the episodes
    the pages gave, sorted by their key: the list is a rearrangement of
    what was crawled in which the keys never go down, whatever the order
    of the pages. One entry is before another exactly when the value of
    its key is the smaller. The key of "Special" and of "0" is 0, so those
    entries come first; the key of an entry without any number, such as
    "OVA" or "Movie", is 99999, the key of an episode numbered 99999. *)
Theorem parse_season_sorted_by_key (self : scraper) (season_url : str) (w w' : world)
    (sd : season_data) :
  _parse_season self season_url w = (w', Some sd) ->
  ascending (sd_episodes sd)
  /\ (exists crawled w1,
        crawl 52 self (rstrip_cp 47 season_url)
          (if negb (endswith (u "/list") (rstrip_cp 47 season_url))
           then rstrip_cp 47 season_url ++ u "/list" else rstrip_cp 47 season_url)
          (negb (endswith (u "/list") (rstrip_cp 47 season_url))) crawl_start w
        = (w1, Done crawled)
        /\ sd_episodes sd = Sort.sort episode_lt crawled
        /\ Permutation (sd_episodes sd) crawled)
  /\ parse_episode_number (u "Special") = Float.of_N 0
  /\ parse_episode_number (u "0") = Float.of_N 0
  /\ parse_episode_number (u "OVA") = Float.of_N 99999
  /\ parse_episode_number (u "Movie") = Float.of_N 99999
  /\ (forall a b : episode,
        episode_lt a b = (Float.ticks (key a) <? Float.ticks (key b))%Z)
  /\ Float.ticks (Float.of_N 0) = 0%Z
  /\ Float.ticks (Float.of_N 99999) = (99999 * 2 ^ 1074)%Z
  /\ Float.of_decimal (u "99999") = Some (Float.of_N 99999).
Proof.
  unfold _parse_season. intros Hp.
  destruct (extract_season_number season_url) as [season_num| |]; try discriminate.
  cbv zeta in Hp.
  set (base := rstrip_cp 47 season_url) in *.
  set (use_list := negb (endswith (u "/list") base)) in *.
  assert (Hfirst : (if use_list then if use_list then base ++ u "/list" else base else base)
                   = (if use_list then base ++ u "/list" else base))
    by (destruct use_list; reflexivity).
  rewrite Hfirst in Hp.
  destruct (crawl 52 _ _ _ _ _ _) as [w1 [crawled| |]] eqn:Hc; try discriminate.
  destruct (send _ _) as [w2 [response|]]; [|discriminate].
  injection Hp as _ <-. simpl.
  split; [apply sort_episodes_ascending|].
  split.
  { exists crawled, w1. split; [first [exact Hc|reflexivity]|].
    split; [reflexivity|]. apply SortFacts.sort_perm. }
  do 4 (split; [vm_compute; reflexivity|]).
  split; [apply episode_lt_ticks|].
  repeat split; vm_compute; reflexivity.
Qed.

End Crawl.

End CrawlFacts.

(** The sort on entries without a number: an OVA counts as episode 99999,
    after episode 1 and before episode 100000. *)
Example sort_by_key_example :
  @Sort.sort episode (@episode_lt ascii_env)
     [CrawlExample.an_ova; CrawlExample.a_late; CrawlExample.the_first;
      CrawlExample.the_special]
  = [CrawlExample.the_special; CrawlExample.the_first; CrawlExample.an_ova;
     CrawlExample.a_late].
Proof. vm_compute. reflexivity. Qed.

Lemma parse_season_sorted_by_key_witness :
  @_parse_season ascii_env CrawlExample.web CrawlExample.me CrawlExample.season_url
     CrawlExample.start = CrawlExample.result
  /\ @CrawlSpec.ascending ascii_env [CrawlExample.the_special; CrawlExample.the_first].
Proof.
  assert (Hr : @_parse_season ascii_env CrawlExample.web CrawlExample.me
                 CrawlExample.season_url CrawlExample.start = CrawlExample.result)
    by (vm_compute; reflexivity).
  split; [exact Hr|].
  exact (proj1 (CrawlFacts.parse_season_sorted_by_key (E:=ascii_env) (W:=CrawlExample.web)
           CrawlExample.me CrawlExample.season_url CrawlExample.start _ _ Hr)).
Defined.

(** As the specification states it the property fails: a season whose page
    lists episode 1 and then a special is returned with the special first,
    before the numbered episode. *)
Lemma parse_season_special_first :
  @_parse_season ascii_env CrawlExample.web CrawlExample.me CrawlExample.season_url
     CrawlExample.start = CrawlExample.result
  /\ ~ @CrawlSpec.stated_order ascii_env [CrawlExample.the_special; CrawlExample.the_first].
Proof.
  split; [vm_compute; reflexivity|].
  intros Hs. inversion Hs as [|a l _ Hall]; subst.
  apply Forall_inv in Hall. vm_compute in Hall. discriminate Hall.
Qed.

(** * Failures of the crawl *)

Section Failures.
Context {E : PyEnv} {W : Web}.
Import SortSpec CrawlSpec CrawlFacts FailureSpec.

Lemma crawl_round_failure self season_url st w :
  page_fetch_fails self season_url st w ->
  crawl_round self (base_of season_url) (first_try_of season_url) (use_list_of season_url) st w
  = (after w (page_request self season_url st), on_failure st).
Proof.
  unfold page_fetch_fails, crawl_round, send, page_request, after.
  destruct (http _ _) as [response|]; [|reflexivity].
  intros [-> ->]. reflexivity.
Qed.

Lemma parse_season_unfold self season_url w :
  _parse_season self season_url w
  = match extract_season_number season_url with
    | Done season_num =>
        let '(w1, r) :=
          crawl 52 self (base_of season_url) (first_try_of season_url)
            (use_list_of season_url) crawl_start w in
        match r with
        | Done all_episodes =>
            match http (log w1) (poster_request self season_url) with
            | Some response =>
                (after w1 (poster_request self season_url),
                 Some {| sd_season_number := season_num;
                         sd_poster := poster_of (text response);
                         sd_episodes := Sort.sort episode_lt all_episodes |})
            | None => (after w1 (poster_request self season_url), None)
            end
        | _ => (w1, None)
        end
    | _ => (w, None)
    end.
Proof.
  unfold _parse_season.
  destruct (extract_season_number season_url) as [season_num| |]; [|reflexivity|reflexivity].
  unfold first_try_of, use_list_of, poster_request, after, crawl_start, base_of.
  cbv zeta.
  destruct (negb (endswith (u "/list") (rstrip_cp 47 season_url))); cbv iota;
    (destruct (crawl 52 _ _ _ _ _ _) as [w1 [eps| |]]; [|reflexivity|reflexivity]);
    unfold send; destruct (http _ _); reflexivity.
Qed.

(** A round passes the exception on only at page 1, and only when the
    fetch of the page failed. *)
Lemma crawl_round_reraise self season_url st w w1 :
  crawl_round self (base_of season_url) (first_try_of season_url) (use_list_of season_url) st w
  = (w1, Reraise) ->
  page st = 1%N /\ page_fetch_fails self season_url st w.
Proof.
  unfold crawl_round, on_failure, send, page_fetch_fails, page_request.
  destruct (http _ _) as [response|].
  2: { destruct (N.eqb_spec (page st) 1); [auto|discriminate]. }
  destruct (_ && negb (fallback_mode st)) eqn:Hf; [discriminate|].
  unfold raise_for_status. destruct (between 400 599 (status_code response)).
  - destruct (N.eqb_spec (page st) 1); [auto|discriminate].
  - destruct (episode_anchors_of _); [discriminate|].
    destruct (page_episodes_of _ _) as [[|ep eps] seen]; [discriminate|].
    destruct (_ || _); discriminate.
Qed.

(** The round that turns the fallback on: the first page, asked at the list
    address, was answered 404. *)
Lemma crawl_round_fallback self season_url st w w1 st' :
  crawl_round self (base_of season_url) (first_try_of season_url) (use_list_of season_url) st w
  = (w1, Next st') ->
  page st' = page st ->
  (exists response,
      http (log w) (page_request self season_url st) = Some response
      /\ status_code response = 404%N)
  /\ use_list_of season_url = true
  /\ page st = 1%N
  /\ st' = CrawlState (page st) true (all_episodes st) (seen_urls st)
  /\ w1 = after w (page_request self season_url st).
Proof.
  unfold crawl_round, on_failure, send, page_request, after.
  destruct (http _ _) as [response|].
  2: { destruct (page st =? 1)%N; discriminate. }
  destruct (_ && negb (fallback_mode st)) eqn:Hf.
  { intros [= <- <-] _.
    apply andb_prop in Hf as [Hf _]. apply andb_prop in Hf as [Hf Hu].
    apply andb_prop in Hf as [Hs Hp].
    apply N.eqb_eq in Hs, Hp. repeat split; eauto. }
  destruct (raise_for_status response).
  2,3: destruct (page st =? 1)%N; discriminate.
  destruct (episode_anchors_of _) as [|anc ancs]; [discriminate|].
  destruct (page_episodes_of _ _) as [[|ep eps] seen]; [discriminate|].
  destruct (_ || _); [|discriminate].
  intros [= _ <-] Hp. simpl in Hp. lia.
Qed.

(** Past the first page no exception leaves the loop. *)
Lemma crawl_later_pages self season_url : forall fuel st w w1,
  (1 < page st)%N ->
  crawl fuel self (base_of season_url) (first_try_of season_url) (use_list_of season_url) st w
  <> (w1, Raised).
Proof.
  induction fuel as [|fuel IH]; intros st w w1 Hp; [discriminate|]. cbn [crawl].
  destruct (page st <=? max_pages)%N; [|discriminate].
  destruct (crawl_round _ _ _ _ _ _) as [w2 [st'| |]] eqn:Hr; [|discriminate|].
  - apply IH. apply crawl_round_next in Hr as [[Hpg _]|[Hpg _]]; lia.
  - apply crawl_round_reraise in Hr as [Hpg _]. lia.
Qed.

Lemma crawl_start_falls_back self season_url w :
  list_not_found self season_url w ->
  crawl_round self (base_of season_url) (first_try_of season_url) (use_list_of season_url)
    crawl_start w
  = (after w (page_request self season_url crawl_start), Next fallback_start).
Proof.
  intros [Hu (response & Hr & Hs)].
  unfold crawl_round, send, after. fold (page_request self season_url crawl_start).
  rewrite Hr, Hs, Hu. reflexivity.
Qed.

Lemma crawl_step fuel self base_url first_try_url use_list st w :
  crawl (S fuel) self base_url first_try_url use_list st w
  = if (page st <=? max_pages)%N then
      let '(w1, r) := crawl_round self base_url first_try_url use_list st w in
      match r with
      | Next st' => crawl fuel self base_url first_try_url use_list st' w1
      | Break st' => (w1, Done (all_episodes st'))
      | Reraise => (w1, Raised)
      end
    else (w, Done (all_episodes st)).
Proof. reflexivity. Qed.

(** The loop of a crawl ends with an exception exactly when the fetch of
    the first page fails. *)
Lemma crawl_raises_iff self season_url w :
  (exists w1,
      crawl 52 self (base_of season_url) (first_try_of season_url) (use_list_of season_url)
        crawl_start w = (w1, Raised))
  <-> first_page_fails self season_url w.
Proof.
  rewrite (crawl_step 51).
  change (page crawl_start <=? max_pages)%N with true. cbv iota. split.
  - intros [w1 Hc].
    destruct (crawl_round _ _ _ _ crawl_start w) as [w2 [st'| |]] eqn:Hr; [|discriminate|].
    + destruct (N.eq_dec (page st') (page crawl_start)) as [Hpg|Hpg].
      * apply crawl_round_fallback in Hr as (Hres & Hu & _ & -> & ->); [|exact Hpg].
        right. split; [split; assumption|].
        change (CrawlState (page crawl_start) true (all_episodes crawl_start)
                  (seen_urls crawl_start)) with fallback_start in Hc.
        rewrite (crawl_step 50) in Hc.
        change (page fallback_start <=? max_pages)%N with true in Hc. cbv iota in Hc.
        destruct (crawl_round _ _ _ _ fallback_start _) as [w3 [st''| |]] eqn:Hr2;
          [|discriminate|].
        -- exfalso. eapply crawl_later_pages; [|exact Hc].
           apply crawl_round_next in Hr2 as [[Hp2 _]|(_ & Hf & _)];
             [rewrite Hp2; reflexivity|discriminate Hf].
        -- apply crawl_round_reraise in Hr2 as [_ Hfail]. exact Hfail.
      * exfalso. eapply crawl_later_pages; [|exact Hc].
        apply crawl_round_next in Hr as [[Hp2 _]|[Hp2 _]];
          [rewrite Hp2; reflexivity|contradiction].
    + left. apply crawl_round_reraise in Hr as [_ Hfail]. exact Hfail.
  - intros [Hfail|[Hnf Hfail]].
    + rewrite (crawl_round_failure _ _ _ _ Hfail). eexists. reflexivity.
    + rewrite (crawl_start_falls_back _ _ _ Hnf), (crawl_step 50).
      change (page fallback_start <=? max_pages)%N with true. cbv iota.
      rewrite (crawl_round_failure _ _ _ _ Hfail). eexists. reflexivity.
Qed.

(** C9, as the code has it. The fetch of the first page fails when the
    request for it raises or is answered with an error status, at the
    first address or, after a 404 for the list address, at the base
    address asked next. The loop of the crawl ends with an exception
    exactly then, and [_parse_season] itself catches it: it returns no
    result, and [fetch_season_episodes] turns that into the empty list and
    leaves the season as it was. A failure on a later page ends the loop
    with the episodes of the pages before it, and [_parse_season] returns
    them, sorted by their key, when the request for the poster that follows
    is answered. *)
Theorem crawl_failures (self : scraper) (season_url : str) :
  (forall w,
      first_page_fails self season_url w ->
      (exists w1, _parse_season self season_url w = (w1, None))
      /\ forall (ref : nat) (h : gmap nat season) (s : season),
           h !! ref = Some s -> s_episodes s = [] -> s_url s = Some season_url ->
           exists w1, fetch_season_episodes self ref h w = (h, w1, []))
  /\ (forall w,
        (exists w1,
            crawl 52 self (base_of season_url) (first_try_of season_url)
              (use_list_of season_url) crawl_start w = (w1, Raised))
        <-> first_page_fails self season_url w)
  /\ (forall st w fuel,
        page st <> 1%N -> (page st <= max_pages)%N ->
        page_fetch_fails self season_url st w ->
        crawl (S fuel) self (base_of season_url) (first_try_of season_url)
          (use_list_of season_url) st w
        = (after w (page_request self season_url st), Done (all_episodes st)))
  /\ (forall w w1 eps season_num response,
        extract_season_number season_url = Done season_num ->
        crawl 52 self (base_of season_url) (first_try_of season_url)
          (use_list_of season_url) crawl_start w = (w1, Done eps) ->
        http (log w1) (poster_request self season_url) = Some response ->
        _parse_season self season_url w
        = (after w1 (poster_request self season_url),
           Some (SeasonData season_num (poster_of (text response))
                   (Sort.sort episode_lt eps)))
        /\ ascending (Sort.sort episode_lt eps)).
Proof.
  split; [|split; [|split]].
  - intros w Hfail.
    assert (Hnone : exists w1, _parse_season self season_url w = (w1, None)).
    { rewrite parse_season_unfold.
      destruct (extract_season_number season_url); eauto.
      apply crawl_raises_iff in Hfail as [w1 ->]. eauto. }
    split; [exact Hnone|].
    intros ref h s Hh He Hu. destruct Hnone as [w1 Hnone].
    unfold fetch_season_episodes. rewrite Hh, He, Hu.
    destruct season_url as [|c season_url']; [cbn [truthy]; eauto|].
    cbn [truthy]. rewrite Hnone. eauto.
  - intros w. apply crawl_raises_iff.
  - intros st w fuel Hp1 Hp Hfail. rewrite crawl_step.
    apply N.leb_le in Hp. rewrite Hp.
    rewrite (crawl_round_failure _ _ _ _ Hfail).
    unfold on_failure. apply N.eqb_neq in Hp1. rewrite Hp1. reflexivity.
  - intros w w1 eps season_num response Hn Hc Hr.
    split; [|apply sort_episodes_ascending].
    rewrite parse_season_unfold, Hn, Hc, Hr. reflexivity.
Qed.

End Failures.

(** A site that answers 404 to the list address and to the base address: the
    first page has failed, and the caller gets the empty list. *)
Lemma crawl_failures_witness :
  @FailureSpec.first_page_fails FailureExample.gone FailureExample.me
     FailureExample.season_url FailureExample.start
  /\ exists w1,
       @fetch_season_episodes ascii_env FailureExample.gone FailureExample.me 0
         FailureExample.store FailureExample.start
       = (FailureExample.store, w1, []).
Proof.
  assert (Hf : @FailureSpec.first_page_fails FailureExample.gone FailureExample.me
                 FailureExample.season_url FailureExample.start).
  { right. split.
    - split; [reflexivity|]. eexists. split; reflexivity.
    - split; reflexivity. }
  split; [exact Hf|].
  apply (proj2 (proj1 (crawl_failures (E:=ascii_env) (W:=FailureExample.gone)
                         FailureExample.me FailureExample.season_url)
                  FailureExample.start Hf)
           0%nat FailureExample.store FailureExample.the_season);
    reflexivity.
Defined.

(** As the specification states it the property fails: on a site that does not
    answer, and on a site that answers 404 to every request, the caller of
    [fetch_season_episodes] gets the empty list, the very answer it gets for
    a season that has no episode. *)
Lemma first_page_failure_gives_empty_list :
  @fetch_season_episodes ascii_env FailureExample.down FailureExample.me 0
     FailureExample.store FailureExample.start
  = (FailureExample.store,
     World [GET 0 (u "https://topcinema.rip/series/show-season-1/list")] 1,
     [])
  /\ @fetch_season_episodes ascii_env FailureExample.gone FailureExample.me 0
       FailureExample.store FailureExample.start
     = (FailureExample.store,
        World [GET 0 (u "https://topcinema.rip/series/show-season-1/list");
               GET 0 (u "https://topcinema.rip/series/show-season-1")] 1,
        [])
  /\ @fetch_season_episodes ascii_env FailureExample.bare FailureExample.me 0
       FailureExample.store FailureExample.start
     = (FailureExample.store,
        World [GET 0 (u "https://topcinema.rip/series/show-season-1/list");
               GET 0 (u "https://topcinema.rip/series/show-season-1/")] 1,
        []).
Proof. repeat split; vm_compute; reflexivity. Qed.

(** * The lazy fetches *)

Section FetchOnce.
Context {E : PyEnv} {W : Web}.
Import FetchSpec.

(** A season that has its episodes is not fetched again. *)
Lemma fetch_season_episodes_cached (self : scraper) (ref : nat) (h : gmap nat season)
    (w : world) (s : season) :
  h !! ref = Some s -> s_episodes s <> [] ->
  fetch_season_episodes self ref h w = (h, w, s_episodes s).
Proof.
  intros Hh He. unfold fetch_season_episodes. rewrite Hh.
  destruct (s_episodes s); [contradiction|reflexivity].
Qed.

(** An episode that has its servers is not fetched again. *)
Lemma fetch_episode_servers_cached (self : scraper) (ref : nat) (h : gmap nat episode)
    (w : world) (e : episode) :
  h !! ref = Some e -> servers e <> [] ->
  fetch_episode_servers self ref h w = (h, w, Done (servers e)).
Proof.
  intros Hh He. unfold fetch_episode_servers. rewrite Hh.
  destruct (servers e); [contradiction|reflexivity].
Qed.

(** A season without episodes whose crawl finds some gets them. *)
Lemma fetch_season_episodes_fetched (self : scraper) (ref : nat) (h : gmap nat season)
    (w w1 : world) (s : season) (season_url : str) (sd : season_data) :
  h !! ref = Some s -> s_episodes s = [] -> s_url s = Some season_url -> season_url <> [] ->
  _parse_season self season_url w = (w1, Some sd) -> sd_episodes sd <> [] ->
  fetch_season_episodes self ref h w
  = (<[ref := with_episodes s sd]> h, w1, sd_episodes sd).
Proof.
  intros Hh He Hu Hn Hp Hsd. unfold fetch_season_episodes. rewrite Hh, He, Hu.
  destruct season_url as [|c season_url']; [contradiction|]. cbn [truthy]. rewrite Hp.
  destruct (sd_episodes sd) as [|ep eps] eqn:Hs; [contradiction|].
  unfold with_episodes. rewrite Hs, Hu. reflexivity.
Qed.

(** A season without episodes whose crawl finds none, or gives no result,
    stays as it was. *)
Lemma fetch_season_episodes_nothing (self : scraper) (ref : nat) (h : gmap nat season)
    (w w1 : world) (s : season) (season_url : str) (r : option season_data) :
  h !! ref = Some s -> s_episodes s = [] -> s_url s = Some season_url -> season_url <> [] ->
  _parse_season self season_url w = (w1, r) ->
  match r with Some sd => sd_episodes sd = [] | None => True end ->
  fetch_season_episodes self ref h w = (h, w1, []).
Proof.
  intros Hh He Hu Hn Hp Hr. unfold fetch_season_episodes. rewrite Hh, He, Hu.
  destruct season_url as [|c season_url']; [contradiction|]. cbn [truthy]. rewrite Hp.
  destruct r as [sd|]; [|reflexivity]. rewrite Hr. reflexivity.
Qed.

(** What [fetch_episode_servers] does for an episode without servers, once
    the id of its page is known: the servers polled are put on the episode,
    after a second poll on a new session when the first finds none. *)
Lemma fetch_episode_servers_fetched (self : scraper) (ref : nat) (h : gmap nat episode)
    (w w2 : world) (e : episode) (encoded_url episode_id : str) :
  h !! ref = Some e -> servers e = [] -> url e <> [] ->
  _encode_url (url e) = Done encoded_url ->
  episode_id_of self encoded_url w = (w2, Some episode_id) ->
  fetch_episode_servers self ref h w
  = let watch_url := _normalize_watch_url encoded_url in
    let '(w3, srv) := get_servers self episode_id watch_url DEFAULT_MAX_SERVERS w2 in
    match srv with
    | _ :: _ => (<[ref := set_servers e srv]> h, w3, Done srv)
    | [] =>
        let '(w4, fresh_scraper) := new_scraper (Some (base_url self)) w3 in
        let '(w5, srv) := get_servers fresh_scraper episode_id watch_url DEFAULT_MAX_SERVERS w4 in
        (<[ref := set_servers e srv]> h, w5, Done srv)
    end.
Proof.
  intros Hh He Hu Hen Hid. unfold fetch_episode_servers. rewrite Hh, He.
  destruct (url e) as [|c episode_url] eqn:Hurl; [contradiction|].
  rewrite Hen. unfold episode_id_of in Hid. cbv zeta.
  destruct (_extract_content_id self _ None w) as [w1 id1].
  destruct (truthy id1) as [i1|] eqn:Ht1.
  - injection Hid as <- <-.
    assert (Ht : truthy (Some i1) = Some i1).
    { destruct id1 as [[|c1 i]|]; try discriminate. injection Ht1 as <-. reflexivity. }
    rewrite Ht.
    destruct (get_servers self _ _ _ _) as [w3 [|sv srv]]; [|reflexivity].
    destruct (new_scraper _ _) as [w4 fresh_scraper].
    destruct (get_servers fresh_scraper _ _ _ _) as [w5 srv2]. reflexivity.
  - destruct (_extract_content_id self encoded_url None w1) as [w2' id2].
    injection Hid as <- Hid. rewrite Hid.
    destruct (get_servers self _ _ _ _) as [w3 [|sv srv]]; [|reflexivity].
    destruct (new_scraper _ _) as [w4 fresh_scraper].
    destruct (get_servers fresh_scraper _ _ _ _) as [w5 srv2]. reflexivity.
Qed.

(** An episode whose page shows no id stays as it was. *)
Lemma fetch_episode_servers_no_id (self : scraper) (ref : nat) (h : gmap nat episode)
    (w w2 : world) (e : episode) (encoded_url : str) :
  h !! ref = Some e -> servers e = [] -> url e <> [] ->
  _encode_url (url e) = Done encoded_url ->
  episode_id_of self encoded_url w = (w2, None) ->
  fetch_episode_servers self ref h w = (h, w2, Done []).
Proof.
  intros Hh He Hu Hen Hid. unfold fetch_episode_servers. rewrite Hh, He.
  destruct (url e) as [|c episode_url] eqn:Hurl; [contradiction|].
  rewrite Hen. unfold episode_id_of in Hid.
  destruct (_extract_content_id self _ None w) as [w1 id1].
  destruct (truthy id1) as [i1|] eqn:Ht1; [discriminate|].
  destruct (_extract_content_id self encoded_url None w1) as [w2' id2].
  injection Hid as <- Hid. rewrite Hid. reflexivity.
Qed.

(** C8. A season whose episodes are there, or an episode whose servers are
    there, is returned its list as it is: no request is made and the store
    is left as it was. For a season without episodes the crawl of its
    address is run once: when it finds episodes, they and the poster are
    put on the season the caller holds, they are returned, and from then
    on every call returns them without a request; when it finds none, or
    fails, the season stays as it was and the empty list is returned. For
    an episode without servers the id of its page is read and the servers
    are polled, a second time on a new session when the first poll finds
    none: the list polled is put on the episode the caller holds and
    returned, and when it is not empty every later call returns it without
    a request; an episode whose page shows no id stays as it was. *)
Theorem fetch_once (self : scraper) :
  (forall ref (h : gmap nat season) w s,
      h !! ref = Some s -> s_episodes s <> [] ->
      fetch_season_episodes self ref h w = (h, w, s_episodes s))
  /\ (forall ref (h : gmap nat episode) w e,
        h !! ref = Some e -> servers e <> [] ->
        fetch_episode_servers self ref h w = (h, w, Done (servers e)))
  /\ (forall ref (h : gmap nat season) w w1 s season_url r,
        h !! ref = Some s -> s_episodes s = [] ->
        s_url s = Some season_url -> season_url <> [] ->
        _parse_season self season_url w = (w1, r) ->
        match r with
        | Some sd =>
            match sd_episodes sd with
            | _ :: _ =>
                let h' := <[ref := with_episodes s sd]> h in
                fetch_season_episodes self ref h w = (h', w1, sd_episodes sd)
                /\ forall w2, fetch_season_episodes self ref h' w2 = (h', w2, sd_episodes sd)
            | [] => fetch_season_episodes self ref h w = (h, w1, [])
            end
        | None => fetch_season_episodes self ref h w = (h, w1, [])
        end)
  /\ (forall ref (h : gmap nat episode) w w2 e encoded_url id,
        h !! ref = Some e -> servers e = [] -> url e <> [] ->
        _encode_url (url e) = Done encoded_url ->
        episode_id_of self encoded_url w = (w2, id) ->
        match id with
        | Some episode_id =>
            let watch_url := _normalize_watch_url encoded_url in
            let stored srv := <[ref := set_servers e srv]> h in
            match get_servers self episode_id watch_url DEFAULT_MAX_SERVERS w2 with
            | (w3, (_ :: _) as srv) =>
                fetch_episode_servers self ref h w = (stored srv, w3, Done srv)
                /\ forall w', fetch_episode_servers self ref (stored srv) w'
                              = (stored srv, w', Done srv)
            | (w3, []) =>
                let '(w4, fresh_scraper) := new_scraper (Some (base_url self)) w3 in
                let '(w5, srv) :=
                  get_servers fresh_scraper episode_id watch_url DEFAULT_MAX_SERVERS w4 in
                fetch_episode_servers self ref h w = (stored srv, w5, Done srv)
                /\ (srv <> [] ->
                    forall w', fetch_episode_servers self ref (stored srv) w'
                               = (stored srv, w', Done srv))
            end
        | None => fetch_episode_servers self ref h w = (h, w2, Done [])
        end).
Proof.
  split; [intros; now apply fetch_season_episodes_cached|].
  split; [intros; now apply fetch_episode_servers_cached|].
  split.
  - intros ref h w w1 s season_url r Hh He Hu Hn Hp.
    destruct r as [sd|].
    2: { eapply fetch_season_episodes_nothing; eauto. exact I. }
    destruct (sd_episodes sd) as [|ep eps] eqn:Hsd.
    { eapply (fetch_season_episodes_nothing _ _ _ _ _ _ _ (Some sd)); eauto. }
    cbv zeta. rewrite <- Hsd. split.
    + eapply fetch_season_episodes_fetched; eauto. rewrite Hsd. discriminate.
    + intros w2.
      rewrite (fetch_season_episodes_cached self ref _ w2 (with_episodes s sd)).
      * reflexivity.
      * apply lookup_insert_eq.
      * cbn. rewrite Hsd. discriminate.
  - intros ref h w w2 e encoded_url id Hh He Hu Hen Hid.
    destruct id as [episode_id|].
    2: { eapply fetch_episode_servers_no_id; eauto. }
    pose proof (fetch_episode_servers_fetched self ref h w w2 e encoded_url episode_id
                  Hh He Hu Hen Hid) as Hf.
    cbv zeta in Hf |- *.
    assert (Hagain : forall srv, srv <> [] -> forall w',
      fetch_episode_servers self ref (<[ref := set_servers e srv]> h) w'
      = (<[ref := set_servers e srv]> h, w', Done srv)).
    { intros srv Hsrv w'.
      rewrite (fetch_episode_servers_cached self ref _ w' (set_servers e srv)).
      - reflexivity.
      - apply lookup_insert_eq.
      - exact Hsrv. }
    destruct (get_servers self _ _ _ _) as [w3 [|sv srv]].
    + destruct (new_scraper _ _) as [w4 fresh_scraper].
      destruct (get_servers fresh_scraper _ _ _ _) as [w5 srv2].
      split; [exact Hf|]. intros Hne. apply Hagain, Hne.
    + split; [exact Hf|]. apply Hagain. discriminate.
Qed.

End FetchOnce.

(** A season and an episode that are fetched, and asked for again. *)
Lemma fetch_once_witness :
  (let h' := {[0%nat := Season (Some 1%N) None (Some (u "Season 1"))
                          (Some CrawlExample.season_url) None
                          [CrawlExample.the_special; CrawlExample.the_first]]} in
   @fetch_season_episodes ascii_env CrawlExample.web CrawlExample.me 0
     {[0%nat := NetExample.a_season]} CrawlExample.start
   = (h', fst CrawlExample.result, [CrawlExample.the_special; CrawlExample.the_first])
   /\ forall w2,
        @fetch_season_episodes ascii_env CrawlExample.web CrawlExample.me 0 h' w2
        = (h', w2, [CrawlExample.the_special; CrawlExample.the_first]))
  /\ (let h' := {[0%nat := set_servers NetExample.an_episode [NetExample.a_server]]} in
      @fetch_episode_servers ascii_env NetExample.streaming NetExample.me 0
        {[0%nat := NetExample.an_episode]} (World [] 1)
      = (h',
         World [GET 0 (u "https://topcinema.rip/show-episode-1/watch/");
                POST 0 (u "https://topcinema.rip/wp-content/themes/movies2023/Ajaxat/Single/Server.php")
                  [(u "id", u "77"); (u "i", u "0")]
                  (u "https://topcinema.rip/show-episode-1/watch/") (u "https://topcinema.rip");
                EXTRACT 0 (u "https://vidtube.pro/e/abc") (Some (u "https://topcinema.rip"))] 1,
         Done [NetExample.a_server])
      /\ forall w',
           @fetch_episode_servers ascii_env NetExample.streaming NetExample.me 0 h' w'
           = (h', w', Done [NetExample.a_server])).
Proof.
  split.
  - pose proof (fetch_once (E:=ascii_env) (W:=CrawlExample.web) CrawlExample.me)
      as (_ & _ & Hseason & _).
    assert (Hl : ({[0%nat := NetExample.a_season]} : gmap nat season) !! 0%nat
                 = Some NetExample.a_season) by apply lookup_singleton_eq.
    assert (Hp : @_parse_season ascii_env CrawlExample.web CrawlExample.me
                   CrawlExample.season_url CrawlExample.start
                 = (fst CrawlExample.result,
                    Some (SeasonData 1 None
                            [CrawlExample.the_special; CrawlExample.the_first])))
      by (vm_compute; reflexivity).
    assert (Hn : CrawlExample.season_url <> []) by discriminate.
    pose proof (Hseason 0%nat _ CrawlExample.start _ NetExample.a_season
                  CrawlExample.season_url _ Hl eq_refl eq_refl Hn Hp) as H.
    cbv beta iota zeta in H.
    unfold FetchSpec.with_episodes in H. cbn [sd_episodes sd_poster] in H.
    rewrite insert_singleton_eq in H. exact H.
  - pose proof (fetch_once (E:=ascii_env) (W:=NetExample.streaming) NetExample.me)
      as (_ & _ & _ & Hservers).
    assert (Hl : ({[0%nat := NetExample.an_episode]} : gmap nat episode) !! 0%nat
                 = Some NetExample.an_episode) by apply lookup_singleton_eq.
    assert (Hu : url NetExample.an_episode <> []) by discriminate.
    assert (He : @_encode_url ascii_env (url NetExample.an_episode)
                 = Done (u "https://topcinema.rip/show-episode-1/"))
      by (vm_compute; reflexivity).
    assert (Hi : @FetchSpec.episode_id_of ascii_env NetExample.streaming NetExample.me
                   (u "https://topcinema.rip/show-episode-1/") (World [] 1)
                 = (World [GET 0 (u "https://topcinema.rip/show-episode-1/watch/")] 1,
                    Some (u "77")))
      by (vm_compute; reflexivity).
    pose proof (Hservers 0%nat _ _ _ _ _ _ Hl eq_refl Hu He Hi) as H.
    cbv beta iota zeta in H.
    assert (Hg : @get_servers ascii_env NetExample.streaming NetExample.me (u "77")
                   (_normalize_watch_url (u "https://topcinema.rip/show-episode-1/"))
                   DEFAULT_MAX_SERVERS
                   (World [GET 0 (u "https://topcinema.rip/show-episode-1/watch/")] 1)
                 = (World [GET 0 (u "https://topcinema.rip/show-episode-1/watch/");
                      POST 0 (u "https://topcinema.rip/wp-content/themes/movies2023/Ajaxat/Single/Server.php")
                        [(u "id", u "77"); (u "i", u "0")]
                        (u "https://topcinema.rip/show-episode-1/watch/")
                        (u "https://topcinema.rip");
                      EXTRACT 0 (u "https://vidtube.pro/e/abc")
                        (Some (u "https://topcinema.rip"))] 1,
                    [NetExample.a_server]))
      by (vm_compute; reflexivity).
    rewrite Hg in H. rewrite insert_singleton_eq in H. exact H.
Defined.

(** * The content id *)

Section ContentId.
Context {E : PyEnv} {W : Web}.
Import Re ReSpec ReFacts ContentIdSpec.

Lemma first_some_some {A B : Type} (f : A -> option B) (l : list A) (y : B) :
  first_some f l = Some y -> exists x, In x l /\ f x = Some y.
Proof.
  induction l as [|x l IH]; simpl; [discriminate|].
  destruct (f x) as [y'|] eqn:Hx.
  - intros [= <-]. exists x. auto.
  - intros Hl. apply IH in Hl as (x' & Hin & Hx'). eauto.
Qed.

Lemma truthy_some (o : option str) (v : str) : truthy o = Some v -> o = Some v /\ v <> [].
Proof. destruct o as [[|c s]|]; simpl; try discriminate. intros [= <-]. now split. Qed.

Lemma isdigit_digit_sequence (v : str) : isdigit v = true -> digit_sequence v.
Proof.
  unfold isdigit, digit_sequence. destruct v as [|c v]; [discriminate|].
  intros Hv. split; [discriminate|].
  apply List.Forall_forall. intros x Hx. left.
  rewrite forallb_forall in Hv. apply Hv. exact Hx.
Qed.

Lemma digits_digit_sequence (v : str) : number v -> digit_sequence v.
Proof.
  intros [Hne Hv]. split; [exact Hne|]. revert Hv. apply List.Forall_impl. auto.
Qed.

Lemma search_group1_digits (r : re) (s v : str) :
  ends_in_group 1 (Plus digit) r -> search_group1 r s = Some v -> digit_sequence v.
Proof.
  unfold search_group1. intros Hr.
  destruct (Re.search r s) as [mt|] eqn:Hs; [|discriminate].
  destruct (search_group_digits _ _ _ _ Hr Hs) as (ds & -> & Hds).
  simpl. intros [= <-]. now apply digits_digit_sequence.
Qed.

Lemma id_re_ends : ends_in_group 1 (Plus digit) id_re.
Proof. unfold id_re. repeat (apply eg_seq; [reflexivity|]). apply eg_grp. Qed.
Lemma p_re_ends : ends_in_group 1 (Plus digit) p_re.
Proof. unfold p_re. repeat (apply eg_seq; [reflexivity|]). apply eg_grp. Qed.
Lemma post_id_re_ends : ends_in_group 1 (Plus digit) post_id_re.
Proof. unfold post_id_re. repeat (apply eg_seq; [reflexivity|]). apply eg_grp. Qed.
Lemma var_post_id_re_ends : ends_in_group 1 (Plus digit) var_post_id_re.
Proof. unfold var_post_id_re. repeat (apply eg_seq; [reflexivity|]). apply eg_grp. Qed.

Lemma id_of_data_id_digits (sp : soup) (v : str) :
  id_of_data_id sp = Some v -> digit_sequence v.
Proof.
  unfold id_of_data_id. intros (elem & _ & Hv)%first_some_some.
  destruct (truthy (data_id elem)) as [content_id|]; [|discriminate].
  destruct (isdigit content_id) eqn:Hd; [|discriminate].
  injection Hv as <-. now apply isdigit_digit_sequence.
Qed.

Lemma id_of_post_class_digits (sp : soup) (v : str) :
  id_of_post_class sp = Some v -> digit_sequence v.
Proof.
  unfold id_of_post_class. intros (cls & _ & Hv)%first_some_some.
  apply first_some_some in Hv as (c & _ & Hv). unfold id_of_class in Hv.
  destruct (startswith _ c); [|discriminate].
  destruct (isdigit _) eqn:Hd; [|discriminate].
  injection Hv as <-. now apply isdigit_digit_sequence.
Qed.

Lemma id_of_scripts_digits (sp : soup) (v : str) :
  id_of_scripts sp = Some v -> digit_sequence v.
Proof.
  unfold id_of_scripts. intros (script & _ & Hv)%first_some_some.
  unfold id_of_script in Hv. destruct (truthy script) as [string|]; [|discriminate].
  apply first_some_some in Hv as (r & Hin & Hv).
  destruct Hin as [<-|[<-|[<-|[<-|[]]]]]; eapply search_group1_digits; try exact Hv.
  - apply id_re_ends.
  - apply p_re_ends.
  - apply post_id_re_ends.
  - apply var_post_id_re_ends.
Qed.

Lemma id_of_shortlink_digits (sp : soup) (v : str) :
  id_of_shortlink sp = Some v -> digit_sequence v.
Proof.
  unfold id_of_shortlink. destruct (shortlink sp) as [href|]; [|discriminate].
  destruct (truthy href) as [href'|]; [|discriminate].
  apply search_group1_digits, p_re_ends.
Qed.

(** C7, as the code has it. The strategies are tried in one fixed order and
    the first value found is returned, so a page that shows its id in a
    class and in an inline script yields the one of the class; [None] is
    returned when no strategy finds a value, or when the page had to be
    fetched and the fetch failed. The values of the data-id, class, script
    and short-link strategies are sequences of digits; the server list and
    the player give their data-id as it is, whatever it holds. *)
Theorem content_id_cascade (sp : soup) :
  content_id_of_soup sp
  = or_else (id_of_server_list sp)
      (or_else (id_of_data_id sp)
         (or_else (id_of_post_class sp)
            (or_else (id_of_scripts sp)
               (or_else (id_of_shortlink sp) (id_of_play_div sp)))))
  /\ (forall v,
        id_of_server_list sp = None -> id_of_data_id sp = None ->
        id_of_post_class sp = Some v -> content_id_of_soup sp = Some v)
  /\ (content_id_of_soup sp = None
      <-> id_of_server_list sp = None /\ id_of_data_id sp = None
          /\ id_of_post_class sp = None /\ id_of_scripts sp = None
          /\ id_of_shortlink sp = None /\ id_of_play_div sp = None)
  /\ (forall v, content_id_of_soup sp = Some v -> v <> [])
  /\ (forall v,
        id_of_server_list sp = None -> id_of_play_div sp = None ->
        content_id_of_soup sp = Some v -> digit_sequence v)
  /\ (forall self url w,
        _extract_content_id self url (Some sp) w = (w, content_id_of_soup sp))
  /\ (forall self url w,
        snd (_extract_content_id self url None w)
        = match http (log w) (GET (session self) url) with
          | Some response => content_id_of_soup (text response)
          | None => None
          end).
Proof.
  assert (Hc : content_id_of_soup sp
    = or_else (id_of_server_list sp)
        (or_else (id_of_data_id sp)
           (or_else (id_of_post_class sp)
              (or_else (id_of_scripts sp)
                 (or_else (id_of_shortlink sp) (id_of_play_div sp)))))).
  { unfold content_id_of_soup, strategies. simpl.
    destruct (id_of_server_list sp); [reflexivity|].
    destruct (id_of_data_id sp); [reflexivity|].
    destruct (id_of_post_class sp); [reflexivity|].
    destruct (id_of_scripts sp); [reflexivity|].
    destruct (id_of_shortlink sp); [reflexivity|].
    destruct (id_of_play_div sp); reflexivity. }
  split; [exact Hc|]. rewrite Hc.
  split; [intros v -> -> ->; reflexivity|].
  split.
  { destruct (id_of_server_list sp), (id_of_data_id sp), (id_of_post_class sp),
      (id_of_scripts sp), (id_of_shortlink sp), (id_of_play_div sp); simpl;
      split; try discriminate; try tauto; intros (? & ? & ? & ? & ? & ?); discriminate. }
  split.
  { intros v.
    destruct (id_of_server_list sp) as [v1|] eqn:H1; simpl.
    { intros [= <-]. unfold id_of_server_list in H1.
      apply first_some_some in H1 as (li & _ & H1). now apply truthy_some in H1. }
    destruct (id_of_data_id sp) as [v2|] eqn:H2; simpl.
    { intros [= <-]. now apply id_of_data_id_digits in H2 as [? _]. }
    destruct (id_of_post_class sp) as [v3|] eqn:H3; simpl.
    { intros [= <-]. now apply id_of_post_class_digits in H3 as [? _]. }
    destruct (id_of_scripts sp) as [v4|] eqn:H4; simpl.
    { intros [= <-]. now apply id_of_scripts_digits in H4 as [? _]. }
    destruct (id_of_shortlink sp) as [v5|] eqn:H5; simpl.
    { intros [= <-]. now apply id_of_shortlink_digits in H5 as [? _]. }
    unfold id_of_play_div. destruct (play_div sp) as [d|]; [|discriminate].
    intros Hd. now apply truthy_some in Hd. }
  split.
  { intros v -> ->. simpl.
    destruct (id_of_data_id sp) as [v2|] eqn:H2; simpl.
    { intros [= <-]. exact (id_of_data_id_digits sp _ H2). }
    destruct (id_of_post_class sp) as [v3|] eqn:H3; simpl.
    { intros [= <-]. exact (id_of_post_class_digits sp _ H3). }
    destruct (id_of_scripts sp) as [v4|] eqn:H4; simpl.
    { intros [= <-]. exact (id_of_scripts_digits sp _ H4). }
    destruct (id_of_shortlink sp) as [v5|] eqn:H5; simpl; [|discriminate].
    intros [= <-]. exact (id_of_shortlink_digits sp _ H5). }
  split.
  { intros self url w. simpl. now rewrite Hc. }
  intros self url w. unfold _extract_content_id, send.
  destruct (http _ _); reflexivity.
Qed.

End ContentId.

(** The page that shows its id twice gives the id of the class. *)
Example content_id_of_both :
  @content_id_of_soup ascii_env ContentIdExample.both = Some (u "1234")
  /\ @id_of_post_class ascii_env ContentIdExample.both = Some (u "1234")
  /\ @id_of_scripts ascii_env ContentIdExample.both = Some (u "1234").
Proof. repeat split; vm_compute; reflexivity. Qed.

(** As the specification states it the property fails: the value returned for
    the page with the lettered server item is not a sequence of digits,
    although the page holds one. *)
Lemma content_id_not_digits :
  @content_id_of_soup ascii_env ContentIdExample.lettered = Some (u "tt0944947")
  /\ ~ @ContentIdSpec.digit_sequence ascii_env (u "tt0944947")
  /\ @id_of_post_class ascii_env ContentIdExample.lettered = Some (u "1234").
Proof.
  split; [vm_compute; reflexivity|]. split; [|vm_compute; reflexivity].
  intros [_ Hd]. apply Forall_inv in Hd. vm_compute in Hd.
  destruct Hd as [Hd|Hd]; discriminate Hd.
Qed.

(** * The season number *)

Section SeasonNumber.
Context {E : PyEnv}.
Import Re ReSpec ReFacts SeasonSpec.

Lemma first_ordinal_none (t : str) (tbl : list (str * N)) :
  Forall (fun entry => contains (fst entry) t = false) tbl -> first_ordinal t tbl = None.
Proof.
  induction 1 as [|[ordinal n] tbl Hc _ IH]; [reflexivity|].
  simpl in *. now rewrite Hc.
Qed.

Lemma search_none (r : re) (s : str) : ~ occurs r s -> Re.search r s = None.
Proof.
  intros Hn. destruct (Re.search r s) eqn:Hs; [|reflexivity].
  exfalso. apply Hn, search_occurs. congruence.
Qed.

(** C5. The four titles of the specification give 102, 101, 1 and 1, alone
    and after the name of the show. A text that says "final" gives 100 or
    more whatever season number it also holds, and exactly 100 when it
    holds no part marker; a text with no final word, no ordinal of the
    table and no season marker gives 1. *)
Theorem extract_season_number_cases :
  (extract_season_number (u "The Final Season Part 2") = Done 102%N
   /\ extract_season_number (u "Final Season Part 1") = Done 101%N
   /\ extract_season_number (u "One Piece") = Done 1%N
   /\ extract_season_number (u "Breaking Bad Season 1") = Done 1%N
   /\ extract_season_number (u "Attack on Titan: The Final Season Part 2") = Done 102%N
   /\ extract_season_number (u "Attack on Titan: The Final Season Part 1") = Done 101%N
   /\ extract_season_number (u "Attack on Titan Season 3") = Done 3%N
   /\ extract_season_number (u "Attack on Titan Final Season 3") = Done 100%N)
  /\ (forall text,
        has_final (normalized text) = true ->
        (forall n, extract_season_number text = Done n -> (100 <= n)%N)
        /\ (~ occurs part_re (normalized text) -> extract_season_number text = Done 100%N))
  /\ (forall text,
        has_final (normalized text) = false ->
        no_ordinal (normalized text) ->
        ~ occurs season_re (normalized text) ->
        extract_season_number text = Done 1%N).
Proof.
  split; [repeat split; vm_compute; reflexivity|]. split.
  - intros text Hf. unfold extract_season_number. fold (normalized text). rewrite Hf. split.
    + intros n. destruct (Re.search part_re (normalized text)) as [mt|].
      * destruct (group 1 (groups mt)) as [g|]; [|discriminate].
        destruct (int g) as [k|]; [|discriminate]. simpl. intros [= <-]. lia.
      * intros [= <-]. lia.
    + intros Hn. now rewrite (search_none _ _ Hn).
  - intros text Hf Ho Hs. unfold extract_season_number. fold (normalized text). rewrite Hf.
    rewrite first_ordinal_none.
    + now rewrite (search_none _ _ Hs).
    + apply (Permutation_Forall (Permutation_sym (SortFacts.sort_perm _ arabic_ordinals))).
      exact Ho.
Qed.

End SeasonNumber.

(** * The packer reversal *)

Section Unpack.
Context {E : PyEnv}.
Import Re ReSpec ReFacts UnpackSpec.

(** A substitution that finds no match changes nothing. *)
Lemma sub_from_no_match (r : re) (repl : str) : forall s p,
  search_from r p s = None -> sub_from r repl p 0 s = s.
Proof.
  induction s as [|c s IH]; intros p; [reflexivity|]. simpl.
  destruct (m r (MState p (c :: s) [])); [|discriminate].
  intros Hs. f_equal. now apply IH.
Qed.

Lemma sub_no_match (r : re) (repl s : str) : Re.search r s = None -> sub r repl s = s.
Proof. apply sub_from_no_match. Qed.

(** The loop of [to_base] in radix 1 never ends, whatever the fuel; in any
    other radix the fuel [to_base] gives is enough. *)
Lemma to_base_loop_radix_1 (fuel : nat) (n : N) (result : str) :
  n <> 0%N -> to_base_loop fuel n 1 result = Hangs.
Proof.
  revert result. induction fuel as [|fuel IH]; intros result Hn; [reflexivity|].
  simpl. apply N.eqb_neq in Hn as Hn'. rewrite Hn'. rewrite N.mod_1_r, N.div_1_r.
  simpl. apply IH, Hn.
Qed.

Lemma to_base_loop_returns (b : N) : b <> 1%N -> forall fuel n result,
  (N.to_nat n < fuel)%nat -> to_base_loop fuel n b result <> Hangs.
Proof.
  intros Hb. induction fuel as [|fuel IH]; intros n result Hf; [lia|]. simpl.
  destruct (N.eqb_spec n 0) as [->|Hn]; [discriminate|].
  destruct (N.eqb_spec b 0) as [->|Hb0]; [discriminate|].
  destruct (nth_error digits _); [|discriminate].
  apply IH. assert (n / b < n)%N by (apply N.div_lt; lia). lia.
Qed.

Lemma to_base_returns (n b : N) : b <> 1%N -> to_base n b <> Hangs.
Proof.
  intros Hb. unfold to_base. destruct (n =? 0)%N; [discriminate|].
  apply to_base_loop_returns; [exact Hb|lia].
Qed.

(** A round that succeeded once succeeds, and changes nothing, on a text
    that is free of its token. *)
Lemma unpack_step_fixed (a : N) (k : list str) (i : nat) (p p' q : str) :
  unpack_step a k i p = Done p' -> token_free a k q i = true ->
  unpack_step a k i q = Done q.
Proof.
  unfold unpack_step, token_free.
  destruct (nth_error k i) as [[|c value]|]; try reflexivity.
  destruct (to_base (N.of_nat i) a) as [token| |]; try discriminate. simpl.
  unfold re_sub_token.
  destruct (existsb _ _).
  - destruct (re_template _) as [expand|]; [|discriminate]. intros _.
    destruct (Re.search _ q) eqn:Hs; [discriminate|]. intros _.
    now rewrite sub_no_match.
  - intros _. destruct (Re.search _ q) eqn:Hs; [discriminate|]. intros _.
    now rewrite sub_no_match.
Qed.

Lemma unpack_loop_fixed (a : N) (k : list str) (q : str) : forall n p p',
  unpack_loop n a k p = Done p' ->
  forallb (token_free a k q) (seq 0 n) = true ->
  unpack_loop n a k q = Done q.
Proof.
  induction n as [|n IH]; intros p p' Hp Hq; [reflexivity|].
  rewrite seq_S, forallb_app in Hq. simpl in Hq.
  apply andb_prop in Hq as [Hq Hn]. rewrite andb_true_r in Hn.
  simpl in Hp |- *.
  destruct (unpack_step a k n p) as [p1| |] eqn:H1; try discriminate.
  rewrite (unpack_step_fixed _ _ _ _ _ _ H1 Hn). simpl in Hp |- *.
  eapply IH; eassumption.
Qed.

(** C6, as the code has it. When the reversal returns a text in which no
    token that has a keyword is left as a whole word, applying it again to
    that text returns the same text. *)
Theorem unpack_twice (p q : str) (a c : N) (k : list str) :
  _unpack p a c k = Done q ->
  settled a c k q = true ->
  _unpack q a c k = Done q.
Proof. unfold _unpack, settled. apply unpack_loop_fixed. Qed.

End Unpack.

Lemma unpack_twice_witness :
  @_unpack ascii_env UnpackExample.payload 10 8 UnpackExample.keywords
    = Done UnpackExample.unpacked
  /\ @UnpackSpec.settled ascii_env 10 8 UnpackExample.keywords UnpackExample.unpacked = true
  /\ @_unpack ascii_env UnpackExample.unpacked 10 8 UnpackExample.keywords
     = Done UnpackExample.unpacked.
Proof.
  assert (H1 : @_unpack ascii_env UnpackExample.payload 10 8 UnpackExample.keywords
                 = Done UnpackExample.unpacked) by (vm_compute; reflexivity).
  assert (H2 : @UnpackSpec.settled ascii_env 10 8 UnpackExample.keywords
                 UnpackExample.unpacked = true) by (vm_compute; reflexivity).
  split; [exact H1|]. split; [exact H2|].
  exact (unpack_twice (E:=ascii_env) _ _ _ _ _ H1 H2).
Defined.

(** As the specification states it the property fails: with the keywords "1"
    and "x" the payload "0" is unpacked to "1", and "1" is unpacked to "x". *)
Lemma unpack_not_idempotent :
  @_unpack ascii_env (u "0") 10 2 [u "1"; u "x"] = Done (u "1")
  /\ @_unpack ascii_env (u "1") 10 2 [u "1"; u "x"] = Done (u "x").
Proof. split; vm_compute; reflexivity. Qed.

(** * Substituting the runs of a class *)

Module TextFacts.

Import Re ReSpec ReFacts TextSpec.

Section Runs.
Context {E : PyEnv}.

Lemma skip_run_length (f : N -> bool) (s : str) : (length (skip_run f s) <= length s)%nat.
Proof.
  induction s as [|c t IH]; [reflexivity|]. simpl. destruct (f c); simpl; lia.
Qed.

Lemma star_chr_hd (f : N -> bool) : forall fuel p s gs,
  (length s <= fuel)%nat ->
  exists st l, star (m (Chr f)) fuel (MState p s gs) = st :: l /\ rest st = skip_run f s.
Proof.
  induction fuel as [|fuel IH]; intros p s gs Hl.
  - destruct s; [|simpl in Hl; lia]. eexists _, _. split; reflexivity.
  - cbn [star]. destruct s as [|c t].
    + eexists _, _. split; reflexivity.
    + assert (Hg : m (Chr f) (MState p (c :: t) gs)
                   = if f c then [MState (Some c) t gs] else []) by reflexivity.
      rewrite Hg. cbn [skip_run]. destruct (f c) eqn:Hc.
      * cbn [List.filter]. unfold progress. cbn [rest length].
        assert (Hlt : (length t <? S (length t))%nat = true) by (apply Nat.ltb_lt; lia).
        rewrite Hlt. cbn [flat_map].
        destruct (IH (Some c) t gs) as (st & l & Hs & Hr); [simpl in Hl; lia|].
        rewrite Hs. eexists _, _. split; [reflexivity|exact Hr].
      * eexists _, _. split; reflexivity.
Qed.

Lemma m_plus_chr (f : N -> bool) (p : option N) (c : N) (t : str) (gs : list (nat * str)) :
  if f c
  then exists st l, m (Plus (Chr f)) (MState p (c :: t) gs) = st :: l /\ rest st = skip_run f t
  else m (Plus (Chr f)) (MState p (c :: t) gs) = [].
Proof.
  assert (Hg : m (Plus (Chr f)) (MState p (c :: t) gs)
               = flat_map (fun st' => star (m (Chr f)) (length (rest st')) st')
                   (if f c then [MState (Some c) t gs] else [])) by reflexivity.
  rewrite Hg. destruct (f c) eqn:Hc; [|reflexivity].
  cbn [flat_map rest].
  destruct (star_chr_hd f (length t) (Some c) t gs) as (st & l & Hs & Hr); [lia|].
  rewrite Hs. eexists _, _. split; [reflexivity|exact Hr].
Qed.

(** [re.sub] of a pattern [c+] replaces every run of the class. *)
Lemma sub_from_plus_chr (f : N -> bool) (repl : str) : forall s p,
  sub_from (Plus (Chr f)) repl p 0 s = squeeze f repl false s
  /\ sub_from (Plus (Chr f)) repl p (length s - length (skip_run f s)) s
     = squeeze f repl true s.
Proof.
  induction s as [|c t IH]; intros p; [split; reflexivity|].
  pose proof (skip_run_length f t) as Hl.
  pose proof (m_plus_chr f p c t []) as Hm.
  destruct (IH (Some c)) as [IH0 IH1].
  cbn [squeeze skip_run]. destruct (f c) eqn:Hc.
  - destruct Hm as (st & l & Hm & Hr). split.
    + cbn [sub_from]. rewrite Hm, Hr. cbn [length].
      replace (S (length t) - length (skip_run f t))%nat
        with (S (length t - length (skip_run f t))) by lia.
      rewrite IH1. reflexivity.
    + cbn [length].
      replace (S (length t) - length (skip_run f t))%nat
        with (S (length t - length (skip_run f t))) by lia.
      cbn [sub_from]. rewrite IH1. reflexivity.
  - split.
    + cbn [sub_from]. rewrite Hm, IH0. reflexivity.
    + rewrite Nat.sub_diag. cbn [sub_from]. rewrite Hm, IH0. reflexivity.
Qed.

Lemma sub_plus_chr (f : N -> bool) (repl s : str) :
  sub (Plus (Chr f)) repl s = squeeze f repl false s.
Proof. apply sub_from_plus_chr. Qed.

Lemma squeeze_remove (f : N -> bool) (s : str) : forall b,
  squeeze f [] b s = List.filter (fun c => negb (f c)) s.
Proof.
  induction s as [|c t IH]; intros b; [reflexivity|].
  simpl. destruct (f c); simpl; [destruct b; apply IH|f_equal; apply IH].
Qed.

End Runs.

Section Words.
Context {E : PyEnv}.

Lemma split_ws_nospace (w : str) : Forall (fun c => is_space c = false) w ->
  forall cur s, split_ws cur (w ++ s) = split_ws (rev w ++ cur) s.
Proof.
  induction 1 as [|c w Hc Hw IH]; intros cur s; [reflexivity|].
  cbn [app split_ws rev]. rewrite Hc, IH, <- app_assoc. reflexivity.
Qed.

Lemma split_ws_space (c : N) (cur s : str) : is_space c = true ->
  split_ws cur (c :: s)
  = match cur with [] => split_ws [] s | _ => rev cur :: split_ws [] s end.
Proof. intros H. cbn [split_ws]. now rewrite H. Qed.

Lemma split_ws_end (cur : str) : cur <> [] -> split_ws cur [] = [rev cur].
Proof. destruct cur; [contradiction|reflexivity]. Qed.

Lemma rev_not_nil {A : Type} (l : list A) : l <> [] -> rev l <> [].
Proof.
  intros H Hr. apply H. rewrite <- (rev_involutive l), Hr. reflexivity.
Qed.

Lemma join_one (sep w : str) : join sep [w] = w.
Proof. reflexivity. Qed.

Lemma join_cons (sep w w' : str) (ws : list str) :
  join sep (w :: w' :: ws) = w ++ sep ++ join sep (w' :: ws).
Proof. reflexivity. Qed.

Lemma space_app (s : str) : u " " ++ s = 32%N :: s.
Proof. reflexivity. Qed.

Lemma is_space_32 : is_space 32 = true.
Proof. reflexivity. Qed.

Lemma split_join (ws : list str) : Forall word ws -> split (join (u " ") ws) = ws.
Proof.
  induction 1 as [|w ws [Hne Hw] Hws IH]; [reflexivity|].
  unfold split in *. destruct ws as [|w' ws'].
  - rewrite join_one. rewrite <- (app_nil_r w) at 1.
    rewrite split_ws_nospace by exact Hw. rewrite app_nil_r.
    rewrite split_ws_end by (apply rev_not_nil, Hne). now rewrite rev_involutive.
  - rewrite join_cons, split_ws_nospace by exact Hw.
    rewrite app_nil_r, space_app, split_ws_space by apply is_space_32.
    rewrite IH.
    destruct (rev w) eqn:Hr; [exfalso; revert Hr; apply rev_not_nil, Hne|].
    rewrite <- Hr, rev_involutive. reflexivity.
Qed.

Lemma split_ws_words : forall s cur,
  Forall (fun c => is_space c = false) cur -> Forall word (split_ws cur s).
Proof.
  induction s as [|c s IH]; intros cur Hcur.
  - destruct cur as [|d cur]; [constructor|].
    constructor; [|constructor]. split; [now apply rev_not_nil|].
    apply Forall_rev. exact Hcur.
  - cbn [split_ws]. destruct (is_space c) eqn:Hc.
    + destruct cur as [|d cur]; [apply IH; constructor|].
      constructor; [|apply IH; constructor].
      split; [now apply rev_not_nil|]. apply Forall_rev. exact Hcur.
    + apply IH. constructor; assumption.
Qed.

Lemma split_words (s : str) : Forall word (split s).
Proof. apply split_ws_words. constructor. Qed.

Lemma split_lstrip (s : str) : split (lstrip s) = split s.
Proof.
  unfold split. induction s as [|c s IH]; [reflexivity|].
  cbn [lstrip split_ws]. destruct (is_space c) eqn:Hc; [exact IH|].
  cbn [split_ws]. now rewrite Hc.
Qed.

Lemma split_ws_trailing (sp : str) : Forall (fun c => is_space c = true) sp ->
  forall s cur, split_ws cur (s ++ sp) = split_ws cur s.
Proof.
  intros Hsp.
  assert (H0 : forall cur, split_ws cur sp = split_ws cur []).
  { induction Hsp as [|c sp Hc Hsp IH]; intros cur; [reflexivity|].
    rewrite split_ws_space by exact Hc. rewrite IH. destruct cur; reflexivity. }
  induction s as [|c s IH]; intros cur; [apply H0|].
  cbn [app split_ws]. rewrite !IH. reflexivity.
Qed.

Lemma lstrip_spec (s : str) :
  exists sp, s = sp ++ lstrip s /\ Forall (fun c => is_space c = true) sp.
Proof.
  induction s as [|c s (sp & Hs & Hsp)]; [exists []; split; [reflexivity|constructor]|].
  cbn [lstrip]. destruct (is_space c) eqn:Hc.
  - exists (c :: sp). split; [cbn [app]; congruence|constructor; assumption].
  - exists []. split; [reflexivity|constructor].
Qed.

Lemma split_strip (s : str) : split (strip s) = split s.
Proof.
  unfold strip. rewrite <- (split_lstrip s).
  destruct (lstrip_spec (rev (lstrip s))) as (sp & Hs & Hsp).
  apply (f_equal (@rev N)) in Hs. rewrite rev_involutive, rev_app_distr in Hs.
  rewrite Hs at 2. unfold split. rewrite split_ws_trailing; [reflexivity|].
  apply Forall_rev. exact Hsp.
Qed.

Lemma join_first (ws : list str) : Forall word ws -> ws <> [] ->
  exists c s', join (u " ") ws = c :: s' /\ is_space c = false.
Proof.
  intros Hws Hne. destruct Hws as [|w ws [Hw Hc] Hws]; [contradiction|].
  destruct w as [|c w]; [contradiction|]. inversion Hc; subst.
  destruct ws; [rewrite join_one|rewrite join_cons]; cbn [app]; eauto.
Qed.

Lemma join_last (ws : list str) : Forall word ws -> ws <> [] ->
  exists s' c, join (u " ") ws = s' ++ [c] /\ is_space c = false.
Proof.
  induction 1 as [|w ws [Hw Hc] Hws IH]; intros Hne; [contradiction|].
  destruct ws as [|w' ws'].
  - rewrite join_one. destruct (exists_last Hw) as (s' & c & ->).
    exists s', c. split; [reflexivity|].
    apply Forall_app in Hc as [_ Hc]. now inversion Hc.
  - destruct IH as (s' & c & Hj & Hc'); [discriminate|].
    rewrite join_cons, Hj. exists (w ++ u " " ++ s'), c.
    split; [now rewrite <- !app_assoc|exact Hc'].
Qed.

Lemma strip_join (ws : list str) : Forall word ws ->
  strip (join (u " ") ws) = join (u " ") ws.
Proof.
  intros Hws. destruct ws as [|w ws]; [reflexivity|].
  destruct (join_first _ Hws) as (c & s1 & H1 & Hc1); [discriminate|].
  destruct (join_last _ Hws) as (s2 & d & H2 & Hd); [discriminate|].
  unfold strip. rewrite H1. cbn [lstrip]. rewrite Hc1, <- H1, H2.
  rewrite rev_app_distr. cbn [rev app lstrip]. rewrite Hd.
  change (d :: rev s2) with (rev [d] ++ rev s2).
  now rewrite <- rev_app_distr, rev_involutive.
Qed.

Lemma spaced_nospace_app (w : str) : Forall (fun c => is_space c = false) w ->
  forall b s, spaced b (w ++ s) = match w with [] => spaced b s | _ => spaced false s end.
Proof.
  induction 1 as [|c w Hc Hw IH]; intros b s; [reflexivity|].
  cbn [app spaced]. rewrite Hc, IH. destruct w; reflexivity.
Qed.

Lemma spaced_join (ws : list str) : Forall word ws ->
  forall b, spaced b (join (u " ") ws) = true.
Proof.
  induction 1 as [|w ws [Hne Hw] Hws IH]; intros b; [reflexivity|].
  destruct ws as [|w' ws'].
  - rewrite join_one. rewrite <- (app_nil_r w), spaced_nospace_app by exact Hw.
    destruct w; [contradiction|reflexivity].
  - rewrite join_cons, spaced_nospace_app by exact Hw.
    destruct w; [contradiction|]. rewrite space_app. cbn [spaced].
    rewrite is_space_32, IH. reflexivity.
Qed.

Lemma squeeze_spaced (s : str) : forall b,
  spaced b s = true -> squeeze is_space [32%N] b s = s.
Proof.
  induction s as [|c s IH]; intros b Hs; [reflexivity|].
  cbn [spaced squeeze] in *. destruct (is_space c).
  - apply andb_prop in Hs as [Hs Ht]. apply andb_prop in Hs as [Hc Hb].
    apply N.eqb_eq in Hc. subst c. destruct b; [discriminate|].
    cbn [app]. now rewrite IH.
  - now rewrite IH.
Qed.

Lemma tidy_join (ws : list str) : Forall word ws -> tidy (join (u " ") ws).
Proof. intros H. split; [now apply strip_join|now apply spaced_join]. Qed.

Lemma split_ws_not_nil : forall s cur, cur <> [] -> split_ws cur s <> [].
Proof.
  induction s as [|d s IH]; intros cur Hcur.
  - destruct cur; [contradiction|discriminate].
  - cbn [split_ws]. destruct (is_space d).
    + destruct cur; [contradiction|discriminate].
    + apply IH. discriminate.
Qed.

Lemma split_nil (s : str) : split s = [] <-> Forall (fun c => is_space c = true) s.
Proof.
  unfold split. split.
  - induction s as [|c s IH]; intros H; [constructor|].
    cbn [split_ws] in H. destruct (is_space c) eqn:Hc.
    + constructor; [exact Hc|apply IH, H].
    + exfalso. revert H. apply split_ws_not_nil. discriminate.
  - intros H. rewrite <- (app_nil_l s). rewrite split_ws_trailing by exact H. reflexivity.
Qed.

Lemma join_nil (ws : list str) : Forall word ws -> join (u " ") ws = [] -> ws = [].
Proof.
  intros Hws Hj. destruct ws as [|w ws]; [reflexivity|].
  destruct (join_first _ Hws) as (c & s' & H1 & _); [discriminate|]. congruence.
Qed.

(** [clean_text] gives the words of the text, with single spaces between. *)
Lemma clean_text_words (s : str) : clean_text s = join (u " ") (split s).
Proof.
  unfold clean_text. destruct s as [|c s]; [reflexivity|]. now rewrite split_strip.
Qed.

Lemma dedup_numbers_sub (P : str -> Prop) (l : list str) : forall seen,
  Forall P l -> Forall P (dedup_numbers seen l).
Proof.
  induction l as [|x l IH]; intros seen Hl; [constructor|].
  inversion Hl; subst. cbn [dedup_numbers].
  destruct (isdigit x); [case_bool_decide|]; auto.
Qed.

Lemma dedup_numbers_not_seen (l : list str) : forall seen x,
  In x (dedup_numbers seen l) -> isdigit x = true -> x ∉ seen.
Proof.
  induction l as [|y l IH]; intros seen x Hx Hd; [destruct Hx|].
  cbn [dedup_numbers] in Hx. destruct (isdigit y) eqn:Hy.
  - case_bool_decide as Hs.
    + eapply IH; eassumption.
    + destruct Hx as [->|Hx]; [exact Hs|].
      apply IH in Hx; [|exact Hd]. intros Hs'. apply Hx, elem_of_union. now right.
  - destruct Hx as [->|Hx]; [congruence|]. eapply IH; eassumption.
Qed.

Lemma dedup_numbers_NoDup (l : list str) : forall seen,
  List.NoDup (List.filter isdigit (dedup_numbers seen l)).
Proof.
  induction l as [|y l IH]; intros seen; [constructor|].
  cbn [dedup_numbers]. destruct (isdigit y) eqn:Hy.
  - case_bool_decide as Hs; [apply IH|].
    cbn [List.filter]. rewrite Hy. constructor; [|apply IH].
    intros Hin. apply filter_In in Hin as [Hin Hd].
    apply dedup_numbers_not_seen in Hin; [|exact Hd].
    apply Hin, elem_of_union. left. now apply elem_of_singleton.
  - cbn [List.filter]. rewrite Hy. apply IH.
Qed.

Lemma dedup_numbers_fixed (l : list str) : forall seen,
  List.NoDup (List.filter isdigit l) ->
  (forall x, In x l -> isdigit x = true -> x ∉ seen) ->
  dedup_numbers seen l = l.
Proof.
  induction l as [|y l IH]; intros seen Hn Hs; [reflexivity|].
  cbn [dedup_numbers]. cbn [List.filter] in Hn. destruct (isdigit y) eqn:Hy.
  - inversion Hn as [|? ? Hy' Hn']; subst.
    rewrite bool_decide_false by (apply Hs; [now left|exact Hy]).
    f_equal. apply IH; [exact Hn'|].
    intros x Hx Hd. assert (x <> y).
    { intros ->. apply Hy'. apply filter_In. now split. }
    specialize (Hs x (or_intror Hx) Hd). intros Hu.
    apply elem_of_union in Hu as [Hu|Hu]; [apply elem_of_singleton in Hu|]; contradiction.
  - f_equal. apply IH; [exact Hn|]. intros x Hx. apply Hs. now right.
Qed.

Lemma split_ws_chars (P : N -> Prop) : forall s cur,
  Forall P s -> Forall P cur -> Forall (Forall P) (split_ws cur s).
Proof.
  induction s as [|c s IH]; intros cur Hs Hcur.
  - destruct cur; [constructor|]. constructor; [|constructor]. now apply Forall_rev.
  - inversion Hs; subst. cbn [split_ws]. destruct (is_space c).
    + destruct cur; [apply IH; [assumption|constructor]|].
      constructor; [now apply Forall_rev|apply IH; [assumption|constructor]].
    + apply IH; [assumption|constructor; assumption].
Qed.

Lemma join_chars (P : N -> Prop) (sep : str) (ws : list str) :
  Forall P sep -> Forall (Forall P) ws -> Forall P (join sep ws).
Proof.
  intros Hsep. induction 1 as [|w ws Hw Hws IH]; [constructor|].
  destruct ws as [|w' ws']; [exact Hw|].
  rewrite join_cons. apply Forall_app. split; [exact Hw|].
  apply Forall_app. split; [exact Hsep|exact IH].
Qed.

Lemma filter_fixed {A : Type} (f : A -> bool) (l : list A) :
  Forall (fun x => f x = true) l -> List.filter f l = l.
Proof.
  induction 1 as [|x l Hx Hl IH]; [reflexivity|]. cbn [List.filter]. now rewrite Hx, IH.
Qed.

(** [clean_arabic_title] gives the words of the text without its Arabic
    letters, each number once: the substitution of the white space and the
    [strip] that end it have nothing left to do. *)
Lemma clean_arabic_title_words (text : str) :
  clean_arabic_title text
  = join (u " ")
      (dedup_numbers ∅ (split (List.filter (fun c => negb (arabic c)) text))).
Proof.
  unfold clean_arabic_title. destruct text as [|c text]; [reflexivity|].
  rewrite sub_plus_chr, squeeze_remove.
  change (between 1536 1791) with arabic.
  set (ws := dedup_numbers ∅ _).
  assert (Hws : Forall word ws) by apply dedup_numbers_sub, split_words.
  unfold space. rewrite sub_plus_chr.
  change (u " ") with [32%N] at 2. rewrite squeeze_spaced by now apply spaced_join.
  now apply strip_join.
Qed.

Lemma clean_arabic_title_chars (text : str) :
  Forall (fun c => arabic c = false) (clean_arabic_title text).
Proof.
  rewrite clean_arabic_title_words.
  apply join_chars; [repeat constructor|].
  apply dedup_numbers_sub. apply split_ws_chars; [|constructor].
  apply List.Forall_forall. intros c Hin. apply filter_In in Hin as [_ Hin].
  now apply negb_true_iff.
Qed.

End Words.

End TextFacts.

Section Tidy.
Context {E : PyEnv}.
Import TextSpec TextFacts.

(** X4. [clean_text] returns the words of a text joined by single spaces.
    The result has no white space at its ends and none but single spaces
    inside; it has the words of the text, in their order; cleaning it again
    changes nothing; and it is empty exactly when the text is all white
    space. *)
Theorem clean_text_tidy (s : str) :
  clean_text s = join (u " ") (split s)
  /\ tidy (clean_text s)
  /\ split (clean_text s) = split s
  /\ clean_text (clean_text s) = clean_text s
  /\ (clean_text s = [] <-> Forall (fun c => is_space c = true) s).
Proof.
  pose proof (split_words s) as Hw.
  assert (Hs : split (clean_text s) = split s)
    by (rewrite clean_text_words; now apply split_join).
  split; [apply clean_text_words|]. split; [rewrite clean_text_words; now apply tidy_join|].
  split; [exact Hs|]. split.
  - rewrite (clean_text_words (clean_text s)), Hs. symmetry. apply clean_text_words.
  - rewrite <- split_nil, clean_text_words. split.
    + now apply join_nil.
    + now intros ->.
Qed.

(** X5. [clean_arabic_title] returns the words of the title without the
    characters of the Arabic block, each all-digit word kept once (its first
    occurrence), joined by single spaces. The result holds no Arabic
    character, is tidy, repeats no number, and cleaning it again changes
    nothing. *)
Theorem clean_arabic_title_tidy (text : str) :
  clean_arabic_title text
  = join (u " ")
      (dedup_numbers ∅ (split (List.filter (fun c => negb (arabic c)) text)))
  /\ Forall (fun c => arabic c = false) (clean_arabic_title text)
  /\ tidy (clean_arabic_title text)
  /\ List.NoDup (List.filter isdigit (split (clean_arabic_title text)))
  /\ clean_arabic_title (clean_arabic_title text) = clean_arabic_title text.
Proof.
  pose proof (clean_arabic_title_words text) as Hc.
  set (plain := List.filter (fun c => negb (arabic c)) text) in *.
  set (ws := dedup_numbers ∅ (split plain)) in *.
  assert (Hws : Forall word ws) by apply dedup_numbers_sub, split_words.
  assert (Ha : Forall (fun c => arabic c = false) (join (u " ") ws)).
  { rewrite <- Hc. apply clean_arabic_title_chars. }
  assert (Hn : List.NoDup (List.filter isdigit ws)) by apply dedup_numbers_NoDup.
  split; [exact Hc|]. rewrite Hc. split; [exact Ha|].
  split; [now apply tidy_join|]. rewrite split_join by exact Hws.
  split; [exact Hn|].
  rewrite clean_arabic_title_words.
  rewrite filter_fixed by (eapply List.Forall_impl; [|exact Ha];
                           intros c Hc'; cbv beta in *; now rewrite Hc').
  rewrite split_join by exact Hws.
  rewrite dedup_numbers_fixed; [reflexivity|exact Hn|]. intros x _ _. apply not_elem_of_empty.
Qed.

Example clean_arabic_title_example :
  @clean_arabic_title ascii_env (u "  مسلسل Dark  الموسم 2  الحلقة 2  3 ") = u "Dark 2 3".
Proof. reflexivity. Qed.

End Tidy.

(** * The watch page of an episode *)

Section WatchUrl.
Import PartFacts.

Lemma endswith_app (p s : str) : endswith p (s ++ p) = true.
Proof.
  unfold endswith. rewrite rev_app_distr. apply startswith_spec. eauto.
Qed.

(** X6. [_normalize_watch_url] leaves the empty address empty. To any other
    address it adds what is missing of "/watch/", and nothing when the
    address ends in it already: the result ends in "/watch/", starts with the
    address, never gets a second slash before "watch/", and is left as it is
    when normalised again. *)
Theorem normalize_watch_url_ends (url : str) :
  _normalize_watch_url [] = []
  /\ (url <> [] ->
      endswith (u "/watch/") (_normalize_watch_url url) = true
      /\ _normalize_watch_url (_normalize_watch_url url) = _normalize_watch_url url
      /\ (_normalize_watch_url url = url
          \/ (endswith (u "/") url = true /\ _normalize_watch_url url = url ++ u "watch/")
          \/ (endswith (u "/") url = false /\ _normalize_watch_url url = url ++ u "/watch/"))).
Proof.
  split; [reflexivity|]. intros Hne.
  assert (He : endswith (u "/watch/") (_normalize_watch_url url) = true).
  { unfold _normalize_watch_url. destruct url as [|c url]; [contradiction|].
    destruct (endswith (u "/watch/") (c :: url)) eqn:H1; [exact H1|].
    destruct (endswith (u "/") (c :: url)) eqn:H2.
    - apply startswith_spec in H2 as [post H2]. change (rev (u "/")) with (u "/") in H2.
      apply (f_equal (@rev N)) in H2. rewrite rev_involutive, rev_app_distr in H2.
      rewrite H2. change (rev (u "/")) with (u "/"). rewrite <- app_assoc.
      change (u "/" ++ u "watch/") with (u "/watch/"). apply endswith_app.
    - apply endswith_app. }
  split; [exact He|]. split.
  - unfold _normalize_watch_url at 1. rewrite He.
    destruct (_normalize_watch_url url); reflexivity.
  - unfold _normalize_watch_url. destruct url as [|c url]; [contradiction|].
    destruct (endswith (u "/watch/") (c :: url)); [now left|].
    destruct (endswith (u "/") (c :: url)); [right; left|right; right]; split; reflexivity.
Qed.

Example normalize_watch_url_examples :
  _normalize_watch_url (u "https://topcinema.rip/ep-1") = u "https://topcinema.rip/ep-1/watch/"
  /\ _normalize_watch_url (u "https://topcinema.rip/ep-1/") = u "https://topcinema.rip/ep-1/watch/"
  /\ _normalize_watch_url (u "https://topcinema.rip/ep-1/watch/")
     = u "https://topcinema.rip/ep-1/watch/".
Proof. repeat split; reflexivity. Qed.

End WatchUrl.

(** * The title the API shows *)

Section ShowTitle.
Context {E : PyEnv}.
Import Re TextSpec TextFacts Api.

Lemma lstrip_idem (s : str) : lstrip (lstrip s) = lstrip s.
Proof.
  induction s as [|c s IH]; [reflexivity|]. cbn [lstrip].
  destruct (is_space c) eqn:Hc; [exact IH|]. cbn [lstrip]. now rewrite Hc.
Qed.

Lemma lstrip_head (s : str) :
  lstrip s = [] \/ exists c t, lstrip s = c :: t /\ is_space c = false.
Proof.
  induction s as [|c s IH]; [now left|]. cbn [lstrip].
  destruct (is_space c) eqn:Hc; [exact IH|]. right. eauto.
Qed.

Lemma strip_idem (s : str) : strip (strip s) = strip s.
Proof.
  unfold strip. set (y := lstrip s). set (r := rev (lstrip (rev y))).
  assert (Hl : lstrip r = r).
  { destruct (lstrip_spec (rev y)) as (sp & Hy & _).
    apply (f_equal (@rev N)) in Hy. rewrite rev_involutive, rev_app_distr in Hy.
    fold r in Hy. destruct r as [|c r']; [reflexivity|].
    destruct (lstrip_head s) as [Hn|(d & t & Hd & Hs)]; fold y in Hn || fold y in Hd.
    - rewrite Hn in Hy. discriminate.
    - rewrite Hd in Hy. cbn [app] in Hy. injection Hy as -> _.
      cbn [lstrip]. now rewrite Hs. }
  rewrite Hl. unfold r. now rewrite rev_involutive, lstrip_idem.
Qed.

Lemma spaced_weaken (s : str) (b : bool) : spaced b s = true -> spaced false s = true.
Proof.
  destruct s as [|c s]; [reflexivity|]. cbn [spaced]. destruct (is_space c); [|auto].
  intros H. apply andb_prop in H as [H Ht]. apply andb_prop in H as [Hc _].
  now rewrite Hc, Ht.
Qed.

Lemma spaced_suffix (a s : str) : forall b, spaced b (a ++ s) = true -> spaced false s = true.
Proof.
  induction a as [|c a IH]; intros b H; [eapply spaced_weaken, H|].
  cbn [app spaced] in H. destruct (is_space c); [|eapply IH, H].
  apply andb_prop in H as [_ H]. eapply IH, H.
Qed.

Lemma spaced_prefix (s a : str) : forall b, spaced b (s ++ a) = true -> spaced b s = true.
Proof.
  induction s as [|c s IH]; intros b H; [reflexivity|].
  cbn [app spaced] in *. destruct (is_space c); [|eapply IH, H].
  apply andb_prop in H as [H Ht]. rewrite H. eapply IH, Ht.
Qed.

Lemma spaced_strip (s : str) : spaced false s = true -> spaced false (strip s) = true.
Proof.
  intros H. unfold strip.
  destruct (lstrip_spec s) as (sp & Hs & _). rewrite Hs in H. apply spaced_suffix in H.
  destruct (lstrip_spec (rev (lstrip s))) as (sp' & Hs' & _).
  apply (f_equal (@rev N)) in Hs'. rewrite rev_involutive, rev_app_distr in Hs'.
  rewrite Hs' in H. eapply spaced_prefix, H.
Qed.

Lemma spaced_squeeze (s : str) : forall b, spaced b (squeeze is_space [32%N] b s) = true.
Proof.
  induction s as [|c s IH]; intros b; [reflexivity|].
  cbn [squeeze]. destruct (is_space c) eqn:Hc.
  - destruct b; [apply IH|]. cbn [app spaced]. rewrite is_space_32. apply IH.
  - cbn [spaced]. rewrite Hc. apply IH.
Qed.

Lemma tidy_strip_squeeze (s : str) : tidy (strip (sub (Plus space) (u " ") s)).
Proof.
  split; [apply strip_idem|]. apply spaced_strip.
  unfold space. rewrite sub_plus_chr. apply spaced_squeeze.
Qed.

Lemma sub_from_chars (P : N -> Prop) (r : re) : forall s p k,
  Forall P s -> Forall P (sub_from r [] p k s).
Proof.
  induction s as [|c s IH]; intros p k Hs; [constructor|].
  inversion Hs; subst. cbn [sub_from]. destruct k as [|k]; [|now apply IH].
  destruct (m r _) as [|st l]; [constructor; [assumption|now apply IH]|].
  destruct (length (c :: s) - length (rest st))%nat; [constructor; [assumption|]|];
    now apply IH.
Qed.

Lemma squeeze_chars (P : N -> Prop) (f : N -> bool) (repl : str) : forall s b,
  Forall P repl -> Forall P s -> Forall P (squeeze f repl b s).
Proof.
  induction s as [|c s IH]; intros b Hr Hs; [constructor|].
  inversion Hs; subst. cbn [squeeze]. destruct (f c).
  - apply Forall_app. split; [destruct b; [constructor|exact Hr]|now apply IH].
  - constructor; [assumption|now apply IH].
Qed.

Lemma lstrip_chars (P : N -> Prop) (s : str) : Forall P s -> Forall P (lstrip s).
Proof.
  induction 1 as [|c s Hc Hs IH]; [constructor|].
  cbn [lstrip]. destruct (is_space c); [exact IH|now constructor].
Qed.

Lemma strip_chars (P : N -> Prop) (s : str) : Forall P s -> Forall P (strip s).
Proof.
  intros H. unfold strip. now apply Forall_rev, lstrip_chars, Forall_rev, lstrip_chars.
Qed.

Lemma fold_sub_chars (P : N -> Prop) (rs : list re) : forall s,
  Forall P s -> Forall P (fold_left (fun cleaned pattern => sub pattern [] cleaned) rs s).
Proof.
  induction rs as [|r rs IH]; intros s Hs; [exact Hs|].
  cbn [fold_left]. apply IH. now apply sub_from_chars.
Qed.

(** X7. The title the API shows, [clean_show_title], is tidy (no white space
    at its ends, single spaces inside) and holds no character of the Arabic
    block, whatever the title it is given; and the name of the site itself,
    in any letter case, gives the empty title. *)
Theorem clean_show_title_tidy (title : str) :
  tidy (clean_show_title title)
  /\ Forall (fun c => arabic c = false) (clean_show_title title)
  /\ (lower (clean_arabic_title title) = u "topcinema" -> clean_show_title title = []).
Proof.
  unfold clean_show_title. case_bool_decide as Hsite.
  - split; [split; reflexivity|]. split; [constructor|reflexivity].
  - split; [apply tidy_strip_squeeze|]. split; [|contradiction].
    apply strip_chars. unfold space. rewrite sub_plus_chr.
    apply squeeze_chars; [repeat constructor|].
    apply fold_sub_chars. apply clean_arabic_title_chars.
Qed.

Example clean_show_title_examples :
  @clean_show_title ascii_env (u "TopCinema") = []
  /\ @clean_show_title ascii_env (u "مسلسل Dark Season 2  1080p BluRay") = u "Dark"
  /\ @clean_show_title ascii_env (u "Dune 2021 [8] WEB-DL x265") = u "Dune 2021".
Proof. repeat split; vm_compute; reflexivity. Qed.

End ShowTitle.

(** * The tokens of the packer *)

Section Tokens.
Import BaseSpec.

Lemma index_of_digits (i : nat) (d : N) :
  nth_error digits i = Some d -> index_of d digits = Some (N.of_nat i).
Proof.
  intros H.
  assert (Hi : (i < 36)%nat).
  { change 36%nat with (length digits). apply nth_error_Some. congruence. }
  do 36 (destruct i as [|i]; [vm_compute in H; injection H as <-; reflexivity|]).
  lia.
Qed.

Lemma of_base_go_app (b : N) (s1 s2 : str) : forall acc,
  of_base_go b acc (s1 ++ s2)
  = match of_base_go b acc s1 with
    | Some acc' => of_base_go b acc' s2
    | None => None
    end.
Proof.
  induction s1 as [|c s1 IH]; intros acc; [reflexivity|].
  cbn [of_base_go app]. destruct (index_of c digits) as [d|]; [|reflexivity].
  destruct (d <? b)%N; [apply IH|reflexivity].
Qed.

(** The loop of [to_base] writes the digits of [n] before what it was given. *)
Lemma to_base_loop_digits (b : N) : (2 <= b <= 36)%N -> forall fuel n result,
  (N.to_nat n < fuel)%nat ->
  exists s, to_base_loop fuel n b result = Done (s ++ result)
            /\ (forall acc, of_base_go b acc s = Some (acc * b ^ N.of_nat (length s) + n)%N)
            /\ (n <> 0%N -> s <> [] /\ hd_error s <> Some 48%N)
            /\ (n = 0%N -> s = []).
Proof.
  intros Hb. induction fuel as [|fuel IH]; intros n result Hf; [lia|].
  simpl. destruct (n =? 0)%N eqn:Hn.
  - apply N.eqb_eq in Hn. subst n. exists []. split; [reflexivity|].
    split; [intros acc; simpl; f_equal; lia|]. split; [congruence|reflexivity].
  - apply N.eqb_neq in Hn.
    destruct (b =? 0)%N eqn:Hb0; [apply N.eqb_eq in Hb0; lia|].
    assert (Hm : (n mod b < b)%N) by (apply N.mod_lt; lia).
    destruct (nth_error digits (N.to_nat (n mod b))) as [d|] eqn:Hd.
    2:{ apply nth_error_None in Hd. change (length digits) with 36%nat in Hd. lia. }
    assert (Hq : (n / b < n)%N) by (apply N.div_lt; lia).
    destruct (IH (n / b)%N (d :: result)) as (s & Hs & Hv & Hne & He); [lia|].
    exists (s ++ [d]). split; [rewrite Hs, <- app_assoc; reflexivity|].
    apply index_of_digits in Hd. rewrite N2Nat.id in Hd.
    split; [|split; [|congruence]].
    + intros acc. rewrite of_base_go_app, Hv. cbn [of_base_go]. rewrite Hd.
      apply N.ltb_lt in Hm. rewrite Hm. f_equal.
      rewrite length_app, Nat2N.inj_add. simpl length.
      change (N.of_nat 1) with 1%N. rewrite N.pow_add_r, N.pow_1_r.
      pose proof (N.div_mod n b ltac:(lia)) as Hdm. nia.
    + intros _. split; [destruct s; discriminate|].
      destruct (N.eq_dec (n / b)%N 0%N) as [Hz|Hz].
      * rewrite (He Hz). simpl. intros Hx. injection Hx as Hx. subst d.
        assert (Hlt : (n < b)%N) by (apply N.div_small_iff in Hz; lia).
        rewrite N.mod_small in Hd by exact Hlt.
        vm_compute in Hd. injection Hd as Hd. lia.
      * destruct (Hne Hz) as [Hs0 Hh]. destruct s; [contradiction|]. exact Hh.
Qed.

Lemma to_base_reads_back (b : N) : (2 <= b <= 36)%N -> forall n, exists s,
  to_base n b = Done s /\ of_base b s = Some n
  /\ (n <> 0%N -> hd_error s <> Some 48%N).
Proof.
  intros Hb n. unfold to_base. destruct (n =? 0)%N eqn:Hn.
  - apply N.eqb_eq in Hn. subst n. exists (u "0"). split; [reflexivity|].
    split; [|congruence]. unfold of_base.
    change (of_base_go b 0 (u "0")) with (if (0 <? b)%N then Some (0 * b + 0)%N else None).
    destruct (0 <? b)%N eqn:H0; [reflexivity|apply N.ltb_ge in H0; lia].
  - apply N.eqb_neq in Hn.
    assert (Hf : (N.to_nat n < S (N.to_nat n))%nat) by lia.
    destruct (to_base_loop_digits b Hb (S (N.to_nat n)) n [] Hf) as (s & Hs & Hv & Hne & _).
    exists s. rewrite app_nil_r in Hs. split; [exact Hs|].
    destruct (Hne Hn) as [Hs0 Hh]. split; [|intros _; exact Hh].
    unfold of_base. destruct s; [contradiction|]. rewrite Hv. f_equal; lia.
Qed.

(** X1. For a radix from 2 to 36, [to_base] returns the digits of the
    number in that radix: a string that is not empty, has no leading zero
    unless the number is 0, and that reads back as the number. Two distinct
    indices therefore never share a token. *)
Theorem to_base_round_trip (b : N) :
  (2 <= b <= 36)%N ->
  (forall n, exists s,
      to_base n b = Done s /\ of_base b s = Some n
      /\ (n <> 0%N -> hd_error s <> Some 48%N))
  /\ (forall n n', to_base n b = to_base n' b -> n = n').
Proof.
  intros Hb. split; [apply to_base_reads_back, Hb|].
  intros n n' He.
  destruct (to_base_reads_back b Hb n) as (s & Hs & Hv & _).
  destruct (to_base_reads_back b Hb n') as (s' & Hs' & Hv' & _).
  rewrite Hs, Hs' in He. injection He as ->. congruence.
Qed.

End Tokens.

Lemma to_base_round_trip_witness :
  (2 <= 36 <= 36)%N
  /\ to_base 71 36 = Done (u "1z")
  /\ BaseSpec.of_base 36 (u "1z") = Some 71%N
  /\ (forall n n', to_base n 36 = to_base n' 36 -> n = n').
Proof.
  split; [lia|]. split; [reflexivity|]. split; [reflexivity|].
  exact (proj2 (to_base_round_trip 36 ltac:(lia))).
Defined.

(** * The radix of the packer *)

Section Radix.
Context {E : PyEnv}.
Import BaseSpec.

Lemma unpack_step_inactive (a : N) (k : list str) (i : nat) (p : str) :
  active k i = false -> unpack_step a k i p = Done p.
Proof.
  unfold active, unpack_step. destruct (nth_error k i) as [[|c v]|]; [reflexivity|discriminate|reflexivity].
Qed.

Lemma unpack_step_active (a : N) (k : list str) (i : nat) (p : str) :
  active k i = true ->
  exists value, nth_error k i = Some value /\ value <> []
    /\ unpack_step a k i p
       = (token ← to_base (N.of_nat i) a; re_sub_token token value p).
Proof.
  unfold active, unpack_step. destruct (nth_error k i) as [[|c v]|]; try discriminate.
  intros _. exists (c :: v). split; [reflexivity|]. split; [discriminate|reflexivity].
Qed.

Lemma to_base_radix_0 (n : N) : n <> 0%N -> to_base n 0 = Raised.
Proof.
  intros Hn. unfold to_base. apply N.eqb_neq in Hn. rewrite Hn. simpl. now rewrite Hn.
Qed.

Lemma to_base_radix_1 (n : N) : n <> 0%N -> to_base n 1 = Hangs.
Proof.
  intros Hn. unfold to_base. pose proof Hn as Hn'. apply N.eqb_neq in Hn'. rewrite Hn'.
  now apply to_base_loop_radix_1.
Qed.

Lemma unpack_loop_radix_0_1 (k : list str) : forall n p,
  (exists i, (1 <= i < n)%nat /\ active k i = true) ->
  unpack_loop n 0 k p = Raised /\ unpack_loop n 1 k p = Hangs.
Proof.
  induction n as [|n IH]; intros p (i & Hi & Ha); [lia|].
  cbn [unpack_loop].
  destruct (active k n) eqn:Hn.
  - assert (Hn1 : (1 <= n)%nat).
    { destruct n; [|lia]. assert (i = 0)%nat by lia. lia. }
    destruct (unpack_step_active 0 k n p Hn) as (v & _ & _ & ->).
    destruct (unpack_step_active 1 k n p Hn) as (v' & _ & _ & ->).
    rewrite to_base_radix_0, to_base_radix_1 by lia. split; reflexivity.
  - rewrite !unpack_step_inactive by exact Hn.
    apply IH. exists i. split; [|exact Ha].
    assert (i <> n) by congruence. lia.
Qed.

Lemma unpack_loop_low (a : N) (k : list str) : forall n p,
  (forall i, (1 <= i < n)%nat -> active k i = false) ->
  unpack_loop n a k p
  = match n with
    | O => Done p
    | S _ =>
        match nth_error k 0 with
        | Some ((_ :: _) as value) => re_sub_token (u "0") value p
        | _ => Done p
        end
    end.
Proof.
  induction n as [|n IH]; intros p Hk; [reflexivity|].
  cbn [unpack_loop]. destruct n as [|n].
  - unfold unpack_step. destruct (nth_error k 0) as [[|c v]|]; try reflexivity.
    change (to_base (N.of_nat 0) a) with (@Done str (u "0")).
    change (token ← Done (u "0"); re_sub_token token (c :: v) p)
      with (re_sub_token (u "0") (c :: v) p).
    destruct (re_sub_token (u "0") (c :: v) p); reflexivity.
  - rewrite unpack_step_inactive by (apply Hk; lia).
    apply IH. intros i Hi. apply Hk. lia.
Qed.

(** X2. The radix matters only for the keywords of index 1 and more. When one
    of them, below the count, is not empty, radix 0 makes the reversal raise
    (a division by zero in [to_base]) and radix 1 makes it run without end
    (the digit loop never ends). When none is, the radix is not looked at:
    with a count of 0 the payload is returned as it is, and otherwise only
    the token "0" is replaced by the first keyword, if that is not empty. *)
Theorem unpack_radix_edges (p : str) (c : N) (k : list str) :
  ((exists i, (1 <= i < N.to_nat c)%nat /\ active k i = true) ->
   _unpack p 0 c k = Raised /\ _unpack p 1 c k = Hangs)
  /\ ((forall i, (1 <= i < N.to_nat c)%nat -> active k i = false) ->
      forall a,
        _unpack p a c k
        = if (c =? 0)%N then Done p
          else match nth_error k 0 with
               | Some ((_ :: _) as value) => re_sub_token (u "0") value p
               | _ => Done p
               end).
Proof.
  split.
  - intros H. unfold _unpack. now apply unpack_loop_radix_0_1.
  - intros H a. unfold _unpack. rewrite unpack_loop_low by exact H.
    destruct (N.to_nat c) eqn:Hc.
    + assert (c = 0%N) as -> by lia. reflexivity.
    + destruct (c =? 0)%N eqn:Hc0; [apply N.eqb_eq in Hc0; lia|reflexivity].
Qed.

Lemma re_sub_token_plain (token value p : str) :
  existsb (N.eqb 92) value = false -> exists q, re_sub_token token value p = Done q.
Proof. intros H. unfold re_sub_token. rewrite H. eauto. Qed.

Lemma unpack_loop_returns (a : N) (k : list str) :
  (2 <= a <= 36)%N -> Forall (fun value => existsb (N.eqb 92) value = false) k ->
  forall n p, exists q, unpack_loop n a k p = Done q.
Proof.
  intros Ha Hk. induction n as [|n IH]; intros p; [eexists; reflexivity|].
  cbn [unpack_loop]. unfold unpack_step.
  destruct (nth_error k n) as [[|c v]|] eqn:Hn; try apply IH.
  destruct (to_base_reads_back a Ha (N.of_nat n)) as (token & -> & _).
  assert (Hv : existsb (N.eqb 92) (c :: v) = false).
  { rewrite List.Forall_forall in Hk. apply Hk. eapply nth_error_In. exact Hn. }
  destruct (re_sub_token_plain token (c :: v) p Hv) as [q Hq].
  change (token0 ← Done token; re_sub_token token0 (c :: v) p)
    with (re_sub_token token (c :: v) p).
  rewrite Hq. apply IH.
Qed.

End Radix.

Example unpack_radix_0 :
  @_unpack ascii_env (u "1 0") 0 2 [u "a"; u "b"] = Raised
  /\ @_unpack ascii_env (u "1 0") 1 2 [u "a"; u "b"] = Hangs
  /\ @_unpack ascii_env (u "1 0") 0 2 [u "a"; []] = Done (u "1 a")
  /\ @_unpack ascii_env (u "1 0") 0 0 [u "a"; u "b"] = Done (u "1 0").
Proof. repeat split; reflexivity. Qed.

(** X3. For a radix from 2 to 36 and keywords that hold no backslash, the
    reversal always returns a text, whatever the payload and the count; and
    for every radix but 1 it comes to an end. *)
Theorem unpack_returns (p : str) (a c : N) (k : list str) `{PyEnv} :
  (2 <= a <= 36)%N ->
  Forall (fun value => existsb (N.eqb 92) value = false) k ->
  (exists q, _unpack p a c k = Done q)
  /\ (forall a', a' <> 1%N -> _unpack p a' c k <> Hangs).
Proof.
  intros Ha Hk. split; [apply unpack_loop_returns; assumption|].
  intros a' Ha'. unfold _unpack. generalize (N.to_nat c) p. clear p.
  induction n as [|n IH]; intros p; [discriminate|].
  cbn [unpack_loop]. unfold unpack_step.
  destruct (nth_error k n) as [[|ch v]|] eqn:Hn; try apply IH.
  pose proof (to_base_returns (N.of_nat n) a' Ha') as Ht.
  destruct (to_base (N.of_nat n) a') as [token| |]; [|discriminate|contradiction].
  assert (Hv : existsb (N.eqb 92) (ch :: v) = false).
  { rewrite List.Forall_forall in Hk. apply Hk. eapply nth_error_In. exact Hn. }
  destruct (re_sub_token_plain token (ch :: v) p Hv) as [q Hq].
  change (token0 ← Done token; re_sub_token token0 (ch :: v) p)
    with (re_sub_token token (ch :: v) p).
  rewrite Hq. apply IH.
Qed.

Lemma unpack_returns_witness :
  (2 <= 10 <= 36)%N
  /\ Forall (fun value => existsb (N.eqb 92) value = false) UnpackExample.keywords
  /\ @_unpack ascii_env UnpackExample.payload 10 8 UnpackExample.keywords
     = Done UnpackExample.unpacked
  /\ (exists q, @_unpack ascii_env UnpackExample.payload 10 8 UnpackExample.keywords = Done q).
Proof.
  assert (Hk : Forall (fun value => existsb (N.eqb 92) value = false) UnpackExample.keywords)
    by (repeat constructor).
  split; [lia|]. split; [exact Hk|]. split; [reflexivity|].
  exact (proj1 (unpack_returns UnpackExample.payload 10 8 UnpackExample.keywords
                  (H:=ascii_env) ltac:(lia) Hk)).
Defined.

(** * The download page *)

Section Download.
Context {E : PyEnv} {U : VidTube.UrlLib} {H : VidTube.Host}.
Import Re ReSpec ReFacts VidTube PartFacts.

Lemma first_ending_found (suffix : str) (links : list str) (href : str) :
  first_ending suffix links = Some href ->
  exists pre post, links = pre ++ href :: post
    /\ endswith suffix href = true
    /\ Forall (fun l => endswith suffix l = false) pre.
Proof.
  induction links as [|l links IH]; [discriminate|]. cbn [first_ending].
  destruct (endswith suffix l) eqn:Hl.
  - intros [= <-]. exists [], links. split; [reflexivity|]. split; [exact Hl|constructor].
  - intros Hf. destruct (IH Hf) as (pre & post & -> & He & Hpre).
    exists (l :: pre), post. split; [reflexivity|]. split; [exact He|now constructor].
Qed.

Lemma first_ending_none (suffix : str) (links : list str) :
  first_ending suffix links = None <-> Forall (fun l => endswith suffix l = false) links.
Proof.
  induction links as [|l links IH]; [split; [constructor|reflexivity]|].
  cbn [first_ending]. destruct (endswith suffix l) eqn:Hl; split.
  - discriminate.
  - intros Hf. inversion Hf; congruence.
  - intros Hn. constructor; [exact Hl|now apply IH].
  - intros Hf. inversion Hf; subst. now apply IH.
Qed.

Lemma first_download_found (path_only : str) (links : list str) (href : str) :
  first_download path_only links = Some href ->
  In href links /\ contains (u "/d/") href = true /\ href <> path_only.
Proof.
  induction links as [|l links IH]; [discriminate|]. cbn [first_download].
  destruct (contains (u "/d/") l) eqn:Hl; cbn [andb].
  - case_bool_decide as Hp; cbn [negb].
    + intros Hf. destruct (IH Hf) as (Hin & Hc & Hne). split; [now right|now split].
    + intros [= <-]. split; [now left|now split].
  - intros Hf. destruct (IH Hf) as (Hin & Hc & Hne). split; [now right|now split].
Qed.

Lemma first_download_none (path_only : str) (links : list str) :
  first_download path_only links = None ->
  Forall (fun l => contains (u "/d/") l = false \/ l = path_only) links.
Proof.
  induction links as [|l links IH]; [constructor|]. cbn [first_download].
  destruct (contains (u "/d/") l) eqn:Hl; cbn [andb].
  - case_bool_decide as Hp; cbn [negb]; [|discriminate].
    intros Hf. constructor; [now right|now apply IH].
  - intros Hf. constructor; [now left|now apply IH].
Qed.

Lemma by_priority_found (links : list str) : forall ps href quality,
  by_priority ps links = (Some href, quality) ->
  exists better suffix worse,
    ps = better ++ (suffix, quality) :: worse
    /\ first_ending suffix links = Some href
    /\ Forall (fun p => Forall (fun l => endswith (fst p) l = false) links) better.
Proof.
  induction ps as [|[suffix label] ps IH]; intros href quality; [discriminate|].
  cbn [by_priority]. destruct (first_ending suffix links) as [h|] eqn:Hf.
  - intros [= <- <-]. exists [], suffix, ps. split; [reflexivity|]. split; [exact Hf|constructor].
  - intros Hb. destruct (IH _ _ Hb) as (better & sfx & worse & -> & Hs & Hbetter).
    exists ((suffix, label) :: better), sfx, worse. split; [reflexivity|].
    split; [exact Hs|]. constructor; [|exact Hbetter]. now apply first_ending_none.
Qed.

Lemma by_priority_none (links : list str) : forall ps,
  fst (by_priority ps links) = None ->
  Forall (fun p => Forall (fun l => endswith (fst p) l = false) links) ps.
Proof.
  induction ps as [|[suffix label] ps IH]; [constructor|]. cbn [by_priority].
  destruct (first_ending suffix links) eqn:Hf; [discriminate|].
  intros Hn. constructor; [now apply first_ending_none|now apply IH].
Qed.

(** X19. The link followed on a download page is chosen by quality, not by
    its place in the page: the first link that ends in "_x" (1080p) if there
    is one, else the first that ends in "_h" (720p), then "_n" (480p), then
    "_l" (240p). Only when no link ends in any of these is the first link to
    a download page ("/d/") other than the page itself followed; and when
    there is none of those either, no link is followed. *)
Theorem choose_link_by_quality (target_url : str) (links : list str) :
  match choose_link target_url links with
  | (Some href, quality) =>
      In href links
      /\ ((exists better suffix worse,
              priorities = better ++ (suffix, quality) :: worse
              /\ first_ending suffix links = Some href
              /\ endswith suffix href = true
              /\ Forall (fun p => Forall (fun l => endswith (fst p) l = false) links) better)
          \/ (quality = u "unknown"
              /\ Forall (fun p => Forall (fun l => endswith (fst p) l = false) links) priorities
              /\ contains (u "/d/") href = true
              /\ href <> urlparse_path target_url))
  | (None, _) =>
      Forall (fun p => Forall (fun l => endswith (fst p) l = false) links) priorities
      /\ Forall (fun l => contains (u "/d/") l = false \/ l = urlparse_path target_url) links
  end.
Proof.
  unfold choose_link.
  destruct (by_priority priorities links) as [[href|] quality] eqn:Hb.
  - destruct (by_priority_found _ _ _ _ Hb) as (better & suffix & worse & Hp & Hf & Hbetter).
    destruct (first_ending_found _ _ _ Hf) as (pre & post & -> & He & _).
    split; [apply in_elt|]. left. exists better, suffix, worse. auto.
  - assert (Hn : Forall (fun p => Forall (fun l => endswith (fst p) l = false) links) priorities).
    { apply by_priority_none. now rewrite Hb. }
    destruct (first_download _ links) as [href|] eqn:Hd.
    + destruct (first_download_found _ _ _ Hd) as (Hin & Hc & Hne).
      split; [exact Hin|]. right. auto.
    + split; [exact Hn|]. now apply first_download_none.
Qed.

Example choose_link_example :
  by_priority priorities
    [u "/d/abc_l"; u "/d/abc_n"; u "/other"; u "/d/abc_x"; u "/d/abc_h"]
  = (Some (u "/d/abc_x"), u "1080p")
  /\ by_priority priorities [u "/d/abc_l"; u "/d/abc_n"; u "/other"]
     = (Some (u "/d/abc_n"), u "480p").
Proof. split; reflexivity. Qed.

Lemma denote_lit (s : str) : forall p w t, denote (lit s) p w t <-> w = s.
Proof.
  induction s as [|c s IH]; intros p w t.
  - cbn. split; [inversion 1; reflexivity|intros ->; constructor].
  - change (lit (c :: s)) with (Seq (chr c) (lit s)). rewrite denote_seq. split.
    + intros (w1 & w2 & -> & H1 & H2). apply denote_chr_inv in H1 as (d & -> & Hd).
      apply N.eqb_eq in Hd. subst d. apply IH in H2. now subst.
    + intros ->. exists [c], s. split; [reflexivity|]. split.
      * constructor. apply N.eqb_refl.
      * now apply IH.
Qed.

Lemma denote_mp4_body p w t :
  denote mp4_body p w t ->
  exists s a b,
    w = u "http" ++ s ++ u "://" ++ a ++ u ".mp4" ++ b
    /\ (s = [] \/ s = u "s")
    /\ a <> []
    /\ Forall (fun c => ~ In c Scraper.quotes) (a ++ b).
Proof.
  unfold mp4_body. intros Hd.
  apply denote_seq in Hd as (w1 & r1 & -> & H1 & Hd). apply denote_lit in H1 as ->.
  apply denote_seq in Hd as (s & r2 & -> & H2 & Hd).
  apply denote_seq in Hd as (w3 & r3 & -> & H3 & Hd). apply denote_lit in H3 as ->.
  apply denote_seq in Hd as (a & r4 & -> & H4 & Hd).
  apply denote_seq in Hd as (w5 & b & -> & H5 & H6). apply denote_lit in H5 as ->.
  apply denote_plus_chr in H4 as [Ha Hfa]. apply denote_star_chr in H6.
  exists s, a, b. split; [reflexivity|]. split; [|split; [exact Ha|]].
  - inversion H2; subst; [|now left].
    match goal with Hc : denote (chr 115) _ _ _ |- _ =>
      apply denote_chr_inv in Hc as (d & -> & Hd) end.
    apply N.eqb_eq in Hd. subst d. now right.
  - apply Forall_app. split; (eapply List.Forall_impl; [|eassumption]);
      intros c Hc Hin; apply negb_true_iff in Hc;
      (assert (Hx : existsb (N.eqb c) Scraper.quotes = true)
         by (apply existsb_exists; exists c; split; [exact Hin|apply N.eqb_refl]));
      congruence.
Qed.

Lemma search_mp4 (s : str) (mt : mstate) :
  Re.search mp4_re s = Some mt ->
  exists v p t, group 1 (groups mt) = Some v /\ denote mp4_body p v t.
Proof.
  intros Hs. apply search_from_sound in Hs as (pre & w & _ & _ & Hin).
  unfold mp4_re in Hin. cbn [m] in Hin.
  apply in_flat_map in Hin as (st1 & H1 & Hin).
  apply in_flat_map in Hin as (st2 & H2 & Hin).
  assert (Hq : nogroups (one_of Scraper.quotes) = true) by reflexivity.
  pose proof (m_nogroups _ Hq _ _ Hin) as Hg.
  change (map (capture 1 st1) (m mp4_body st1)) with (m (Grp 1 mp4_body) st1) in H2.
  destruct (m_ends_in_group 1 mp4_body (Grp 1 mp4_body) (eg_grp 1 mp4_body) eq_refl _ _ H2)
    as (w1 & w2 & _ & Hd & Hg2).
  exists w2, (last_prev (prev st1) w1), (rest st2). split; [|exact Hd].
  rewrite Hg, Hg2. cbn [group]. reflexivity.
Qed.

(** X20. [_handle_vidtube_pro] follows at most one link. With no link to
    follow it makes no request and returns [None]. With a link that
    [urljoin] refuses it raises, before any request. Otherwise it asks once
    for the page at the address [urljoin] gives for the chosen link, with
    the headers it was given, and it returns: [None] when that request
    fails or is not answered with status 200; else the address of the
    submit button when the page has one; else a quoted address found in
    the page, of the form [http://] or [https://], then text, then [.mp4],
    then text, without any quote in it. *)
Theorem handle_vidtube_pro_result (target_url : str) (pg : page)
    (headers : list (str * str)) (log : list vrequest) :
  (fst (choose_link target_url (hrefs pg)) = None ->
   _handle_vidtube_pro target_url pg headers log = (log, Done None))
  /\ (forall next_path,
        fst (choose_link target_url (hrefs pg)) = Some next_path ->
        (urljoin target_url next_path = None ->
         _handle_vidtube_pro target_url pg headers log = (log, Raised))
        /\ forall next_url,
             urljoin target_url next_path = Some next_url ->
             fst (_handle_vidtube_pro target_url pg headers log)
             = log ++ [VGet next_url headers]
             /\ (exists r, snd (_handle_vidtube_pro target_url pg headers log) = Done r)
             /\ (get log (VGet next_url headers) = None ->
                 snd (_handle_vidtube_pro target_url pg headers log) = Done None)
             /\ (forall status_code page2,
                   get log (VGet next_url headers) = Some (status_code, page2) ->
                   status_code <> 200%N ->
                   snd (_handle_vidtube_pro target_url pg headers log) = Done None)
             /\ (forall page2 v,
                   get log (VGet next_url headers) = Some (200%N, page2) ->
                   submit_btn page2 = Some (Some v) -> v <> [] ->
                   snd (_handle_vidtube_pro target_url pg headers log) = Done (Some v))
             /\ (forall v,
                   snd (_handle_vidtube_pro target_url pg headers log) = Done (Some v) ->
                   exists page2,
                     get log (VGet next_url headers) = Some (200%N, page2)
                     /\ ((submit_btn page2 = Some (Some v) /\ v <> [])
                         \/ exists s a b,
                              v = u "http" ++ s ++ u "://" ++ a ++ u ".mp4" ++ b
                              /\ (s = [] \/ s = u "s") /\ a <> []
                              /\ Forall (fun c => ~ In c Scraper.quotes) (a ++ b)))).
Proof.
  unfold _handle_vidtube_pro. split; [now intros ->|]. intros next_path ->.
  split; [now intros ->|]. intros next_url ->.
  destruct (get log _) as [[status_code page2]|] eqn:Hg.
  2:{ split; [reflexivity|]. split; [eexists; reflexivity|]. split; [reflexivity|].
      split; [discriminate|]. split; discriminate. }
  destruct (N.eqb_spec status_code 200) as [->|Hst]; cbn [negb].
  2:{ split; [reflexivity|]. split; [eexists; reflexivity|]. split; [discriminate|].
      split; [reflexivity|]. split; [|discriminate].
      intros page2' v [= Est _]. contradiction. }
  set (request := VGet next_url headers) in *.
  assert (Hre : forall v',
    match Re.search mp4_re (html page2) with
    | Some mt => group 1 (groups mt)
    | None => None
    end = Some v' ->
    exists s a b,
      v' = u "http" ++ s ++ u "://" ++ a ++ u ".mp4" ++ b
      /\ (s = [] \/ s = u "s") /\ a <> []
      /\ Forall (fun c => ~ In c Scraper.quotes) (a ++ b)).
  { intros v' Hv'. destruct (Re.search mp4_re (html page2)) as [mt|] eqn:Hs; [|discriminate].
    destruct (search_mp4 _ _ Hs) as (v0 & p & t & Hg0 & Hd).
    rewrite Hg0 in Hv'. injection Hv' as <-. eapply denote_mp4_body, Hd. }
  assert (Hmp4 : forall v,
    snd (match Re.search mp4_re (html page2) with
         | Some mt => (log ++ [request], Done (group 1 (groups mt)))
         | None => (log ++ [request], Done None)
         end) = Done (Some v) ->
    match Re.search mp4_re (html page2) with
    | Some mt => group 1 (groups mt)
    | None => None
    end = Some v).
  { intros v. destruct (Re.search mp4_re (html page2)); cbn [snd]; congruence. }
  assert (Hfst : fst (match Re.search mp4_re (html page2) with
                      | Some mt => (log ++ [request], Done (group 1 (groups mt)))
                      | None => (log ++ [request], @Done (option str) None)
                      end) = log ++ [request])
    by (destruct (Re.search mp4_re (html page2)); reflexivity).
  assert (Hdone : exists r,
            snd (match Re.search mp4_re (html page2) with
                 | Some mt => (log ++ [request], Done (group 1 (groups mt)))
                 | None => (log ++ [request], @Done (option str) None)
                 end) = Done r)
    by (destruct (Re.search mp4_re (html page2)); eexists; reflexivity).
  destruct (submit_btn page2) as [[[|c href]|]|] eqn:Hbtn.
  - split; [exact Hfst|]. split; [exact Hdone|]. split; [discriminate|].
    split; [intros ? ? [= <- _]; contradiction|]. split.
    + intros page2' v [= <-]. rewrite Hbtn. intros [= <-]. contradiction.
    + intros v Hv. exists page2. split; [reflexivity|]. right. apply Hre, Hmp4, Hv.
  - split; [reflexivity|]. split; [eexists; reflexivity|]. split; [discriminate|].
    split; [intros ? ? [= <- _]; contradiction|]. split.
    + intros page2' v [= <-]. rewrite Hbtn. intros [= <-]. reflexivity.
    + intros v [= <-]. exists page2. split; [reflexivity|]. left.
      split; [exact Hbtn|discriminate].
  - split; [exact Hfst|]. split; [exact Hdone|]. split; [discriminate|].
    split; [intros ? ? [= <- _]; contradiction|]. split.
    + intros page2' v [= <-]. rewrite Hbtn. discriminate.
    + intros v Hv. exists page2. split; [reflexivity|]. right. apply Hre, Hmp4, Hv.
  - split; [exact Hfst|]. split; [exact Hdone|]. split; [discriminate|].
    split; [intros ? ? [= <- _]; contradiction|]. split.
    + intros page2' v [= <-]. rewrite Hbtn. discriminate.
    + intros v Hv. exists page2. split; [reflexivity|]. right. apply Hre, Hmp4, Hv.
Qed.

End Download.

(** * The scraper and its base address *)

Section Construction.
Context {E : PyEnv} {W : Web}.
Import NetSpec PartFacts.

Lemma lstrip_cp_head (a : N) (s : str) : startswith [a] (lstrip_cp a s) = false.
Proof.
  induction s as [|c s IH]; [reflexivity|]. cbn [lstrip_cp].
  destruct (c =? a)%N eqn:Hc; [exact IH|].
  cbn [startswith]. rewrite N.eqb_sym, Hc. reflexivity.
Qed.

Lemma rstrip_cp_end (a : N) (s : str) : endswith [a] (rstrip_cp a s) = false.
Proof.
  unfold endswith, rstrip_cp. rewrite rev_involutive. apply lstrip_cp_head.
Qed.

Lemma lstrip_cp_idem (a : N) (s : str) : lstrip_cp a (lstrip_cp a s) = lstrip_cp a s.
Proof.
  induction s as [|c s IH]; [reflexivity|]. cbn [lstrip_cp].
  destruct (c =? a)%N eqn:Hc; [exact IH|]. cbn [lstrip_cp]. now rewrite Hc.
Qed.

Lemma rstrip_cp_idem (a : N) (s : str) : rstrip_cp a (rstrip_cp a s) = rstrip_cp a s.
Proof. unfold rstrip_cp. now rewrite rev_involutive, lstrip_cp_idem. Qed.

Lemma discover_domain_end (session : nat) (w : world) :
  endswith (u "/") (snd (_discover_domain session w)) = false.
Proof.
  unfold _discover_domain, send. destruct (http _ _); apply rstrip_cp_end.
Qed.

(** X8. A scraper is built with a base address that never ends in a slash,
    on a session of its own. With a base address given, no request is made;
    without one, the only request is the page of the default domain. The
    endpoints are the base address followed by a fixed path. *)
Theorem new_scraper_base_url (given : option str) (w : world) :
  endswith (u "/") (base_url (snd (new_scraper given w))) = false
  /\ session (snd (new_scraper given w)) = sessions w
  /\ match truthy given with
     | Some _ => fst (new_scraper given w) = World (log w) (S (sessions w))
     | None =>
         fst (new_scraper given w) = World (log w ++ [GET (sessions w) BASE_URL]) (S (sessions w))
     end
  /\ _get_endpoint (snd (new_scraper given w)) (u "search")
     = base_url (snd (new_scraper given w))
       ++ u "/wp-content/themes/movies2023/Ajaxat/Searching.php"
  /\ _get_endpoint (snd (new_scraper given w)) (u "server")
     = base_url (snd (new_scraper given w))
       ++ u "/wp-content/themes/movies2023/Ajaxat/Single/Server.php".
Proof.
  assert (He : endswith (u "/") (base_url (snd (new_scraper given w))) = false).
  { unfold new_scraper. destruct (truthy given) as [b|]; [apply rstrip_cp_end|].
    pose proof (discover_domain_end (sessions w) (World (log w) (S (sessions w)))) as Hd.
    destruct (_discover_domain _ _) as [w1 [|c d]]; [apply rstrip_cp_end|exact Hd]. }
  assert (Hr : rstrip_cp 47 (base_url (snd (new_scraper given w)))
               = base_url (snd (new_scraper given w))).
  { unfold new_scraper. destruct (truthy given) as [b|]; [apply rstrip_cp_idem|].
    unfold _discover_domain, send. destruct (http _ _) as [r|].
    - cbn [snd]. destruct (rstrip_cp 47 (final_url r)) eqn:Hf; [apply rstrip_cp_idem|].
      cbn [snd base_url]. rewrite <- Hf. apply rstrip_cp_idem.
    - reflexivity. }
  split; [exact He|]. split.
  { unfold new_scraper. destruct (truthy given); [reflexivity|].
    destruct (_discover_domain _ _) as [w1 [|c d]]; reflexivity. }
  split.
  { unfold new_scraper. destruct (truthy given); [reflexivity|].
    unfold _discover_domain, send. cbn [log sessions].
    destruct (http _ _) as [r|]; [|reflexivity].
    destruct (rstrip_cp 47 (final_url r)); reflexivity. }
  unfold _get_endpoint. rewrite Hr. split; reflexivity.
Qed.

Example new_scraper_example :
  @new_scraper NetExample.site None (World [] 0)
  = (World [GET 0 BASE_URL] 1, TopCinemaScraper 0 (u "https://topcinema.rip"))
  /\ @new_scraper NetExample.site (Some (u "https://mirror.example//")) (World [] 0)
     = (World [] 1, TopCinemaScraper 0 (u "https://mirror.example")).
Proof. split; reflexivity. Qed.

End Construction.

(** * Searching *)

Section Searching.
Context {E : PyEnv} {W : Web}.
Import NetSpec.

Lemma parse_search_result_type (it : item) (h : hit) :
  _parse_search_result it = Some h -> In (h_type h) content_types.
Proof.
  unfold _parse_search_result.
  destruct (i_link it) as [[[[|c url]|] link_title]|]; try discriminate.
  destruct (i_metadata it); [|discriminate]. intros [= <-]. cbn [h_type].
  unfold show_type_of, content_types.
  repeat match goal with |- context [if ?b then _ else _] => destruct b end;
    cbn [In]; auto.
Qed.

Lemma search_results_types (items : list item) :
  Forall (fun h => In (h_type h) content_types) (search_results None items).
Proof.
  induction items as [|it items IH]; [constructor|].
  cbn [search_results]. destruct (_parse_search_result it) as [h|] eqn:Hp; [|exact IH].
  cbn [truthy]. constructor; [eapply parse_search_result_type, Hp|exact IH].
Qed.

Lemma filter_none {A : Type} (f : A -> bool) (l : list A) :
  Forall (fun x => f x = false) l -> List.filter f l = [].
Proof.
  induction 1 as [|x l Hx Hl IH]; [reflexivity|]. cbn [List.filter]. now rewrite Hx.
Qed.

Lemma by_type_partition (l : list hit) :
  Forall (fun h => In (h_type h) content_types) l ->
  Permutation l
    (List.filter (fun h => bool_decide (h_type h = u "movie")) l
     ++ List.filter (fun h => bool_decide (h_type h = u "series")) l
     ++ List.filter (fun h => bool_decide (h_type h = u "anime")) l).
Proof.
  induction 1 as [|h l Hh Hl IH]; [constructor|].
  cbn [List.filter]. unfold content_types in Hh. cbn [In] in Hh.
  destruct Hh as [Hh|[Hh|[Hh|[]]]]; rewrite <- Hh;
    repeat (rewrite bool_decide_true by reflexivity);
    repeat (rewrite bool_decide_false
              by (intros Hx; vm_compute in Hx; discriminate Hx)).
  - now constructor.
  - apply Permutation_cons_app. exact IH.
  - rewrite app_assoc. apply Permutation_cons_app. rewrite <- app_assoc. exact IH.
Qed.

Lemma search_unfold (self : scraper) (query : str) (content_type : option str) (w : world) :
  Scraper.search self query content_type w
  = (World (log w ++ [search_request self query]) (sessions w),
     match http (log w) (search_request self query) with
     | Some response =>
         if between 400 599 (status_code response) then []
         else search_results content_type (small_boxes (text response))
     | None => []
     end).
Proof.
  unfold Scraper.search, send, search_request.
  destruct (http _ _) as [r|]; [|reflexivity].
  unfold raise_for_status. destruct (between 400 599 (status_code r)); reflexivity.
Qed.

(** X9. [search] makes one request, whatever the type asked for: the query
    posted to the search endpoint for all types, the filter being applied to
    the answer. When the request fails, or is answered with an error status
    (400 to 599), the result is the empty list: the caller sees no error. *)
Theorem search_one_request (self : scraper) (query : str) (content_type : option str)
    (w : world) :
  fst (Scraper.search self query content_type w)
  = World (log w ++ [search_request self query]) (sessions w)
  /\ (http (log w) (search_request self query) = None ->
      snd (Scraper.search self query content_type w) = [])
  /\ (forall response,
        http (log w) (search_request self query) = Some response ->
        between 400 599 (status_code response) = true ->
        snd (Scraper.search self query content_type w) = []).
Proof.
  rewrite search_unfold. cbn [fst snd]. split; [reflexivity|]. split.
  - now intros ->.
  - intros r -> ->. reflexivity.
Qed.

(** X10. Every hit of a search is a movie, a series or an anime. From the
    same state of the world, the three typed searches share out the hits of
    the search without a type: each hit is returned by exactly one of them.
    A search for any other type that is not empty returns nothing. *)
Theorem search_types (self : scraper) (query : str) (w : world) :
  Forall (fun h => In (h_type h) content_types)
    (snd (Scraper.search self query None w))
  /\ Permutation (snd (Scraper.search self query None w))
       (snd (search_movies self query w) ++ snd (search_series self query w)
        ++ snd (search_anime self query w))
  /\ (forall content_type,
        content_type <> [] -> ~ In content_type content_types ->
        snd (Scraper.search self query (Some content_type) w) = []).
Proof.
  unfold search_movies, search_series, search_anime.
  assert (Hu : forall ct, snd (Scraper.search self query ct w)
                 = match http (log w) (search_request self query) with
                   | Some response =>
                       if between 400 599 (status_code response) then []
                       else search_results ct (small_boxes (text response))
                   | None => []
                   end) by (intros ct; now rewrite search_unfold).
  rewrite !Hu.
  destruct (http _ _) as [r|].
  2:{ split; [constructor|]. split; [constructor|]. intros ct _ _. now rewrite Hu. }
  destruct (between 400 599 (status_code r)).
  { split; [constructor|]. split; [constructor|]. intros ct _ _. now rewrite Hu. }
  pose proof (search_results_types (small_boxes (text r))) as Ht.
  split; [exact Ht|]. split.
  - rewrite !search_results_filter by discriminate. now apply by_type_partition.
  - intros ct Hne Hct. rewrite Hu.
    rewrite search_results_filter by exact Hne.
    apply filter_none. eapply List.Forall_impl; [|exact Ht].
    intros h Hh. cbv beta. apply bool_decide_eq_false. congruence.
Qed.

End Searching.

(** * The links of a season page *)

Section Links.
Context {E : PyEnv} {W : Web}.
Import NetSpec TextSpec TextFacts.

Lemma first_group_not_nil (ns : list nat) (gs : list (nat * str)) (g : str) :
  first_group ns gs = Some g -> g <> [].
Proof.
  induction ns as [|n ns IH]; [discriminate|]. cbn [first_group].
  destruct (Re.group n gs) as [[|c v]|]; [exact IH|intros [= <-]; discriminate|exact IH].
Qed.

Lemma special_type_of_not_nil (url special_type : str) :
  special_type_of url = Some special_type -> special_type <> [].
Proof.
  unfold special_type_of. destruct (Re.search special_re url); [|discriminate].
  destruct (contains (u "ova") (lower url)); [intros [= <-]; discriminate|].
  destruct (contains (u "movie") (lower url)); intros [= <-]; discriminate.
Qed.

Lemma parse_episode_link_kept (link_elem : anchor) (href : str) (e : episode) :
  _parse_episode_link link_elem href = Some e ->
  url e = href /\ servers e = [] /\ (href = [] \/ absolute href = true).
Proof.
  unfold _parse_episode_link. fold (absolute href).
  destruct (match href with [] => false | _ => true end && negb (absolute href)) eqn:Hrel;
    [discriminate|].
  destruct (_ || _); [discriminate|].
  assert (Ha : href = [] \/ absolute href = true).
  { destruct href; [now left|]. right. cbn [andb] in Hrel. now apply negb_false_iff. }
  destruct (find_episode_number _ _ _) as [mt|].
  - destruct (first_group _ _) as [g|]; [|discriminate]. intros [= <-]. cbn. auto.
  - destruct (special_type_of href); intros [= <-]; cbn; auto.
Qed.

(** X11. An episode read from a link keeps the address of the link, has no
    server yet, and has an episode number that is not empty. A link is
    dropped when its address is relative (the join with the base address
    fails in this module) or leads to a category or a genre. The episode is
    special exactly when the address says so. *)
Theorem parse_episode_link_result (link_elem : anchor) (href : str) (e : episode) :
  _parse_episode_link link_elem href = Some e ->
  url e = href
  /\ servers e = []
  /\ episode_number e <> []
  /\ (href = [] \/ absolute href = true)
  /\ contains (u "/category/") href = false
  /\ contains (u "/genre/") href = false
  /\ is_special e = match special_type_of href with Some _ => true | None => false end
  /\ strip (title e) = title e.
Proof.
  unfold _parse_episode_link. fold (absolute href).
  destruct href as [|c href'] eqn:Hhref.
  - cbn [andb]. destruct (_ || _) eqn:Hc; [discriminate|].
    apply orb_false_elim in Hc as [Hc1 Hc2].
    destruct (find_episode_number _ _ _) as [mt|].
    + destruct (first_group _ _) as [g|] eqn:Hg; [|discriminate].
      intros [= <-]. cbn. repeat split; try reflexivity; auto.
      * eapply first_group_not_nil, Hg.
      * apply strip_idem.
    + destruct (special_type_of []) as [st|] eqn:Hst; intros [= <-]; cbn;
        repeat split; try reflexivity; auto; try discriminate; try apply strip_idem.
      all: try (eapply special_type_of_not_nil, Hst).
  - rewrite <- Hhref. destruct (absolute href) eqn:Ha.
    2:{ rewrite Hhref at 1. discriminate. }
    rewrite andb_false_r.
    destruct (_ || _) eqn:Hc; [discriminate|].
    apply orb_false_elim in Hc as [Hc1 Hc2].
    destruct (find_episode_number _ _ _) as [mt|].
    + destruct (first_group _ _) as [g|] eqn:Hg; [|discriminate].
      intros [= <-]. cbn. repeat split; try reflexivity; auto.
      * eapply first_group_not_nil, Hg.
      * apply strip_idem.
    + destruct (special_type_of href) as [st|] eqn:Hst; intros [= <-]; cbn;
        repeat split; try reflexivity; auto; try discriminate; try apply strip_idem.
      all: try (eapply special_type_of_not_nil, Hst).
Qed.

End Links.

Lemma parse_episode_link_result_witness :
  @_parse_episode_link ascii_env CrawlExample.first
     (u "https://topcinema.rip/show-season-1-episode-1/") = Some CrawlExample.the_first
  /\ episode_number CrawlExample.the_first <> []
  /\ @_parse_episode_link ascii_env CrawlExample.first (u "/show-season-1-episode-1/") = None.
Proof.
  assert (H : @_parse_episode_link ascii_env CrawlExample.first
     (u "https://topcinema.rip/show-season-1-episode-1/") = Some CrawlExample.the_first)
    by (vm_compute; reflexivity).
  split; [exact H|]. split; [|vm_compute; reflexivity].
  exact (proj1 (proj2 (proj2 (parse_episode_link_result (E:=ascii_env) _ _ _ H)))).
Defined.

(** * The season crawl *)

Section Crawl.
Context {E : PyEnv} {W : Web}.
Import NetSpec SortSpec CrawlSpec CrawlFacts FailureSpec.

Lemma page_episodes_of_new : forall anchors seen eps seen',
  page_episodes_of anchors seen = (eps, seen') ->
  seen ⊆ seen'
  /\ List.NoDup (map url eps)
  /\ Forall (fun e => fresh seen' e /\ url e ∉ seen) eps.
Proof.
  induction anchors as [|anchor anchors IH]; intros seen eps seen' Hp.
  - injection Hp as <- <-. split; [reflexivity|]. split; constructor.
  - cbn [page_episodes_of] in Hp.
    destruct (truthy (a_href anchor)) as [href|] eqn:Hh; [|now apply IH].
    case_bool_decide as Hs; [now apply IH|].
    destruct (page_episodes_of anchors ({[href]} ∪ seen)) as [eps' seen''] eqn:Hr.
    destruct (IH _ _ _ Hr) as (Hsub & Hnd & Hall).
    assert (Hsub' : seen ⊆ seen'').
    { etransitivity; [apply union_subseteq_r|exact Hsub]. }
    assert (Hin' : href ∈ seen'').
    { apply Hsub. apply elem_of_union. left. now apply elem_of_singleton. }
    assert (Hold : Forall (fun e => fresh seen'' e /\ url e ∉ seen) eps').
    { eapply List.Forall_impl; [|exact Hall]. intros e [He Hn]. split; [exact He|].
      intros Hx. apply Hn. apply elem_of_union. now right. }
    destruct (_parse_episode_link anchor href) as [e|] eqn:He; injection Hp as <- <-.
    + destruct (parse_episode_link_kept _ _ _ He) as (Hu & Hsv & Ha).
      split; [exact Hsub'|]. split.
      * cbn [map]. constructor; [|exact Hnd]. rewrite Hu. intros Hin.
        apply in_map_iff in Hin as (e' & He' & Hin).
        rewrite List.Forall_forall in Hall. destruct (Hall e' Hin) as [_ Hn].
        apply Hn. rewrite He'. apply elem_of_union. left. now apply elem_of_singleton.
      * constructor; [|exact Hold]. split; [|now rewrite Hu].
        split; [now rewrite Hu|]. split; [|exact Hsv]. rewrite Hu.
        destruct Ha as [->|Ha]; [|exact Ha].
        destruct (a_href anchor) as [[|? ?]|]; discriminate.
    + split; [exact Hsub'|]. split; [exact Hnd|exact Hold].
Qed.

Lemma crawl_round_good self base_url first_try_url use_list st w w1 r :
  good st ->
  crawl_round self base_url first_try_url use_list st w = (w1, r) ->
  match r with
  | Next st' | Break st' => good st'
  | Reraise => True
  end.
Proof.
  intros [Hnd Hall]. unfold crawl_round, on_failure.
  destruct (send _ _) as [w2 [response|]].
  2:{ destruct (page st =? 1)%N; intros [= _ <-]; [exact I|now split]. }
  destruct (_ && negb (fallback_mode st)); [intros [= _ <-]; now split|].
  destruct (raise_for_status response).
  2,3: destruct (page st =? 1)%N; intros [= _ <-]; [exact I|now split].
  destruct (episode_anchors_of _) as [|anc ancs]; [intros [= _ <-]; now split|].
  destruct (page_episodes_of _ _) as [eps seen] eqn:Hp.
  destruct (page_episodes_of_new _ _ _ _ Hp) as (Hsub & Hnd' & Hnew).
  assert (Hall' : Forall (fresh seen) (all_episodes st)).
  { eapply List.Forall_impl; [|exact Hall]. intros e (He & Ha & Hs).
    split; [now apply Hsub|]. now split. }
  assert (Hg : List.NoDup (map url (all_episodes st ++ eps))
               /\ Forall (fresh seen) (all_episodes st ++ eps)).
  { split.
    - rewrite map_app. apply List.NoDup_app; [exact Hnd|exact Hnd'|].
      intros x Hx Hy. apply in_map_iff in Hx as (e & <- & Hx).
      apply in_map_iff in Hy as (e' & He' & Hy).
      rewrite List.Forall_forall in Hall, Hnew.
      destruct (Hall e Hx) as [Hin _]. destruct (Hnew e' Hy) as [_ Hn].
      rewrite He' in Hn. contradiction.
    - apply Forall_app. split; [exact Hall'|].
      eapply List.Forall_impl; [|exact Hnew]. now intros e [He _]. }
  destruct eps as [|ep eps]; [intros [= _ <-]; now split|].
  destruct (_ || _); intros [= _ <-]; exact Hg.
Qed.

Lemma crawl_good self base_url first_try_url use_list : forall fuel st w w1 eps,
  good st ->
  crawl fuel self base_url first_try_url use_list st w = (w1, Done eps) ->
  List.NoDup (map url eps) /\ Forall (fun e => absolute (url e) = true /\ servers e = []) eps.
Proof.
  assert (Hd : forall st, good st ->
    List.NoDup (map url (all_episodes st))
    /\ Forall (fun e => absolute (url e) = true /\ servers e = []) (all_episodes st)).
  { intros st [Hnd Hall]. split; [exact Hnd|].
    eapply List.Forall_impl; [|exact Hall]. now intros e (_ & Ha & Hs). }
  induction fuel as [|fuel IH]; intros st w w1 eps Hg Hc; [discriminate|].
  cbn [crawl] in Hc. destruct (page st <=? max_pages)%N.
  - destruct (crawl_round _ _ _ _ _ _) as [w2 [st'|st'|]] eqn:Hr; try discriminate.
    + apply (crawl_round_good _ _ _ _ _ _ _ _ Hg) in Hr. exact (IH _ _ _ _ Hr Hc).
    + apply (crawl_round_good _ _ _ _ _ _ _ _ Hg) in Hr. injection Hc as _ <-.
      exact (Hd _ Hr).
  - injection Hc as _ <-. now apply Hd.
Qed.

Lemma crawl_start_good : good crawl_start.
Proof. split; constructor. Qed.

(** X12. The episodes of a season are all different links: no two of them
    have the same address, whatever the pages repeat. Each address names its
    scheme, and no episode comes with servers: those are fetched later. *)
Theorem parse_season_distinct (self : scraper) (season_url : str) (w w' : world)
    (sd : season_data) :
  _parse_season self season_url w = (w', Some sd) ->
  List.NoDup (map url (sd_episodes sd))
  /\ Forall (fun e => absolute (url e) = true /\ servers e = []) (sd_episodes sd).
Proof.
  rewrite parse_season_unfold.
  destruct (extract_season_number season_url); try discriminate.
  destruct (crawl 52 _ _ _ _ _ _) as [w1 [eps| |]] eqn:Hc; try discriminate.
  destruct (http _ _); [|discriminate]. intros [= _ <-]. cbn [sd_episodes].
  destruct (crawl_good _ _ _ _ _ _ _ _ _ crawl_start_good Hc) as [Hnd Hall].
  pose proof (SortFacts.sort_perm episode_lt eps) as Hperm. split.
  - eapply Permutation_NoDup; [|exact Hnd]. apply Permutation_map. now symmetry.
  - eapply Permutation_Forall; [|exact Hall]. now symmetry.
Qed.

Lemma crawl_round_sent self base_url first_try_url use_list st w w1 r :
  crawl_round self base_url first_try_url use_list st w = (w1, r) ->
  sent w w1 [GET (session self) (current_url base_url first_try_url st)].
Proof.
  unfold crawl_round, send, on_failure.
  destruct (http _ _) as [response|].
  2:{ destruct (page st =? 1)%N; intros [= <- _]; now split. }
  destruct (_ && negb (fallback_mode st)); [intros [= <- _]; now split|].
  destruct (raise_for_status response).
  2,3: destruct (page st =? 1)%N; intros [= <- _]; now split.
  destruct (episode_anchors_of _); [intros [= <- _]; now split|].
  destruct (page_episodes_of _ _) as [[|ep eps] seen]; [intros [= <- _]; now split|].
  destruct (_ || _); intros [= <- _]; now split.
Qed.

Lemma crawl_sent self base_url first_try_url use_list : forall fuel st w w1 r,
  crawl fuel self base_url first_try_url use_list st w = (w1, r) ->
  exists l, sent w w1 l /\ (length l <= rounds_left st)%nat
            /\ Forall (is_get (session self)) l.
Proof.
  induction fuel as [|fuel IH]; intros st w w1 r Hc.
  - injection Hc as <- _. exists []. split; [split; [now rewrite app_nil_r|reflexivity]|].
    split; [cbn [length]; lia|constructor].
  - cbn [crawl] in Hc. destruct (N.leb_spec (page st) max_pages) as [Hp|Hp].
    + destruct (crawl_round _ _ _ _ _ _) as [w2 r2] eqn:Hr.
      pose proof (crawl_round_sent _ _ _ _ _ _ _ _ Hr) as [Hl Hs].
      assert (H1 : (1 <= rounds_left st)%nat).
      { unfold rounds_left, max_pages in *. lia. }
      destruct r2 as [st'|st'|].
      * destruct (IH _ _ _ _ Hc) as (l & [Hl' Hs'] & Hlen & Hget).
        exists (GET (session self) (current_url base_url first_try_url st) :: l).
        split; [split; [rewrite Hl', Hl, <- app_assoc; reflexivity|congruence]|].
        split; [|constructor; [reflexivity|exact Hget]].
        apply crawl_round_next in Hr. cbn [length].
        unfold rounds_left, max_pages in *.
        destruct Hr as [[Hpg Hfb]|(Hpg & Hfb & Hfb')]; rewrite ?Hpg, ?Hfb, ?Hfb' in *.
        -- destruct (fallback_mode st); lia.
        -- lia.
      * injection Hc as <- _. eexists. split; [split; eassumption|].
        split; [exact H1|repeat constructor].
      * injection Hc as <- _. eexists. split; [split; eassumption|].
        split; [exact H1|repeat constructor].
    + injection Hc as <- _. exists []. split; [split; [now rewrite app_nil_r|reflexivity]|].
      split; [cbn [length]; lia|constructor].
Qed.

(** X13. Reading a season makes at most 52 requests, all of them page
    requests on the session of the scraper: at most 51 for the pages of the
    list (50 pages, and the first one once more when the list address is not
    found) and one for the poster. *)
Theorem parse_season_requests (self : scraper) (season_url : str) (w : world) :
  exists l,
    sent w (fst (_parse_season self season_url w)) l
    /\ (length l <= 52)%nat
    /\ Forall (is_get (session self)) l.
Proof.
  rewrite parse_season_unfold.
  destruct (extract_season_number season_url).
  2,3: exists []; (split; [split; [now rewrite app_nil_r|reflexivity]|]);
       (split; [cbn [length]; lia|constructor]).
  destruct (crawl 52 _ _ _ _ _ _) as [w1 r] eqn:Hc.
  destruct (crawl_sent _ _ _ _ _ _ _ _ _ Hc) as (l & [Hl Hs] & Hlen & Hget).
  assert (H51 : (length l <= 51)%nat).
  { etransitivity; [exact Hlen|]. vm_compute. lia. }
  destruct r as [eps| |].
  - exists (l ++ [poster_request self season_url]). unfold after.
    assert (Hsent : sent w (World (log w1 ++ [poster_request self season_url]) (sessions w1))
                      (l ++ [poster_request self season_url])).
    { split; [cbn [log]; now rewrite Hl, <- app_assoc|exact Hs]. }
    assert (Hall : Forall (is_get (session self)) (l ++ [poster_request self season_url])).
    { apply Forall_app. split; [exact Hget|repeat constructor]. }
    rewrite length_app. cbn [length].
    destruct (http _ _); cbn [fst]; (split; [exact Hsent|]); (split; [lia|exact Hall]).
  - exists l. cbn [fst]. split; [now split|]. split; [lia|exact Hget].
  - exists l. cbn [fst]. split; [now split|]. split; [lia|exact Hget].
Qed.

End Crawl.

Lemma parse_season_distinct_witness :
  @_parse_season ascii_env CrawlExample.web CrawlExample.me CrawlExample.season_url
     CrawlExample.start = CrawlExample.result
  /\ List.NoDup (map url [CrawlExample.the_special; CrawlExample.the_first]).
Proof.
  assert (H : @_parse_season ascii_env CrawlExample.web CrawlExample.me CrawlExample.season_url
     CrawlExample.start = CrawlExample.result) by (vm_compute; reflexivity).
  split; [exact H|].
  exact (proj1 (parse_season_distinct (E:=ascii_env) (W:=CrawlExample.web) _ _ _ _ _ H)).
Defined.

(** * Resolving an embed *)

Section Embed.
Context {E : PyEnv} {W : Web}.
Import NetSpec.

Lemma extract_with_referers_sent (self : scraper) (embed_url : str) :
  forall referers w w' v,
    extract_with_referers self embed_url referers w = (w', v) ->
    exists l, sent w w' l
      /\ (1 <= length l <= length (List.filter (fun ref => negb (bool_decide (ref = []))) referers) + 1)%nat
      /\ Forall (fun r => exists referer, r = EXTRACT (session self) embed_url referer) l.
Proof.
  induction referers as [|ref referers IH]; intros w w' v Hx.
  - cbn [extract_with_referers] in Hx. unfold extract in Hx. injection Hx as <- _.
    eexists. split; [split; reflexivity|]. split; [cbn; lia|]. repeat constructor. eauto.
  - cbn [extract_with_referers] in Hx. destruct ref as [|c ref].
    + destruct (IH _ _ _ Hx) as (l & Hs & Hlen & Hall). exists l.
      split; [exact Hs|]. split; [|exact Hall]. cbn [List.filter].
      rewrite bool_decide_true by reflexivity. exact Hlen.
    + unfold extract in Hx at 1. cbn [List.filter].
      rewrite bool_decide_false by discriminate. cbn [negb length].
      destruct (truthy (vidtube _ _)).
      * injection Hx as <- _. eexists. split; [split; reflexivity|].
        split; [cbn; lia|]. repeat constructor. eauto.
      * destruct (IH _ _ _ Hx) as (l & [Hl Hs] & Hlen & Hall).
        exists (EXTRACT (session self) embed_url (Some (c :: ref)) :: l).
        split; [split; [rewrite Hl; cbn [log]; now rewrite <- app_assoc|exact Hs]|].
        split; [cbn [length]; lia|]. constructor; [eauto|exact Hall].
Qed.

(** X14. [_extract_vidtube_url] makes no request at all for an embed whose
    address names none of the four vidtube domains, and returns [None]. For
    any other embed it extracts that very address and nothing else: once for
    each referer that is not empty, in their order, until one gives a stream,
    and once without a referer when none did. *)
Theorem extract_vidtube_url_requests (self : scraper) (embed_url : str)
    (referers : list str) (w : world) :
  (existsb (fun domain => contains domain (lower embed_url)) vidtube_domains = false ->
   _extract_vidtube_url self embed_url referers w = (w, None))
  /\ (existsb (fun domain => contains domain (lower embed_url)) vidtube_domains = true ->
      exists l,
        sent w (fst (_extract_vidtube_url self embed_url referers w)) l
        /\ (1 <= length l <= length referers + 1)%nat
        /\ Forall (fun r => exists referer, r = EXTRACT (session self) embed_url referer) l).
Proof.
  unfold _extract_vidtube_url. split; intros ->; [reflexivity|].
  destruct (extract_with_referers self embed_url referers w) as [w' v] eqn:Hx.
  destruct (extract_with_referers_sent _ _ _ _ _ _ Hx) as (l & Hs & Hlen & Hall).
  exists l. split; [exact Hs|]. split; [|exact Hall].
  pose proof (filter_length_le (fun ref => negb (bool_decide (ref = []))) referers). lia.
Qed.

End Embed.

(** * The details of a show *)

Section Details.
Context {E : PyEnv} {W : Web}.
Import NetSpec SortSpec.

Lemma box_links_NoDup (boxes : list (option str)) : forall seen,
  List.NoDup (box_links boxes seen) /\ Forall (fun l => l ∉ seen) (box_links boxes seen).
Proof.
  induction boxes as [|box boxes IH]; intros seen; [split; constructor|].
  cbn [box_links]. destruct (truthy box) as [season_url|]; [|apply IH].
  case_bool_decide as Hs; [apply IH|].
  destruct (IH ({[season_url]} ∪ seen)) as [Hnd Hall]. split.
  - constructor; [|exact Hnd]. intros Hin.
    rewrite List.Forall_forall in Hall. apply (Hall _ Hin).
    apply elem_of_union. left. now apply elem_of_singleton.
  - constructor; [exact Hs|]. eapply List.Forall_impl; [|exact Hall].
    intros l Hl Hx. apply Hl. apply elem_of_union. now right.
Qed.

Lemma season_hrefs_NoDup (ls : list anchor) : forall seen,
  List.NoDup (season_hrefs ls seen) /\ Forall (fun l => l ∉ seen) (season_hrefs ls seen).
Proof.
  induction ls as [|link ls IH]; intros seen; [split; constructor|].
  cbn [season_hrefs]. destruct (names_a_season link); [|apply IH].
  case_bool_decide as Hs; cbn [negb andb]; [apply IH|].
  set (href := match a_href link with Some h => h | None => [] end) in *.
  destruct (IH ({[href]} ∪ seen)) as [Hnd Hall]. split.
  - constructor; [|exact Hnd]. intros Hin.
    rewrite List.Forall_forall in Hall. apply (Hall _ Hin).
    apply elem_of_union. left. now apply elem_of_singleton.
  - constructor; [exact Hs|]. eapply List.Forall_impl; [|exact Hall].
    intros l Hl Hx. apply Hl. apply elem_of_union. now right.
Qed.

Lemma season_links_of_NoDup (sp : soup) (url show_type : str) :
  List.NoDup (season_links_of sp url show_type).
Proof.
  unfold season_links_of.
  pose proof (proj1 (box_links_NoDup (season_boxes sp) ∅)) as Hb.
  destruct (box_links _ _); [|exact Hb].
  pose proof (proj1 (season_hrefs_NoDup (links sp) ∅)) as Hl.
  destruct (season_hrefs _ _); [|exact Hl].
  case_bool_decide; repeat constructor. intros [].
Qed.

Lemma seasons_of_unfetched : forall season_links seasons,
  seasons_of season_links = Done seasons ->
  map s_url seasons = map Some season_links /\ Forall unfetched seasons.
Proof.
  induction season_links as [|l ls IH]; intros seasons Hs.
  - injection Hs as <-. split; constructor.
  - cbn [seasons_of] in Hs. unfold season_of in Hs.
    destruct (extract_season_number l) as [n| |]; try discriminate.
    destruct (seasons_of ls) as [ss| |]; try discriminate.
    injection Hs as <-. destruct (IH _ eq_refl) as [Hu Hf]. split.
    + cbn [map s_url]. now rewrite Hu.
    + constructor; [split; reflexivity|exact Hf].
Qed.

Lemma StronglySorted_weaken {A : Type} (R R' : A -> A -> Prop) (l : list A) :
  (forall a b, R a b -> R' a b) -> StronglySorted R l -> StronglySorted R' l.
Proof.
  intros HR. induction 1 as [|a l Hl IH Ha]; constructor; [exact IH|].
  eapply List.Forall_impl; [|exact Ha]. apply HR.
Qed.

Lemma NoDup_map_Some {A : Type} (l : list A) : List.NoDup l -> List.NoDup (map Some l).
Proof.
  induction 1 as [|x l Hx Hl IH]; [constructor|]. cbn [map]. constructor; [|exact IH].
  intros Hin. apply in_map_iff in Hin as (y & [= ->] & Hy). contradiction.
Qed.

Lemma sort_seasons_sorted (seasons : list season) :
  StronglySorted (fun a b => (season_key a <= season_key b)%N) (Sort.sort season_lt seasons).
Proof.
  assert (Hs : StronglySorted (not_after season_lt) (Sort.sort season_lt seasons)).
  { apply (SortFacts.sort_sorted season_lt (fun _ => True)).
    - intros a b _ _ Hab. unfold season_lt in *. apply N.ltb_lt in Hab. apply N.ltb_ge. lia.
    - intros a b c _ _ _ H1 H2. unfold season_lt in *.
      apply N.ltb_ge in H1, H2. apply N.ltb_ge. lia.
    - apply List.Forall_forall. auto. }
  eapply StronglySorted_weaken; [|exact Hs].
  intros a b Hab. unfold not_after, season_lt in Hab. apply N.ltb_ge in Hab. exact Hab.
Qed.

(** The seasons of a series, for [get_show_details]. *)
Lemma get_series_details_listed (self : scraper) (url show_type : str) (w w' : world)
    (d : details) :
  show_type <> u "movie" ->
  get_series_details self url show_type w = (w', Some d) ->
  d_type d = show_type
  /\ d_servers d = None
  /\ exists seasons,
       d_seasons d = Some seasons /\ seasons <> []
       /\ StronglySorted (fun a b => (season_key a <= season_key b)%N) seasons
       /\ Forall unfetched seasons.
Proof.
  intros Hm. unfold get_series_details.
  destruct (send _ _) as [w1 [response|]]; [|discriminate].
  destruct (raise_for_status response); try discriminate.
  destruct (_parse_metadata _ _ _ _) as [w2 [metadata|]]; [|discriminate].
  destruct (seasons_of _) as [seasons| |] eqn:Hs; try discriminate.
  intros [= _ <-]. cbn. split; [reflexivity|]. split; [reflexivity|].
  exists (Sort.sort season_lt seasons). split; [reflexivity|].
  destruct (seasons_of_unfetched _ _ Hs) as [_ Hf]. split; [|split].
  - apply sort_not_nil. eapply seasons_of_not_nil; [|exact Hs].
    unfold season_links_of. destruct (box_links _ _); [|discriminate].
    destruct (season_hrefs _ _); [|discriminate].
    rewrite bool_decide_true by exact Hm. discriminate.
  - apply sort_seasons_sorted.
  - eapply Permutation_Forall; [symmetry; apply SortFacts.sort_perm|exact Hf].
Qed.

(** X15. The seasons [get_series_details] lists are in the order of their
    season numbers, all have different addresses, and none has episodes or a
    poster yet: these are fetched when asked for. The details carry the type
    asked for and no servers, and for a type other than "movie" there is at
    least one season: the page itself when it links to none. *)
Theorem get_series_details_seasons (self : scraper) (url show_type : str) (w w' : world)
    (d : details) :
  get_series_details self url show_type w = (w', Some d) ->
  d_type d = show_type
  /\ d_servers d = None
  /\ exists seasons,
       d_seasons d = Some seasons
       /\ StronglySorted (fun a b => (season_key a <= season_key b)%N) seasons
       /\ List.NoDup (map s_url seasons)
       /\ Forall unfetched seasons
       /\ (show_type <> u "movie" -> seasons <> []).
Proof.
  unfold get_series_details.
  destruct (send _ _) as [w1 [response|]]; [|discriminate].
  destruct (raise_for_status response); try discriminate.
  destruct (_parse_metadata _ _ _ _) as [w2 [metadata|]]; [|discriminate].
  destruct (seasons_of _) as [seasons| |] eqn:Hs; try discriminate.
  intros [= _ <-]. cbn. split; [reflexivity|]. split; [reflexivity|].
  exists (Sort.sort season_lt seasons). split; [reflexivity|].
  destruct (seasons_of_unfetched _ _ Hs) as [Hu Hf].
  pose proof (SortFacts.sort_perm season_lt seasons) as Hp.
  split; [apply sort_seasons_sorted|]. split; [|split].
  - eapply Permutation_NoDup; [apply Permutation_map; symmetry; exact Hp|].
    rewrite Hu. apply NoDup_map_Some, season_links_of_NoDup.
  - eapply Permutation_Forall; [symmetry; exact Hp|exact Hf].
  - intros Hm. apply sort_not_nil. eapply seasons_of_not_nil; [|exact Hs].
    unfold season_links_of. destruct (box_links _ _); [|discriminate].
    destruct (season_hrefs _ _); [|discriminate].
    rewrite bool_decide_true by exact Hm. discriminate.
Qed.

Lemma get_servers_found (self : scraper) (content_id referer : str) (n : nat)
    (w w' : world) (servers : list server) :
  get_servers self content_id referer n w = (w', servers) ->
  (length servers <= 1)%nat
  /\ Forall (fun s => video_url s <> [] /\ (server_number s < n)%nat) servers.
Proof.
  unfold get_servers. intros Hg.
  destruct (poll_from_spec _ _ _ _ _ _ _ _ Hg) as
    [_ [(-> & _)|(s & k & w1 & -> & Hk & _ & Hs & _)]].
  - split; [cbn; lia|constructor].
  - destruct (poll_slot_server _ _ _ _ _ _ _ Hs) as [Hn Hv].
    split; [cbn; lia|]. repeat constructor; [exact Hv|lia].
Qed.

(** What [get_movie_details] returns, when it returns something. *)
Lemma get_movie_details_facts (self : scraper) (url : str) (w w' : world) (d : details) :
  get_movie_details self url w = (w', Some d) ->
  d_type d = u "movie"
  /\ d_seasons d = None
  /\ match d_servers d with
     | Some servers =>
         (length servers <= 1)%nat /\ Forall (fun s => video_url s <> []) servers
     | None => True
     end.
Proof.
  unfold get_movie_details.
  destruct (send _ _) as [w1 [response|]]; [|discriminate].
  destruct (raise_for_status response); try discriminate.
  destruct (_parse_metadata _ _ _ _) as [w2 [metadata|]]; [|discriminate].
  destruct (_extract_content_id _ _ _ _) as [w3 movie_id].
  destruct (match truthy movie_id with Some _ => _ | None => _ end) as [w4 movie_id'].
  destruct (truthy movie_id') as [id|].
  - destruct (get_servers _ _ _ _ _) as [w5 servers] eqn:Hg.
    intros [= _ <-]. cbn. split; [reflexivity|]. split; [reflexivity|].
    destruct (get_servers_found _ _ _ _ _ _ _ Hg) as [Hl Hf]. split; [exact Hl|].
    eapply List.Forall_impl; [|exact Hf]. now intros s [Hv _].
  - intros [= _ <-]. cbn. auto.
Qed.

(** X16. Whatever the address, the details [get_show_details] returns are
    those of a movie, a series or an anime. A movie has no season list, and
    its servers, when it has any, are at most one server with a resolved
    stream. A series or an anime has no servers and a season list that is
    not empty, in the order of the season numbers. *)
Theorem get_show_details_shape (self : scraper) (url : str) (w w' : world) (d : details) :
  get_show_details self url w = (w', Some d) ->
  (d_type d = u "movie"
   /\ d_seasons d = None
   /\ match d_servers d with
      | Some servers =>
          (length servers <= 1)%nat /\ Forall (fun s => video_url s <> []) servers
      | None => True
      end)
  \/ ((d_type d = u "series" \/ d_type d = u "anime")
      /\ d_servers d = None
      /\ exists seasons,
           d_seasons d = Some seasons /\ seasons <> []
           /\ StronglySorted (fun a b => (season_key a <= season_key b)%N) seasons
           /\ Forall unfetched seasons).
Proof.
  assert (Hseries : forall show_type w0 w1,
    show_type = u "series" \/ show_type = u "anime" ->
    get_series_details self url show_type w0 = (w1, Some d) ->
    (d_type d = u "series" \/ d_type d = u "anime")
    /\ d_servers d = None
    /\ exists seasons,
         d_seasons d = Some seasons /\ seasons <> []
         /\ StronglySorted (fun a b => (season_key a <= season_key b)%N) seasons
         /\ Forall unfetched seasons).
  { intros show_type w0 w1 Ht Hg.
    assert (Hm : show_type <> u "movie") by (destruct Ht as [-> | ->]; discriminate).
    destruct (get_series_details_listed _ _ _ _ _ _ Hm Hg) as (Hty & Hsv & Hseasons).
    split; [now rewrite Hty|]. split; [exact Hsv|exact Hseasons]. }
  unfold get_show_details.
  destruct (_ || _); [intros Hm; left; eapply get_movie_details_facts, Hm|].
  destruct (_ || _); [intros Hs; right; eapply Hseries; [now right|exact Hs]|].
  destruct (_ || _); [intros Hs; right; eapply Hseries; [now left|exact Hs]|].
  destruct (get_series_details self url (u "series") w) as [w1 result] eqn:Hg.
  destruct (has_seasons result).
  - intros [= <- ->]. right. eapply Hseries; [now left|exact Hg].
  - intros Hm. left. eapply get_movie_details_facts, Hm.
Qed.

End Details.

Lemma get_series_details_seasons_witness :
  @get_series_details ascii_env ShowExample.web ShowExample.me ShowExample.show_url
     (u "series") ShowExample.start
  = (World [GET 0 ShowExample.show_url] 1, Some ShowExample.series_details)
  /\ d_type ShowExample.series_details = u "series".
Proof.
  assert (H : @get_series_details ascii_env ShowExample.web ShowExample.me
     ShowExample.show_url (u "series") ShowExample.start
     = (World [GET 0 ShowExample.show_url] 1, Some ShowExample.series_details))
    by (vm_compute; reflexivity).
  split; [exact H|].
  exact (proj1 (get_series_details_seasons (E:=ascii_env) (W:=ShowExample.web) _ _ _ _ _ _ H)).
Defined.

Lemma get_show_details_shape_witness :
  @get_show_details ascii_env ShowExample.web ShowExample.me ShowExample.show_url
     ShowExample.start
  = (World [GET 0 ShowExample.show_url] 1, Some ShowExample.series_details)
  /\ (d_type ShowExample.series_details = u "movie"
      \/ d_type ShowExample.series_details = u "series"
      \/ d_type ShowExample.series_details = u "anime").
Proof.
  assert (H : @get_show_details ascii_env ShowExample.web ShowExample.me
     ShowExample.show_url ShowExample.start
     = (World [GET 0 ShowExample.show_url] 1, Some ShowExample.series_details))
    by (vm_compute; reflexivity).
  split; [exact H|].
  destruct (get_show_details_shape (E:=ascii_env) (W:=ShowExample.web) _ _ _ _ _ H)
    as [(Hm & _)|([Hs|Ha] & _)]; auto.
Defined.

(** * Fetches that find nothing *)

Section Nothing.
Context {E : PyEnv} {W : Web}.
Import NetSpec TextFacts.

Lemma set_servers_same (e : episode) : servers e = [] -> set_servers e [] = e.
Proof. destruct e. cbn. now intros ->. Qed.

(** X17. A lazy fetch that returns nothing leaves the store as it was: the
    season or the episode of the caller is not touched, so the next call
    tries again. A season or an episode that is not in the store, or that has
    no list and no address, is answered with the empty list without a
    request. *)
Theorem fetch_nothing_changes_nothing (self : scraper) (ref : nat) (w : world) :
  (forall (h h' : gmap nat season) w',
      fetch_season_episodes self ref h w = (h', w', []) -> h' = h)
  /\ (forall (h h' : gmap nat episode) w' r,
        fetch_episode_servers self ref h w = (h', w', r) ->
        r = Done [] \/ r = Raised -> h' = h)
  /\ (forall (h : gmap nat season),
        match h !! ref with
        | None => True
        | Some s => s_episodes s = [] /\ truthy (s_url s) = None
        end ->
        fetch_season_episodes self ref h w = (h, w, []))
  /\ (forall (h : gmap nat episode),
        match h !! ref with
        | None => True
        | Some e => servers e = [] /\ url e = []
        end ->
        fetch_episode_servers self ref h w = (h, w, Done [])).
Proof.
  split; [|split; [|split]].
  - intros h h' w'. unfold fetch_season_episodes.
    destruct (h !! ref) as [s|]; [|now intros [= <- _]].
    destruct (s_episodes s) as [|ep eps]; [|discriminate].
    destruct (truthy (s_url s)) as [season_url|]; [|now intros [= <- _]].
    destruct (_parse_season _ _ _) as [w1 [sd|]]; [|now intros [= <- _]].
    destruct (sd_episodes sd); [now intros [= <- _]|discriminate].
  - intros h h' w' r. unfold fetch_episode_servers.
    destruct (h !! ref) as [e|] eqn:He; [|now intros [= <- _]].
    destruct (servers e) as [|sv svs] eqn:Hsv.
    2:{ intros [= <- _ <-] [Hr|Hr]; discriminate Hr. }
    destruct (url e) as [|c episode_url]; [now intros [= <- _]|].
    destruct (_encode_url _) as [encoded_url| |]; [|now intros [= <- _]|now intros [= <- _]].
    destruct (_extract_content_id _ _ _ _) as [w1 id1].
    destruct (match truthy id1 with Some _ => _ | None => _ end) as [w2 id2].
    destruct (truthy id2) as [episode_id|]; [|now intros [= <- _]].
    destruct (get_servers _ _ _ _ _) as [w3 srv].
    destruct (match srv with [] => _ | _ :: _ => _ end) as [w4 srv'].
    intros [= <- _ <-] [Hr|Hr]; try discriminate Hr.
    injection Hr as ->. rewrite set_servers_same by exact Hsv.
    now apply insert_id.
  - intros h Hh. unfold fetch_season_episodes.
    destruct (h !! ref) as [s|]; [|reflexivity]. destruct Hh as [-> ->]. reflexivity.
  - intros h Hh. unfold fetch_episode_servers.
    destruct (h !! ref) as [e|]; [|reflexivity]. destruct Hh as [-> ->]. reflexivity.
Qed.

(** X18. [_get_trailer_url] makes one request, to the trailer endpoint, and
    returns an address only when the frame of the answer has one that starts
    with "http://" or "https://" once the white space around it is removed:
    the address returned has no white space at its ends. A failure of the
    request, or an error status, gives [None]. *)
Theorem get_trailer_url_http (self : scraper) (page_url form_url : str) (w : world) :
  fst (_get_trailer_url self page_url form_url w)
  = World (log w ++ [trailer_request self page_url form_url]) (sessions w)
  /\ (forall v,
        snd (_get_trailer_url self page_url form_url w) = Some v ->
        (startswith (u "http://") v || startswith (u "https://") v) = true
        /\ strip v = v
        /\ exists response src,
             http (log w) (trailer_request self page_url form_url) = Some response
             /\ between 400 599 (status_code response) = false
             /\ iframe (text response) = Some (Some src) /\ v = strip src)
  /\ (http (log w) (trailer_request self page_url form_url) = None ->
      snd (_get_trailer_url self page_url form_url w) = None).
Proof.
  unfold _get_trailer_url, send. fold (trailer_request self page_url form_url).
  destruct (http _ _) as [response|]; [|split; [reflexivity|split; [discriminate|reflexivity]]].
  unfold raise_for_status.
  destruct (between 400 599 (status_code response)) eqn:Hst;
    [split; [reflexivity|split; [discriminate|discriminate]]|].
  destruct (iframe (text response)) as [[[|c src]|]|] eqn:Hf;
    try (split; [reflexivity|split; discriminate]).
  destruct (_ || _) eqn:Hh; [|split; [reflexivity|split; discriminate]].
  split; [reflexivity|]. split; [|discriminate].
  intros v [= <-]. split; [exact Hh|]. split; [apply strip_idem|].
  exists response, (c :: src). auto.
Qed.

End Nothing.

(** * Fetches that find something *)

Section Something.
Context {E : PyEnv} {W : Web}.
Import NetSpec CrawlSpec CrawlFacts FailureSpec.

(** X23. The episodes [fetch_season_episodes] fetches for a season that had
    none are what the crawl of its address gives, sorted: in the order of
    the values of their sort keys, at all different addresses that name
    their scheme, and without servers. They are put on the season together
    with the poster read from the page the request for the poster is
    answered with, and nothing else of the season changes. *)
Theorem fetch_season_episodes_result (self : scraper) (ref : nat) (h h' : gmap nat season)
    (w w' : world) (s : season) (eps : list episode) :
  h !! ref = Some s -> s_episodes s = [] ->
  fetch_season_episodes self ref h w = (h', w', eps) -> eps <> [] ->
  ascending eps
  /\ (forall a b : episode,
        episode_lt a b = (Float.ticks (key a) <? Float.ticks (key b))%Z)
  /\ List.NoDup (map url eps)
  /\ Forall (fun e => absolute (url e) = true /\ servers e = []) eps
  /\ exists season_url w1 crawled response,
       s_url s = Some season_url
       /\ crawl 52 self (base_of season_url) (first_try_of season_url)
            (use_list_of season_url) crawl_start w = (w1, Done crawled)
       /\ eps = Sort.sort episode_lt crawled
       /\ http (log w1) (poster_request self season_url) = Some response
       /\ w' = after w1 (poster_request self season_url)
       /\ h' = <[ref := Season (season_number s) (season_part s) (display_label s)
                         (s_url s) (poster_of (text response)) eps]> h.
Proof.
  intros Hs He. unfold fetch_season_episodes. rewrite Hs, He.
  destruct (truthy (s_url s)) as [season_url|] eqn:Hu;
    [|intros [= _ _ <-] Hn; contradiction].
  assert (Hurl : s_url s = Some season_url).
  { destruct (s_url s) as [[|c u0]|]; try discriminate. exact Hu. }
  rewrite parse_season_unfold.
  destruct (extract_season_number season_url); try (intros [= _ _ <-] Hn; contradiction).
  destruct (crawl 52 _ _ _ _ _ _) as [w2 [crawled| |]] eqn:Hc;
    try (intros [= _ _ <-] Hn; contradiction).
  destruct (http _ _) as [response|] eqn:Hp; [|intros [= _ _ <-] Hn; contradiction].
  cbn [sd_episodes sd_poster].
  destruct (Sort.sort episode_lt crawled) as [|ep eps'] eqn:Hsort;
    [intros [= _ _ <-] Hn; contradiction|].
  intros [= <- <- <-] _. rewrite <- Hsort.
  destruct (crawl_good _ _ _ _ _ _ _ _ _ crawl_start_good Hc) as [Hnd Hall].
  pose proof (SortFacts.sort_perm episode_lt crawled) as Hperm.
  split; [apply sort_episodes_ascending|].
  split; [apply episode_lt_ticks|].
  split; [|split].
  - eapply Permutation_NoDup; [|exact Hnd]. apply Permutation_map. now symmetry.
  - eapply Permutation_Forall; [|exact Hall]. now symmetry.
  - exists season_url, w2, crawled, response. repeat split; try assumption; reflexivity.
Qed.

(** X24. The servers [fetch_episode_servers] fetches for an episode that had
    none are at most one server, with a resolved stream and a slot below 10.
    The episode of the caller gets exactly the list returned, and nothing
    else of it changes. *)
Theorem fetch_episode_servers_result (self : scraper) (ref : nat) (h h' : gmap nat episode)
    (w w' : world) (e : episode) (srv : list server) :
  h !! ref = Some e -> servers e = [] ->
  fetch_episode_servers self ref h w = (h', w', Done srv) ->
  (length srv <= 1)%nat
  /\ Forall (fun s => video_url s <> [] /\ (server_number s < 10)%nat) srv
  /\ h' = <[ref := set_servers e srv]> h.
Proof.
  intros He Hsv. unfold fetch_episode_servers. rewrite He, Hsv.
  assert (Hnone : h = <[ref := set_servers e []]> h).
  { rewrite set_servers_same by exact Hsv. symmetry. now apply insert_id. }
  assert (Hempty : forall w0, (h, w0, @Done (list server) []) = (h', w', Done srv) ->
    (length srv <= 1)%nat
    /\ Forall (fun s => video_url s <> [] /\ (server_number s < 10)%nat) srv
    /\ h' = <[ref := set_servers e srv]> h).
  { intros w0 [= <- _ <-]. split; [cbn; lia|]. split; [constructor|exact Hnone]. }
  destruct (url e) as [|c episode_url]; [apply Hempty|].
  destruct (_encode_url _) as [encoded_url| |]; try discriminate.
  destruct (_extract_content_id _ _ _ _) as [w1 id1].
  destruct (match truthy id1 with Some _ => _ | None => _ end) as [w2 id2].
  destruct (truthy id2) as [episode_id|]; [|apply Hempty].
  destruct (get_servers self _ _ _ _) as [w3 srv1] eqn:Hg1.
  destruct srv1 as [|s1 srv1].
  - destruct (new_scraper _ _) as [w4 fresh_scraper].
    destruct (get_servers fresh_scraper _ _ _ _) as [w5 srv2] eqn:Hg2.
    intros [= <- _ <-]. destruct (get_servers_found _ _ _ _ _ _ _ Hg2) as [Hl Hf].
    split; [exact Hl|]. split; [exact Hf|reflexivity].
  - intros [= <- _ <-]. destruct (get_servers_found _ _ _ _ _ _ _ Hg1) as [Hl Hf].
    split; [exact Hl|]. split; [exact Hf|reflexivity].
Qed.

End Something.

Lemma fetch_season_episodes_result_witness :
  @fetch_season_episodes ascii_env CrawlExample.web CrawlExample.me 0
     {[0%nat := NetExample.a_season]} CrawlExample.start
  = ({[0%nat := Season (Some 1%N) None (Some (u "Season 1")) (Some CrawlExample.season_url)
                  None [CrawlExample.the_special; CrawlExample.the_first]]},
     fst CrawlExample.result,
     [CrawlExample.the_special; CrawlExample.the_first])
  /\ List.NoDup (map url [CrawlExample.the_special; CrawlExample.the_first]).
Proof.
  assert (H : @fetch_season_episodes ascii_env CrawlExample.web CrawlExample.me 0
     {[0%nat := NetExample.a_season]} CrawlExample.start
  = ({[0%nat := Season (Some 1%N) None (Some (u "Season 1")) (Some CrawlExample.season_url)
                  None [CrawlExample.the_special; CrawlExample.the_first]]},
     fst CrawlExample.result,
     [CrawlExample.the_special; CrawlExample.the_first])) by (vm_compute; reflexivity).
  split; [exact H|].
  assert (Hl : ({[0%nat := NetExample.a_season]} : gmap nat season) !! 0%nat
               = Some NetExample.a_season) by apply lookup_singleton_eq.
  assert (Hne : [CrawlExample.the_special; CrawlExample.the_first] <> []) by discriminate.
  exact (proj1 (proj2 (proj2 (fetch_season_episodes_result (E:=ascii_env)
    (W:=CrawlExample.web) _ _ _ _ _ _ _ _ Hl eq_refl H Hne)))).
Defined.

Lemma fetch_episode_servers_result_witness :
  @fetch_episode_servers ascii_env NetExample.streaming NetExample.me 0
     {[0%nat := NetExample.an_episode]} (World [] 1)
  = ({[0%nat := set_servers NetExample.an_episode [NetExample.a_server]]},
     World [GET 0 (u "https://topcinema.rip/show-episode-1/watch/");
            POST 0 (u "https://topcinema.rip/wp-content/themes/movies2023/Ajaxat/Single/Server.php")
              [(u "id", u "77"); (u "i", u "0")]
              (u "https://topcinema.rip/show-episode-1/watch/") (u "https://topcinema.rip");
            EXTRACT 0 (u "https://vidtube.pro/e/abc") (Some (u "https://topcinema.rip"))] 1,
     Done [NetExample.a_server])
  /\ (length [NetExample.a_server] <= 1)%nat.
Proof.
  assert (H : @fetch_episode_servers ascii_env NetExample.streaming NetExample.me 0
     {[0%nat := NetExample.an_episode]} (World [] 1)
  = ({[0%nat := set_servers NetExample.an_episode [NetExample.a_server]]},
     World [GET 0 (u "https://topcinema.rip/show-episode-1/watch/");
            POST 0 (u "https://topcinema.rip/wp-content/themes/movies2023/Ajaxat/Single/Server.php")
              [(u "id", u "77"); (u "i", u "0")]
              (u "https://topcinema.rip/show-episode-1/watch/") (u "https://topcinema.rip");
            EXTRACT 0 (u "https://vidtube.pro/e/abc") (Some (u "https://topcinema.rip"))] 1,
     Done [NetExample.a_server])) by (vm_compute; reflexivity).
  split; [exact H|].
  assert (Hl : ({[0%nat := NetExample.an_episode]} : gmap nat episode) !! 0%nat
               = Some NetExample.an_episode) by apply lookup_singleton_eq.
  exact (proj1 (fetch_episode_servers_result (E:=ascii_env) (W:=NetExample.streaming)
    _ _ _ _ _ _ _ _ Hl eq_refl H)).
Defined.

(** * The longest ordinal wins *)

Section Ordinals.
Context {E : PyEnv}.
Import SortSpec SeasonSpec OrdinalSpec.

Lemma first_ordinal_longest (t : str) : forall tbl n,
  StronglySorted (fun a b : str * N => (length (fst b) <= length (fst a))%nat) tbl ->
  first_ordinal t tbl = Some n ->
  exists key, In (key, n) tbl /\ contains key t = true
    /\ forall key' n', In (key', n') tbl -> contains key' t = true ->
         (length key' <= length key)%nat.
Proof.
  induction tbl as [|[k v] tbl IH]; intros n Hs Hf; [discriminate|].
  inversion Hs as [|? ? Hs' Hk]; subst. cbn [first_ordinal] in Hf.
  destruct (contains k t) eqn:Hc.
  - injection Hf as <-. exists k. split; [now left|]. split; [exact Hc|].
    intros key' n' [[= <- <-]|Hin] _; [lia|].
    rewrite List.Forall_forall in Hk. exact (Hk _ Hin).
  - destruct (IH _ Hs' Hf) as (key & Hin & Hkey & Hmax).
    exists key. split; [now right|]. split; [exact Hkey|].
    intros key' n' [[= <- <-]|Hin'] Hc'; [congruence|]. eapply Hmax; eassumption.
Qed.

Lemma first_ordinal_some (t : str) : forall tbl key n,
  In (key, n) tbl -> contains key t = true -> first_ordinal t tbl <> None.
Proof.
  induction tbl as [|[k v] tbl IH]; intros key n Hin Hc; [destruct Hin|].
  cbn [first_ordinal]. destruct (contains k t) eqn:Hk; [discriminate|].
  destruct Hin as [[= <- <-]|Hin]; [congruence|]. eapply IH; eassumption.
Qed.

Lemma ordinals_by_length_sorted :
  StronglySorted (fun a b : str * N => (length (fst b) <= length (fst a))%nat)
    ordinals_by_length.
Proof.
  unfold ordinals_by_length.
  set (lt := fun a b : str * N => (length (fst b) <? length (fst a))%nat).
  assert (Hs : StronglySorted (not_after lt) (Sort.sort lt arabic_ordinals)).
  { apply (SortFacts.sort_sorted lt (fun _ => True)).
    - intros a b _ _ Hab. unfold lt in *. apply Nat.ltb_lt in Hab. apply Nat.ltb_ge. lia.
    - intros a b c _ _ _ H1 H2. unfold lt in *.
      apply Nat.ltb_ge in H1, H2. apply Nat.ltb_ge. lia.
    - apply List.Forall_forall. auto. }
  revert Hs. generalize (Sort.sort lt arabic_ordinals). intros l.
  induction 1 as [|a l Hl IH Ha]; constructor; [exact IH|].
  eapply List.Forall_impl; [|exact Ha].
  intros b Hab. unfold not_after, lt in Hab. apply Nat.ltb_ge in Hab. exact Hab.
Qed.

Lemma arabic_ordinals_range :
  Forall (fun entry : str * N => (1 <= snd entry <= 22)%N) arabic_ordinals.
Proof. unfold arabic_ordinals. repeat constructor; cbn [snd]; lia. Qed.

(** X21. In a text that does not say "final", the season number is read off
    the longest Arabic ordinal of the table that stands in it, so that
    "twelfth" is never read as "second": when some ordinal of the table
    stands in the text, [extract_season_number] returns the number of one of
    the longest of them, a number from 1 to 22, whatever season marker the
    text also holds. *)
Theorem extract_season_number_longest_ordinal (text : str) :
  has_final (normalized text) = false ->
  (exists key n, In (key, n) arabic_ordinals /\ contains key (normalized text) = true) ->
  exists key n,
    extract_season_number text = Done n
    /\ longest_ordinal (normalized text) key n
    /\ (1 <= n <= 22)%N.
Proof.
  intros Hfin (key0 & n0 & Hin0 & Hc0).
  assert (Hperm : Permutation ordinals_by_length arabic_ordinals) by apply SortFacts.sort_perm.
  destruct (first_ordinal (normalized text) ordinals_by_length) as [n|] eqn:Hf.
  2:{ exfalso. revert Hf. eapply first_ordinal_some; [|exact Hc0].
      eapply Permutation_in; [symmetry; exact Hperm|exact Hin0]. }
  destruct (first_ordinal_longest _ _ _ ordinals_by_length_sorted Hf) as (key & Hin & Hc & Hmax).
  exists key, n. split; [|split].
  - unfold extract_season_number. fold (normalized text). cbv zeta.
    unfold normalized in *. now rewrite Hfin, Hf.
  - split; [eapply Permutation_in; [exact Hperm|exact Hin]|]. split; [exact Hc|].
    intros key' n' Hin' Hc'. eapply Hmax; [|exact Hc'].
    eapply Permutation_in; [symmetry; exact Hperm|exact Hin'].
  - pose proof arabic_ordinals_range as Hr. rewrite List.Forall_forall in Hr.
    apply (Hr (key, n)). eapply Permutation_in; [exact Hperm|exact Hin].
Qed.

End Ordinals.

Lemma extract_season_number_longest_ordinal_witness :
  @has_final (@SeasonSpec.normalized ascii_env (u "مسلسل-الموسم-الثاني-عشر")) = false
  /\ @extract_season_number ascii_env (u "مسلسل-الموسم-الثاني-عشر") = Done 12%N
  /\ exists key n,
       @extract_season_number ascii_env (u "مسلسل-الموسم-الثاني-عشر") = Done n
       /\ OrdinalSpec.longest_ordinal
            (@SeasonSpec.normalized ascii_env (u "مسلسل-الموسم-الثاني-عشر")) key n
       /\ (1 <= n <= 22)%N.
Proof.
  split; [vm_compute; reflexivity|]. split; [vm_compute; reflexivity|].
  apply (extract_season_number_longest_ordinal (E:=ascii_env)); [vm_compute; reflexivity|].
  exists (u "الثاني"), 2%N. split; [|vm_compute; reflexivity].
  unfold arabic_ordinals. cbn [In]. do 40 right. left. reflexivity.
Defined.

(** * The sort key of an episode *)

Section SortKey.
Context {E : PyEnv}.
Import Re ReSpec ReFacts SortSpec TextFacts.

Lemma number_re_digit (s : str) :
  occurs number_re s -> Exists (fun c => is_decimal c = true) s.
Proof.
  intros (pre & w & t & -> & Hd). unfold number_re in Hd.
  apply denote_grp in Hd. apply denote_seq in Hd as (w1 & w2 & -> & H1 & _).
  apply denote_plus_chr in H1 as [Hne Hall].
  destruct w1 as [|c w1]; [contradiction|]. inversion Hall; subst.
  apply Exists_app. right. apply Exists_app. left. apply Exists_app. left.
  now constructor.
Qed.

(** X22. The sort key of an episode number does not depend on the white
    space around it and is always a number of binary64 that can be
    compared: never a NaN, never negative, and in normal form, so that one
    key is below another exactly when its value is the smaller. An episode
    number without any digit, other than "special" in some letter case, has
    the key 99999, the very key of an episode numbered 99999: it sorts
    after the episodes up to 99999 and before those from 100000 on. *)
Theorem parse_episode_number_key (ep_str : str) :
  parse_episode_number (strip ep_str) = parse_episode_number ep_str
  /\ regular (parse_episode_number ep_str)
  /\ Float.normal (parse_episode_number ep_str) = true
  /\ (forall other,
        Float.ltb (parse_episode_number ep_str) (parse_episode_number other)
        = (Float.ticks (parse_episode_number ep_str)
           <? Float.ticks (parse_episode_number other))%Z)
  /\ (Forall (fun c => is_decimal c = false) ep_str ->
      lower (strip ep_str) <> u "special" ->
      parse_episode_number ep_str = NO_NUMBER)
  /\ Float.ticks NO_NUMBER = (99999 * 2 ^ 1074)%Z
  /\ parse_episode_number (u "99999") = NO_NUMBER
  /\ Float.ticks (parse_episode_number (u "99998")) = (99998 * 2 ^ 1074)%Z
  /\ Float.ticks (parse_episode_number (u "100000")) = (100000 * 2 ^ 1074)%Z.
Proof.
  split; [|split; [apply CrawlFacts.parse_episode_number_regular|]].
  2: split; [apply CrawlFacts.parse_episode_number_normal|].
  2: split; [intros other; apply FloatFacts.ltb_ticks;
               first [apply CrawlFacts.parse_episode_number_regular
                     |apply CrawlFacts.parse_episode_number_normal]|].
  2: split; [|repeat split; vm_compute; reflexivity].
  - unfold parse_episode_number. rewrite strip_idem.
    destruct ep_str as [|c ep_str]; [reflexivity|].
    destruct (strip (c :: ep_str)) eqn:Hs; [|reflexivity].
    cbn. reflexivity.
  - intros Hd Hsp. unfold parse_episode_number.
    destruct ep_str as [|c ep_str]; [reflexivity|].
    rewrite bool_decide_false by exact Hsp.
    assert (Hd' : Forall (fun c => is_decimal c = false) (strip (c :: ep_str)))
      by now apply strip_chars.
    rewrite bool_decide_false.
    2:{ intros H0. rewrite H0 in Hd'. inversion Hd' as [|? ? H48 _]. discriminate H48. }
    cbn [orb]. rewrite search_none; [reflexivity|].
    intros Ho. apply number_re_digit in Ho. apply List.Exists_exists in Ho as (d & Hin & Hdd).
    rewrite List.Forall_forall in Hd'. specialize (Hd' d Hin). congruence.
Qed.

End SortKey.
